(** * Guardian Integration Gateway: failure gate, redactor and secure-inquiry flow

    A shallow embedding of the gateway's core:

    - [CircuitBreaker]: the failure gate of [circuitBreaker.service.js]
      (a module-level counter and five exported functions);
    - [Sanitizer]: the redactor [sanitize] and the checksum [isValidLuhn]
      of [sanitizer.service.js], as three scanning passes over the
      characters of the message;
    - [SecureInquiry]: the orchestrating flow [executeSecureInquiry] of
      [secureInquiry.usecase.js], written in a small state-and-exception
      monad over injected dependencies, with a log of dependency calls.

    JavaScript numbers are exact on integers below 2^53; the failure
    counter only ever holds such integers and is modelled in [Z].
    Strings are lists of 8-bit characters; the detectors only tell ASCII
    digits, ASCII letters and a few ASCII signs from everything else. *)

From Stdlib Require Import ZArith List String Ascii Bool Arith Lia.
Import ListNotations.

Set Implicit Arguments.

(* ===================================================================== *)
(** ** The failure gate ([circuitBreaker.service.js]) *)
(* ===================================================================== *)

Module CircuitBreaker.

Local Open Scope Z_scope.

(** [const FAILURE_THRESHOLD = 3;] *)
Definition FAILURE_THRESHOLD : Z := 3.

(** The module state: [let failureCount = 0;]. *)
Record state : Type := mkState { failureCount : Z }.

Definition initial : state := {| failureCount := 0 |}.

(** Every exported function is a state transformer returning its result
    together with the module state it leaves behind. *)

(** [function isOpen() { return failureCount >= FAILURE_THRESHOLD; }] *)
Definition isOpen (s : state) : bool * state :=
  (failureCount s >=? FAILURE_THRESHOLD, s).

(** [function recordFailure() { failureCount += 1; }] *)
Definition recordFailure (s : state) : unit * state :=
  (tt, {| failureCount := failureCount s + 1 |}).

(** [function recordSuccess() { failureCount = 0; }] *)
Definition recordSuccess (s : state) : unit * state :=
  (tt, {| failureCount := 0 |}).

(** [function reset() { failureCount = 0; }] *)
Definition reset (s : state) : unit * state :=
  (tt, {| failureCount := 0 |}).

(** [function getFailureCount() { return failureCount; }] *)
Definition getFailureCount (s : state) : Z * state :=
  (failureCount s, s).

(** The five exported operations, as events a caller can fire. *)
Inductive op : Type :=
| OpIsOpen
| OpRecordFailure
| OpRecordSuccess
| OpReset
| OpGetFailureCount.

(** The state left by one operation. *)
Definition step (o : op) (s : state) : state :=
  match o with
  | OpIsOpen => snd (isOpen s)
  | OpRecordFailure => snd (recordFailure s)
  | OpRecordSuccess => snd (recordSuccess s)
  | OpReset => snd (reset s)
  | OpGetFailureCount => snd (getFailureCount s)
  end.

(** The state left by a sequence of operations, first operation first. *)
Fixpoint run (ops : list op) (s : state) : state :=
  match ops with
  | [] => s
  | o :: rest => run rest (step o s)
  end.

(** [n] consecutive [recordFailure()] calls. *)
Fixpoint failures (n : nat) (s : state) : state :=
  match n with
  | O => s
  | S k => failures k (snd (recordFailure s))
  end.

End CircuitBreaker.

(* ===================================================================== *)
(** ** The redactor ([sanitizer.service.js])

    The source tree holds the test-suite [sanitizer.service.test.js] of
    the redactor, not its implementation file.  The definitions of this
    module are modelled from the specification, as character scanners over
    the message, and are checked further down against the expectations of
    the test-suite. *)
(* ===================================================================== *)

Module Sanitizer.

(** The values [sanitize] can be called with.  [sanitize] looks at the
    payload of strings only. *)
Unset Elimination Schemes.
Inductive jsValue : Type :=
| JsUndefined
| JsNull
| JsBoolean (b : bool)
| JsNumber (n : Z)
| JsString (s : string)
| JsArray (items : list jsValue)
| JsObject (fields : list (string * jsValue)).
Set Elimination Schemes.

Definition chars (s : string) : list ascii := list_ascii_of_string s.

Definition code (c : ascii) : nat := nat_of_ascii c.

(** *** Character classes *)

Definition isDigit (c : ascii) : bool :=
  (48 <=? code c) && (code c <=? 57).

Definition isLetter (c : ascii) : bool :=
  ((65 <=? code c) && (code c <=? 90)) ||
  ((97 <=? code c) && (code c <=? 122)).

(** Modelled from the spec: the local characters of an email, "letters,
    digits, and . _ % + -". *)
Definition isLocalChar (c : ascii) : bool :=
  isLetter c || isDigit c ||
  Ascii.eqb c "." || Ascii.eqb c "_" || Ascii.eqb c "%" ||
  Ascii.eqb c "+" || Ascii.eqb c "-".

(** Modelled from the spec: the domain characters of an email.  The spec
    names the class without listing it; the characters of host names are
    taken: letters, digits, the dot and the hyphen. *)
Definition isDomainChar (c : ascii) : bool :=
  isLetter c || isDigit c || Ascii.eqb c "." || Ascii.eqb c "-".

(** The longest prefix of [s] in class [p], and what follows it. *)
Fixpoint takeWhile (p : ascii -> bool) (s : list ascii) : list ascii :=
  match s with
  | [] => []
  | c :: s' => if p c then c :: takeWhile p s' else []
  end.

Fixpoint dropWhile (p : ascii -> bool) (s : list ascii) : list ascii :=
  match s with
  | [] => []
  | c :: s' => if p c then dropWhile p s' else s
  end.

(** *** Placeholders *)

(** Modelled from the spec: the placeholders, "one of three fixed
    tokens". *)
Definition REDACTED_EMAIL : list ascii := chars "<REDACTED: EMAIL>".
Definition REDACTED_CREDIT_CARD : list ascii :=
  chars "<REDACTED: CREDIT_CARD>".
Definition REDACTED_SSN : list ascii := chars "<REDACTED: SSN>".

(** *** The Luhn checksum *)

Definition digitValue (c : ascii) : nat := code c - 48.

(** Modelled from the spec: "double ...; if doubling produces a value
    greater than 9, subtract 9 from it". *)
Definition luhnDouble (d : nat) : nat :=
  if 9 <? 2 * d then 2 * d - 9 else 2 * d.

(** Modelled from the spec: "starting from the rightmost digit moving
    left, double every second digit (positions 2, 4, 6, ... counting from
    the right, 1-indexed) ... Sum all digits".  [fromRight] holds the
    digits from the rightmost on, [pos] is the position of its head. *)
Fixpoint luhnSumFrom (pos : nat) (fromRight : list nat) : nat :=
  match fromRight with
  | [] => 0
  | d :: rest =>
      (if Nat.even pos then luhnDouble d else d) + luhnSumFrom (S pos) rest
  end.

(** Modelled from the spec: the sum over a candidate, whose rightmost
    digit has position 1. *)
Definition luhnSum (digits : list nat) : nat := luhnSumFrom 1 (rev digits).

(** Modelled from the spec: "the candidate is valid iff the total sum is
    divisible by 10", for a candidate that is a sequence of decimal
    digits; a candidate with another character in it is not valid. *)
Definition luhnValid (candidate : list ascii) : bool :=
  forallb isDigit candidate &&
  (luhnSum (map digitValue candidate) mod 10 =? 0).

(** Modelled from the spec: the exported [isValidLuhn] of the absent
    [sanitizer.service.js]. *)
Definition isValidLuhn (candidate : string) : bool :=
  luhnValid (chars candidate).

(** *** Pass 1: email addresses *)

(** Modelled from the spec: the end of "domain-chars with at least one
    dot, then a top-level label of at least two letters", inside a run [d]
    of domain characters: the length of the prefix of [d] that ends with
    the letters after the last dot that has two letters or more after
    it. *)
Fixpoint lastTld (d : list ascii) : option nat :=
  match d with
  | [] => None
  | c :: d' =>
      match lastTld d' with
      | Some n => Some (S n)
      | None =>
          if Ascii.eqb c "." && (2 <=? List.length (takeWhile isLetter d'))
          then Some (S (List.length (takeWhile isLetter d')))
          else None
      end
  end.

(** Modelled from the spec: the domain of an email, inside a run [d] of
    domain characters; it has a character or more before that dot. *)
Definition matchDomain (d : list ascii) : option nat :=
  match d with
  | [] => None
  | _ :: d' => option_map S (lastTld d')
  end.

(** Modelled from the spec: the email detector at the head of [s]:
    "one-or-more of local-chars, then '@', then domain-chars with at least
    one dot, then a top-level label of at least two letters".  The result
    is the length of the match, the longest one that starts at the head
    of [s]. *)
Definition matchEmailAt (s : list ascii) : option nat :=
  match takeWhile isLocalChar s, dropWhile isLocalChar s with
  | _ :: _, c :: r =>
      if Ascii.eqb c "@" then
        match matchDomain (takeWhile isDomainChar r) with
        | Some m => Some (List.length (takeWhile isLocalChar s) + 1 + m)
        | None => None
        end
      else None
  | _, _ => None
  end.

(** Modelled from the spec: "every non-overlapping match in the string is
    replaced", scanning from the left; [skip] counts the characters of the
    current match that are still to be dropped. *)
Fixpoint emailScan (skip : nat) (s : list ascii) : list ascii :=
  match s with
  | [] => []
  | c :: s' =>
      match skip with
      | S k => emailScan k s'
      | O =>
          match matchEmailAt s with
          | Some n => REDACTED_EMAIL ++ emailScan (pred n) s'
          | None => c :: emailScan 0 s'
          end
      end
  end.

(** Modelled from the spec: pass 1, on a whole message. *)
Definition redactEmails (s : list ascii) : list ascii := emailScan 0 s.

(** *** Passes 2 and 3: runs of digits *)

(** What a pass does with a run of digits: [Some placeholder] to replace
    it, [None] to keep it. *)
Definition selector : Type := list ascii -> option (list ascii).

(** Modelled from the spec: a complete run is replaced by its
    placeholder or "left untouched verbatim". *)
Definition flushRun (sel : selector) (run : list ascii) : list ascii :=
  match run with
  | [] => []
  | _ :: _ => match sel run with
              | Some placeholder => placeholder
              | None => run
              end
  end.

(** Modelled from the spec: a pass over the runs of digits "bounded by
    non-digit or string edges".  [run] holds the digits read since the
    last non-digit; the run is complete, and decided on, at the next
    non-digit or at the end of the string. *)
Fixpoint scanRuns (sel : selector) (run : list ascii) (s : list ascii)
  : list ascii :=
  match s with
  | [] => flushRun sel run
  | c :: s' =>
      if isDigit c then scanRuns sel (run ++ [c]) s'
      else flushRun sel run ++ c :: scanRuns sel [] s'
  end.

(** Modelled from the spec: "a contiguous run of 13 to 19 digits ...
    redacted only if it passes the Luhn checksum". *)
Definition isCardLength (n : nat) : bool := (13 <=? n) && (n <=? 19).

Definition cardSel : selector :=
  fun run =>
    if isCardLength (List.length run) && luhnValid run
    then Some REDACTED_CREDIT_CARD else None.

(** Modelled from the spec: "a contiguous run of exactly 9 digits ...
    redacted unconditionally". *)
Definition isSsnLength (n : nat) : bool := n =? 9.

Definition ssnSel : selector :=
  fun run =>
    if isSsnLength (List.length run) then Some REDACTED_SSN else None.

(** Modelled from the spec: passes 2 and 3, on a whole message. *)
Definition redactCards (s : list ascii) : list ascii := scanRuns cardSel [] s.

Definition redactSSN (s : list ascii) : list ascii := scanRuns ssnSel [] s.

(** Modelled from the spec: the passes in their "fixed, non-negotiable
    pass order": emails, cards, nine-digit numbers; "each pass operates
    only on the output of the previous pass". *)
Definition redact (s : list ascii) : list ascii :=
  redactSSN (redactCards (redactEmails s)).

(** Modelled from the spec: the exported [sanitize] of the absent
    [sanitizer.service.js]: the empty string for a value that is not a
    string and for the empty string, the three passes otherwise. *)
Definition sanitize (message : jsValue) : string :=
  match message with
  | JsString s =>
      match s with
      | EmptyString => EmptyString
      | String _ _ => string_of_list_ascii (redact (chars s))
      end
  | _ => EmptyString
  end.

(** *** Vocabulary of the properties *)

(** The digits seen from the left: the head of a string of [p] digits
    has position [p] from the right, and is doubled when [p] is even. *)
Fixpoint luhnSumByPosition (digits : list nat) : nat :=
  match digits with
  | [] => 0
  | d :: rest =>
      (if Nat.even (List.length digits) then luhnDouble d else d)
      + luhnSumByPosition rest
  end.

(** A character an email match can hold. *)
Definition isEmailChar (c : ascii) : bool :=
  isLocalChar c || Ascii.eqb c "@".

(** No suffix of [s] starts with an email match. *)
Fixpoint emailFreeb (s : list ascii) : bool :=
  match s with
  | [] => true
  | _ :: s' =>
      match matchEmailAt s with
      | Some _ => false
      | None => emailFreeb s'
      end
  end.

(** [w] is an email as the spec words it: local characters, ['@'], domain
    characters, a dot, two letters or more. *)
Definition emailPattern (w : list ascii) : Prop :=
  exists l x t,
    w = l ++ "@"%char :: x ++ "."%char :: t /\
    l <> [] /\ forallb isLocalChar l = true /\
    x <> [] /\ forallb isDomainChar x = true /\
    2 <= List.length t /\ forallb isLetter t = true.

Definition containsEmail (s : list ascii) : Prop :=
  exists pre w post, s = pre ++ w ++ post /\ emailPattern w.

Definition endsWithDigit (pre : list ascii) : bool :=
  match rev pre with
  | c :: _ => isDigit c
  | [] => false
  end.

Definition startsWithDigit (post : list ascii) : bool :=
  match post with
  | c :: _ => isDigit c
  | [] => false
  end.

(** [run] is a run of digits of the string [pre ++ run ++ post], bounded
    on each side by a non-digit or by the edge of the string. *)
Definition isRunAt (pre run post : list ascii) : Prop :=
  run <> [] /\ forallb isDigit run = true /\
  endsWithDigit pre = false /\ startsWithDigit post = false.

(** [s] holds a bounded run of digits whose length satisfies [len]. *)
Definition containsRun (len : nat -> bool) (s : list ascii) : Prop :=
  exists pre run post,
    s = pre ++ run ++ post /\ isRunAt pre run post /\
    len (List.length run) = true.

(** [o] starts like [s], up to the end of [s] or to the ['<'] of a
    placeholder. *)
Definition resumes (s o : list ascii) : Prop :=
  o = s \/
  exists w rest o', s = w ++ rest /\ o = w ++ "<"%char :: o'.

(** The closed set of placeholders. *)
Definition placeholders : list (list ascii) :=
  [REDACTED_EMAIL; REDACTED_CREDIT_CARD; REDACTED_SSN].

Definition hasNoDigit (w : list ascii) : bool :=
  forallb (fun c => negb (isDigit c)) w.

(** A pass with [f] followed by a pass with [g], as one pass: a run that
    [f] keeps is decided on by [g]. *)
Definition seqSel (f g : selector) : selector :=
  fun run =>
    match f run with
    | Some placeholder => Some placeholder
    | None => g run
    end.

(** The two digit passes as one pass. *)
Definition digitSel : selector := seqSel cardSel ssnSel.

Definition redactDigits (s : list ascii) : list ascii :=
  redactSSN (redactCards s).

End Sanitizer.

(* ===================================================================== *)
(** ** The orchestrating flow ([secureInquiry.usecase.js]) *)
(* ===================================================================== *)

Module SecureInquiry.

(** [class CircuitOpenError extends Error]: the constructor passes
    ['Service Busy'] to [Error] and sets [name] and [isCircuitOpen]. *)
Record CircuitOpenError : Type := mkCircuitOpenError {
  message : string;
  name : string;
  isCircuitOpen : bool
}.

Definition new_CircuitOpenError : CircuitOpenError :=
  {| message := "Service Busy"%string;
     name := "CircuitOpenError"%string;
     isCircuitOpen := true |}.

(** The object handed to [auditDbPort.saveAudit]. *)
Record auditEntry : Type := mkAuditEntry {
  userId : string;
  timestamp : string;
  originalMessageEncrypted : string;
  sanitizedMessage : string
}.

(** The object [{ answer }] the flow resolves with. *)
Record inquiryResult : Type := mkResult { answer : string }.

(** One entry of the call log: a call on an injected dependency, with its
    argument. *)
Inductive call : Type :=
| CallIsOpen
| CallSanitize (message : string)
| CallGenerateAnswer (sanitizedMessage : string)
| CallRecordSuccess
| CallRecordFailure
| CallEncrypt (text : string)
| CallSaveAudit (entry : auditEntry).

Inductive callKind : Type :=
| KIsOpen | KSanitize | KGenerateAnswer | KRecordSuccess
| KRecordFailure | KEncrypt | KSaveAudit.

Definition kindOf (c : call) : callKind :=
  match c with
  | CallIsOpen => KIsOpen
  | CallSanitize _ => KSanitize
  | CallGenerateAnswer _ => KGenerateAnswer
  | CallRecordSuccess => KRecordSuccess
  | CallRecordFailure => KRecordFailure
  | CallEncrypt _ => KEncrypt
  | CallSaveAudit _ => KSaveAudit
  end.

Definition callKind_eqb (a b : callKind) : bool :=
  match a, b with
  | KIsOpen, KIsOpen | KSanitize, KSanitize
  | KGenerateAnswer, KGenerateAnswer | KRecordSuccess, KRecordSuccess
  | KRecordFailure, KRecordFailure | KEncrypt, KEncrypt
  | KSaveAudit, KSaveAudit => true
  | _, _ => false
  end.

(** How many times a dependency was called, according to the log. *)
Definition timesCalled (k : callKind) (log : list call) : nat :=
  List.length (filter (fun c => callKind_eqb (kindOf c) k) log).

Section Flow.

(** [W]: everything the collaborators can read or change (the gate's
    counter, the audit file, the clock, the network).  [E]: the values the
    collaborators throw or reject with. *)
Variable W : Type.
Variable E : Type.

(** What a [throw] of the flow carries: the flow's own
    [new CircuitOpenError()], or a collaborator's error object, passed on
    as it is. *)
Inductive thrown : Type :=
| ThrowCircuitOpen (e : CircuitOpenError)
| ThrowError (e : E).

Inductive outcome (A : Type) : Type :=
| Returned (a : A)
| Threw (t : thrown).

Arguments Threw {A} t.

(** A computation of the flow: it reads and changes the world and the call
    log, and returns or throws.  The world survives a throw. *)
Definition M (A : Type) : Type :=
  W * list call -> outcome A * (W * list call).

Definition ret {A} (a : A) : M A := fun st => (Returned a, st).

Definition throw {A} (t : thrown) : M A := fun st => (Threw t, st).

Definition bind {A B} (m : M A) (k : A -> M B) : M B :=
  fun st =>
    match m st with
    | (Returned a, st') => k a st'
    | (Threw t, st') => (Threw t, st')
    end.

(** [try { body } catch (error) { handler }] *)
Definition try_catch {A} (body : M A) (handler : thrown -> M A) : M A :=
  fun st =>
    match body st with
    | (Returned a, st') => (Returned a, st')
    | (Threw t, st') => handler t st'
    end.

(** A logged call on a dependency that returns. *)
Definition invoke {A} (c : call) (f : W -> A * W) : M A :=
  fun st =>
    let (a, w') := f (fst st) in (Returned a, (w', snd st ++ [c])).

(** A logged call on a dependency that may fail: a synchronous call that
    may throw, or an [await] on the promise it returns, where a rejection
    is thrown at the [await]. *)
Definition attempt {A} (c : call) (f : W -> (E + A) * W) : M A :=
  fun st =>
    let (r, w') := f (fst st) in
    (match r with
     | inl e => Threw (ThrowError e)
     | inr a => Returned a
     end, (w', snd st ++ [c])).

(** [new Date().toISOString()]: a read of the host clock, not an injected
    dependency and not logged. *)
Definition readClock (clock : W -> string * W) : M string :=
  fun st => let (t, w') := clock (fst st) in (Returned t, (w', snd st)).

(** The [dependencies] object of [createSecureInquiryUseCase]. *)
Record dependencies : Type := mkDependencies {
  sanitizer_sanitize : string -> W -> string * W;
  circuitBreaker_isOpen : W -> bool * W;
  circuitBreaker_recordFailure : W -> unit * W;
  circuitBreaker_recordSuccess : W -> unit * W;
  aiPort_generateAnswer : string -> W -> (E + string) * W;
  auditDbPort_saveAudit : auditEntry -> W -> (E + unit) * W;
  cryptoUtil_encrypt : string -> W -> (E + string) * W
}.

Notation "x <- m ;; k" := (bind m (fun x => k))
  (at level 61, m at next level, right associativity).

Variable deps : dependencies.
Variable clock : W -> string * W.

(** [async function executeSecureInquiry({ userId, message })] *)
Definition executeSecureInquiry (userId message : string) : M inquiryResult :=
  (* Step 1: check the circuit breaker, fail fast if open *)
  open <- invoke CallIsOpen (circuitBreaker_isOpen deps) ;;
  if (open : bool) then throw (ThrowCircuitOpen new_CircuitOpenError) else
  (* Step 2: sanitize the message *)
  sanitizedMessage <-
    invoke (CallSanitize message) (sanitizer_sanitize deps message) ;;
  (* Step 3: call the AI with the sanitized message only *)
  answer <-
    try_catch
      (a <- attempt (CallGenerateAnswer sanitizedMessage)
                    (aiPort_generateAnswer deps sanitizedMessage) ;;
       _ <- invoke CallRecordSuccess (circuitBreaker_recordSuccess deps) ;;
       ret a)
      (fun error =>
         _ <- invoke CallRecordFailure (circuitBreaker_recordFailure deps) ;;
         throw error) ;;
  (* Step 4: audit the request (on success only) *)
  timestamp <- readClock clock ;;
  originalMessageEncrypted <-
    attempt (CallEncrypt message) (cryptoUtil_encrypt deps message) ;;
  let auditEntry :=
    {| userId := userId;
       timestamp := timestamp;
       originalMessageEncrypted := originalMessageEncrypted;
       sanitizedMessage := sanitizedMessage |} in
  _ <- attempt (CallSaveAudit auditEntry)
               (auditDbPort_saveAudit deps auditEntry) ;;
  (* Step 5: return the answer *)
  ret {| answer := answer |}.

(** One request, from world [w] and an empty call log. *)
Definition handle (userId message : string) (w : W)
  : outcome inquiryResult * (W * list call) :=
  executeSecureInquiry userId message (w, []).

End Flow.

Arguments Threw {E A} t.
Arguments Returned {E A} a.
Arguments ThrowCircuitOpen {E} e.
Arguments ThrowError {E} e.

(** *** The wiring of [secureInquiry.route.js]

    The route passes the real [circuitBreaker.service] module as
    [circuitBreaker].  The world is then the gate's counter next to the
    state [X] of the other collaborators, which have no access to the
    counter. *)
Section Wiring.

Variable X : Type.
Variable E : Type.

Definition onGate {A} (f : CircuitBreaker.state -> A * CircuitBreaker.state)
  : CircuitBreaker.state * X -> A * (CircuitBreaker.state * X) :=
  fun w => let (a, g') := f (fst w) in (a, (g', snd w)).

Definition onRest {A} (f : X -> A * X)
  : CircuitBreaker.state * X -> A * (CircuitBreaker.state * X) :=
  fun w => let (a, x') := f (snd w) in (a, (fst w, x')).

(** The dependencies of the route: the gate of [CircuitBreaker], the other
    collaborators taken from [d]. *)
Definition wired (d : dependencies X E)
  : dependencies (CircuitBreaker.state * X) E :=
  {| sanitizer_sanitize := fun m => onRest (sanitizer_sanitize d m);
     circuitBreaker_isOpen := onGate CircuitBreaker.isOpen;
     circuitBreaker_recordFailure := onGate CircuitBreaker.recordFailure;
     circuitBreaker_recordSuccess := onGate CircuitBreaker.recordSuccess;
     aiPort_generateAnswer := fun m => onRest (aiPort_generateAnswer d m);
     auditDbPort_saveAudit := fun e => onRest (auditDbPort_saveAudit d e);
     cryptoUtil_encrypt := fun m => onRest (cryptoUtil_encrypt d m) |}.

End Wiring.

(** *** The mocks of [secureInquiry.usecase.test.js]

    [sanitize] prefixes ['sanitized:'], [encrypt] prefixes ['encrypted:'];
    what [isOpen] answers and how [generateAnswer] and [saveAudit] settle
    is chosen per test. The mocks keep no state. *)
Definition mockDependencies (open : bool) (ai : string + string)
    (audit : string + unit) : dependencies unit string :=
  {| sanitizer_sanitize := fun msg w => (("sanitized:" ++ msg)%string, w);
     circuitBreaker_isOpen := fun w => (open, w);
     circuitBreaker_recordFailure := fun w => (tt, w);
     circuitBreaker_recordSuccess := fun w => (tt, w);
     aiPort_generateAnswer := fun _ w => (ai, w);
     auditDbPort_saveAudit := fun _ w => (audit, w);
     cryptoUtil_encrypt :=
       fun text w => (inr ("encrypted:" ++ text)%string, w) |}.

Definition mockClock (w : unit) : string * unit :=
  ("2026-01-01T00:00:00.000Z"%string, w).

End SecureInquiry.

(* ===================================================================== *)
(** ** The HTTP route ([secureInquiry.route.js]) *)
(* ===================================================================== *)

Module Route.

Import Sanitizer SecureInquiry.

(** JavaScript's white space and line terminators, among the characters
    below 256: tab, line feed, vertical tab, form feed, carriage return,
    space and no-break space. *)
Definition isWhiteSpace (c : ascii) : bool :=
  ((9 <=? code c) && (code c <=? 13)) || (code c =? 32) || (code c =? 160).

(** [String.prototype.trim] *)
Definition trim (s : string) : string :=
  string_of_list_ascii
    (rev (dropWhile isWhiteSpace
            (rev (dropWhile isWhiteSpace (list_ascii_of_string s))))).

(** [!v]: the falsy values. *)
Definition falsy (v : jsValue) : bool :=
  match v with
  | JsUndefined | JsNull => true
  | JsBoolean b => negb b
  | JsNumber n => Z.eqb n 0
  | JsString s => String.eqb s EmptyString
  | JsArray _ | JsObject _ => false
  end.

(** The value bound to [key] in a list of fields; a later binding of a
    key replaces an earlier one. *)
Fixpoint lookupField (fields : list (string * jsValue)) (key : string)
  : option jsValue :=
  match fields with
  | [] => None
  | (k, v) :: rest =>
      match lookupField rest key with
      | Some later => Some later
      | None => if String.eqb k key then Some v else None
      end
  end.

(** [v.key], for the keys [userId] and [message], on a value that is
    neither [null] nor [undefined]: the field of an object, [undefined] on
    everything else. *)
Definition getProp (v : jsValue) (key : string) : jsValue :=
  match v with
  | JsObject fields =>
      match lookupField fields key with
      | Some x => x
      | None => JsUndefined
      end
  | _ => JsUndefined
  end.

(** The result of [validateRequest]: [{ valid: false, error }] or
    [{ valid: true }]. *)
Record validation : Type := mkValidation {
  valid : bool;
  error : option string
}.

Definition invalid (message : string) : validation :=
  {| valid := false; error := Some message |}.

(** [function validateRequest(body)] *)
Definition validateRequest (body : jsValue) : validation :=
  if falsy body then invalid "Request body is required" else
  let userId := getProp body "userId" in
  let message := getProp body "message" in
  match userId with
  | JsUndefined | JsNull => invalid "userId is required"
  | JsString u =>
      if String.eqb (trim u) EmptyString then invalid "userId cannot be empty"
      else
        match message with
        | JsUndefined | JsNull => invalid "message is required"
        | JsString m =>
            if String.eqb (trim m) EmptyString
            then invalid "message cannot be empty"
            else {| valid := true; error := None |}
        | _ => invalid "message must be a string"
        end
  | _ => invalid "userId must be a string"
  end.

(** The messages [validateRequest] can answer with. *)
Definition validationErrors : list string :=
  ["Request body is required"; "userId is required";
   "userId must be a string"; "userId cannot be empty";
   "message is required"; "message must be a string";
   "message cannot be empty"]%string.


(** What [res.status(...).json(...)] sends: [{ answer }] or [{ error }]. *)
Inductive responseBody : Type :=
| AnswerBody (answer : string)
| ErrorBody (error : option string).

Record response : Type := mkResponse {
  status : nat;
  json : responseBody
}.

(** The payload of a string; the handler reads [userId] and [message]
    after the validation, when both are strings. *)
Definition stringOf (v : jsValue) : string :=
  match v with
  | JsString s => s
  | _ => EmptyString
  end.

Section Handler.

Variable W : Type.
Variable E : Type.

(** What the handler reads on a collaborator's error object:
    [error.isCircuitOpen] (its truthiness) and [error.message]. *)
Variable errorIsCircuitOpen : E -> bool.
Variable errorMessage : E -> string.

Variable deps : dependencies W E.
Variable clock : W -> string * W.

(** [error instanceof CircuitOpenError || error.isCircuitOpen] *)
Definition isCircuitOpenError (t : thrown E) : bool :=
  match t with
  | ThrowCircuitOpen e => true
  | ThrowError e => errorIsCircuitOpen e
  end.

(** What one request leaves behind: the response, the line written by
    [console.error] if any, the world and the log of dependency calls. *)
Record handled : Type := mkHandled {
  sent : response;
  consoleError : option string;
  world : W;
  calls : list call
}.

(** [router.post('/secure-inquiry', async (req, res) => ...)], on
    [req.body]. *)
Definition postSecureInquiry (body : jsValue) (w : W) : handled :=
  (* Step 1: validate request *)
  let validation := validateRequest body in
  if negb (valid validation) then
    {| sent := {| status := 400; json := ErrorBody (error validation) |};
       consoleError := None; world := w; calls := [] |}
  else
    let userId := stringOf (getProp body "userId") in
    let message := stringOf (getProp body "message") in
    (* Step 2: call use case *)
    match handle deps clock userId message w with
    | (Returned result, st) =>
        {| sent := {| status := 200; json := AnswerBody (answer result) |};
           consoleError := None; world := fst st; calls := snd st |}
    | (Threw t, st) =>
        (* Step 3: handle errors *)
        if isCircuitOpenError t then
          {| sent := {| status := 503;
                        json := ErrorBody (Some "Service Busy"%string) |};
             consoleError := None; world := fst st; calls := snd st |}
        else
          {| sent := {| status := 500;
                        json := ErrorBody
                                  (Some "Internal server error"%string) |};
             consoleError :=
               match t with
               | ThrowCircuitOpen e => Some (SecureInquiry.message e)
               | ThrowError e => Some (errorMessage e)
               end;
             world := fst st; calls := snd st |}
    end.

(** The requests of a list served one after the other, each on the world
    the one before left: no request arrives while another is in
    flight. *)
Fixpoint serve (bodies : list jsValue) (w : W) : list handled * W :=
  match bodies with
  | [] => ([], w)
  | body :: rest =>
      let h := postSecureInquiry body w in
      let (hs, w') := serve rest (world h) in
      (h :: hs, w')
  end.

End Handler.

End Route.

(* ===================================================================== *)
(** ** The mock generation service ([mockAI.adapter.js]) *)
(* ===================================================================== *)

Module MockAI.

(** [const DEFAULT_RESPONSE = 'Generated Answer';] *)
Definition DEFAULT_RESPONSE : string := "Generated Answer".

(** [function generateAnswer(sanitizedMessage)]: the promise resolves
    with the fixed response, whatever the message; it never rejects.  The
    delay before it resolves is not modelled. *)
Definition generateAnswer {X E : Type} (sanitizedMessage : string) (x : X)
  : (E + string) * X :=
  (inr DEFAULT_RESPONSE, x).

(** [getAIAdapter()] of [ai.factory.js] returns the mock adapter: the
    dependencies [d] with the mock as [aiPort]. *)
Definition withMockAI {X E : Type} (d : SecureInquiry.dependencies X E)
  : SecureInquiry.dependencies X E :=
  {| SecureInquiry.sanitizer_sanitize := SecureInquiry.sanitizer_sanitize d;
     SecureInquiry.circuitBreaker_isOpen :=
       SecureInquiry.circuitBreaker_isOpen d;
     SecureInquiry.circuitBreaker_recordFailure :=
       SecureInquiry.circuitBreaker_recordFailure d;
     SecureInquiry.circuitBreaker_recordSuccess :=
       SecureInquiry.circuitBreaker_recordSuccess d;
     SecureInquiry.aiPort_generateAnswer := generateAnswer;
     SecureInquiry.auditDbPort_saveAudit :=
       SecureInquiry.auditDbPort_saveAudit d;
     SecureInquiry.cryptoUtil_encrypt := SecureInquiry.cryptoUtil_encrypt d |}.

End MockAI.

(* ===================================================================== *)
(** ** The configuration ([config.js]) *)
(* ===================================================================== *)

Module Config.

(** A variable of [process.env] is a string, or [None] when it is not
    set. *)

(** [function getNodeEnv()] *)
Definition getNodeEnv (NODE_ENV : option string) : string :=
  match NODE_ENV with
  | Some v => if String.eqb v EmptyString then "development"%string else v
  | None => "development"%string
  end.

(** [function getEncryptionKey()]; [None] is [undefined]. *)
Definition getEncryptionKey (ENCRYPTION_KEY : option string) : option string :=
  match ENCRYPTION_KEY with
  | Some key => if String.eqb key EmptyString then None else Some key
  | None => None
  end.

End Config.

(* ===================================================================== *)
(** ** The encryption utility ([crypto.util.js])

    The hash, the cipher and the random generator belong to Node's
    [crypto] library; the hash and the cipher are parameters of the
    model, the random generator is a stream of bytes.  Bytes are
    [ascii]. *)
(* ===================================================================== *)

Module CryptoUtil.

Import Sanitizer.

(** [const IV_LENGTH = 16;] *)
Definition IV_LENGTH : nat := 16.

(** *** Hexadecimal strings of buffers *)

Definition hexDigit (n : nat) : ascii :=
  nth n (chars "0123456789abcdef") "0"%char.

(** [buffer.toString('hex')]: two lower-case digits per byte. *)
Definition toHex (buffer : list ascii) : list ascii :=
  flat_map (fun b => [hexDigit (code b / 16); hexDigit (code b mod 16)])
           buffer.

Definition hexValue (c : ascii) : option nat :=
  if (48 <=? code c) && (code c <=? 57) then Some (code c - 48)
  else if (97 <=? code c) && (code c <=? 102) then Some (code c - 87)
  else if (65 <=? code c) && (code c <=? 70) then Some (code c - 55)
  else None.

(** [Buffer.from(s, 'hex')]: one byte per pair of digits, up to the first
    pair that is not made of two hexadecimal digits. *)
Fixpoint fromHex (s : list ascii) : list ascii :=
  match s with
  | a :: b :: rest =>
      match hexValue a, hexValue b with
      | Some x, Some y => ascii_of_nat (16 * x + y) :: fromHex rest
      | _, _ => []
      end
  | _ => []
  end.

(** [s.split(sep)] for a separator of one character. *)
Fixpoint split (sep : ascii) (s : list ascii) : list (list ascii) :=
  match s with
  | [] => [[]]
  | c :: s' =>
      if Ascii.eqb c sep then [] :: split sep s'
      else match split sep s' with
           | part :: parts => (c :: part) :: parts
           | [] => [[c]]
           end
  end.

(** *** The random generator *)

(** The bytes the generator will give, and how many it has given. *)
Record randomSource : Type := mkRandomSource {
  stream : nat -> ascii;
  position : nat
}.

(** [crypto.randomBytes(n)] *)
Definition randomBytes (n : nat) (r : randomSource)
  : list ascii * randomSource :=
  (map (stream r) (seq (position r) n),
   {| stream := stream r; position := position r + n |}).

(** *** Errors *)

(** What the utility throws: an [Error] it makes, with its message, or
    whatever the cipher throws. *)
Inductive thrown (L : Type) : Type :=
| Error (message : string)
| CipherError (e : L).

Arguments Error {L} message.
Arguments CipherError {L} e.

Definition KEY_NOT_SET : string :=
  "ENCRYPTION_KEY environment variable is not set".

Definition INVALID_FORMAT : string := "Invalid encrypted text format".

Section Util.

(** The errors of the cipher. *)
Variable L : Type.

(** [crypto.createHash('sha256').update(keyString).digest()] *)
Variable sha256 : string -> list ascii.

(** [createCipheriv(ALGORITHM, key, iv)], then [update(text, 'utf8')] and
    [final()]: the bytes of the ciphertext. *)
Variable aesEncrypt : list ascii -> list ascii -> string -> list ascii.

(** [createDecipheriv(ALGORITHM, key, iv)], then [update(encrypted, 'hex',
    'utf8')] and [final('utf8')]: the plaintext, or what the cipher
    throws. *)
Variable aesDecrypt : list ascii -> list ascii -> list ascii -> L + string.

(** [config.encryptionKey] *)
Variable encryptionKey : option string.

(** [function getKey()] *)
Definition getKey : thrown L + list ascii :=
  match encryptionKey with
  | None => inl (Error KEY_NOT_SET)
  | Some keyString =>
      if String.eqb keyString EmptyString then inl (Error KEY_NOT_SET)
      else inr (sha256 keyString)
  end.

(** [function encrypt(text)] *)
Definition encrypt (text : jsValue) (r : randomSource)
  : (thrown L + string) * randomSource :=
  match text with
  | JsString t =>
      if String.eqb t EmptyString then (inr EmptyString, r)
      else
        match getKey with
        | inl e => (inl e, r)
        | inr key =>
            let (iv, r') := randomBytes IV_LENGTH r in
            let encrypted := toHex (aesEncrypt key iv t) in
            (inr (string_of_list_ascii (toHex iv ++ ":"%char :: encrypted)),
             r')
        end
  | _ => (inr EmptyString, r)
  end.

(** [function decrypt(encryptedText)] *)
Definition decrypt (encryptedText : jsValue) : thrown L + string :=
  match encryptedText with
  | JsString s =>
      if String.eqb s EmptyString then inr EmptyString
      else
        match split ":" (chars s) with
        | [ivHex; encrypted] =>
            let iv := fromHex ivHex in
            match getKey with
            | inl e => inl e
            | inr key =>
                match aesDecrypt key iv encrypted with
                | inl e => inl (CipherError e)
                | inr decrypted => inr decrypted
                end
            end
        | _ => inl (Error INVALID_FORMAT)
        end
  | _ => inr EmptyString
  end.

End Util.

Arguments getKey {L} sha256 encryptionKey.
Arguments encrypt {L} sha256 aesEncrypt encryptionKey text r.
Arguments decrypt {L} sha256 aesDecrypt encryptionKey encryptedText.

(** A lower-case hexadecimal digit. *)
Definition isLowerHex (c : ascii) : bool :=
  ((48 <=? code c) && (code c <=? 57)) ||
  ((97 <=? code c) && (code c <=? 102)).

(** How many times [sep] occurs in [s]. *)
Definition occurrences (sep : ascii) (s : list ascii) : nat :=
  List.length (filter (fun c => Ascii.eqb c sep) s).

(** A stand-in for the cipher, which keeps the library's contract
    (decryption undoes encryption): the ciphertext is the plaintext. *)
Definition plainEncrypt (key iv : list ascii) (text : string) : list ascii :=
  chars text.

Definition plainDecrypt (key iv : list ascii) (encrypted : list ascii)
  : unit + string :=
  inr (string_of_list_ascii (fromHex encrypted)).

Definition plainHash (keyString : string) : list ascii := chars keyString.

Definition zeros : randomSource :=
  {| stream := fun _ => "000"%char; position := 0 |}.

End CryptoUtil.

(* ===================================================================== *)
(** ** The JSON audit adapter ([jsonAudit.adapter.js])

    The file system and [JSON] belong to the host.  Of the file system the
    model keeps the directory of the audit log and the log file; a switch
    makes its writes fail.  [JSON.parse] and [JSON.stringify] are
    parameters. *)
(* ===================================================================== *)

Module JsonAudit.

Import Sanitizer.

(** What is on the disk at [AUDIT_LOG_PATH]: no directory, or the
    directory with or without the file. *)
Inductive disk : Type :=
| NoDirectory
| Directory (file : option string).

Section Adapter.

(** The errors of the file system. *)
Variable E : Type.

(** [failing = Some e]: [mkdirSync] and [writeFileSync] throw [e]. *)
Record fileSystem : Type := mkFileSystem {
  onDisk : disk;
  failing : option E
}.

(** What the adapter's functions throw. *)
Inductive thrown : Type :=
| ENOENT
| FsError (e : E)
| TypeError.

(** [JSON.parse]; [None] when it throws. *)
Variable JSON_parse : string -> option jsValue.

(** [JSON.stringify(value, null, 2)] *)
Variable JSON_stringify : jsValue -> string.

(** [fs.mkdirSync(dir, { recursive: true })] *)
Definition mkdirSync (fs : fileSystem) : (thrown + unit) * fileSystem :=
  match failing fs with
  | Some e => (inl (FsError e), fs)
  | None =>
      (inr tt,
       {| onDisk := match onDisk fs with
                    | NoDirectory => Directory None
                    | Directory file => Directory file
                    end;
          failing := None |})
  end.

(** [fs.writeFileSync(AUDIT_LOG_PATH, content, 'utf8')] *)
Definition writeFileSync (content : string) (fs : fileSystem)
  : (thrown + unit) * fileSystem :=
  match failing fs with
  | Some e => (inl (FsError e), fs)
  | None =>
      match onDisk fs with
      | NoDirectory => (inl ENOENT, fs)
      | Directory _ =>
          (inr tt, {| onDisk := Directory (Some content); failing := None |})
      end
  end.

(** [fs.readFileSync(AUDIT_LOG_PATH, 'utf8')] *)
Definition readFileSync (fs : fileSystem) : thrown + string :=
  match onDisk fs with
  | Directory (Some content) => inr content
  | _ => inl ENOENT
  end.

Definition dirExists (fs : fileSystem) : bool :=
  match onDisk fs with NoDirectory => false | Directory _ => true end.

Definition fileExists (fs : fileSystem) : bool :=
  match onDisk fs with Directory (Some _) => true | _ => false end.

(** [function ensureFileExists()] *)
Definition ensureFileExists (fs : fileSystem) : (thrown + unit) * fileSystem :=
  (* create the directory if it does not exist *)
  let afterDir :=
    if negb (dirExists fs) then mkdirSync fs else (inr tt, fs) in
  match afterDir with
  | (inl e, fs1) => (inl e, fs1)
  | (inr _, fs1) =>
      (* create the file with an empty array if it does not exist *)
      if negb (fileExists fs1) then writeFileSync "[]" fs1
      else (inr tt, fs1)
  end.

(** [function readAuditLog()] *)
Definition readAuditLog (fs : fileSystem) : (thrown + jsValue) * fileSystem :=
  match ensureFileExists fs with
  | (inl e, fs1) => (inl e, fs1)
  | (inr _, fs1) =>
      match readFileSync fs1 with
      | inl e => (inl e, fs1)
      | inr content =>
          match JSON_parse content with
          | Some parsed => (inr parsed, fs1)
          | None => (inr (JsArray []), fs1)   (* corrupted: start fresh *)
          end
      end
  end.

(** [function writeAuditLog(entries)] *)
Definition writeAuditLog (entries : jsValue) (fs : fileSystem)
  : (thrown + unit) * fileSystem :=
  writeFileSync (JSON_stringify entries) fs.

(** [entries.push(entry)]: on an array; a [TypeError] on anything
    else. *)
Definition push (entries entry : jsValue) : thrown + jsValue :=
  match entries with
  | JsArray items => inr (JsArray (items ++ [entry]))
  | _ => inl TypeError
  end.

(** [function saveAudit(entry)]: the promise resolves ([inr]) or rejects
    with what was thrown ([inl]). *)
Definition saveAudit (entry : jsValue) (fs : fileSystem)
  : (thrown + unit) * fileSystem :=
  match readAuditLog fs with
  | (inl e, fs1) => (inl e, fs1)
  | (inr entries, fs1) =>
      match push entries entry with
      | inl e => (inl e, fs1)
      | inr entries' => writeAuditLog entries' fs1
      end
  end.

(** The entries of a list saved one after the other; the saving stops at
    the first rejection. *)
Fixpoint saveAll (entries : list jsValue) (fs : fileSystem)
  : (thrown + unit) * fileSystem :=
  match entries with
  | [] => (inr tt, fs)
  | entry :: rest =>
      match saveAudit entry fs with
      | (inl e, fs1) => (inl e, fs1)
      | (inr _, fs1) => saveAll rest fs1
      end
  end.

End Adapter.

Arguments ENOENT {E}.
Arguments TypeError {E}.
Arguments FsError {E} e.

(** The audit entry of the use case as a value: an object with its four
    fields, in the order of the object literal. *)
Definition entryValue (e : SecureInquiry.auditEntry) : jsValue :=
  JsObject
    [("userId"%string, JsString (SecureInquiry.userId e));
     ("timestamp"%string, JsString (SecureInquiry.timestamp e));
     ("originalMessageEncrypted"%string,
      JsString (SecureInquiry.originalMessageEncrypted e));
     ("sanitizedMessage"%string,
      JsString (SecureInquiry.sanitizedMessage e))].

(** The entry of the adapter's test-suite. *)
Definition mockEntry : jsValue :=
  entryValue
    {| SecureInquiry.userId := "user-123";
       SecureInquiry.timestamp := "2026-01-31T12:00:00.000Z";
       SecureInquiry.originalMessageEncrypted := "encrypted-message";
       SecureInquiry.sanitizedMessage :=
         "Hello, my name is <REDACTED: EMAIL>" |}.

(** A stand-in for [JSON], for arrays that hold copies of one value [v]:
    the text is a bracket pair around one mark per element. *)
Definition tallyStringify (value : jsValue) : string :=
  match value with
  | JsArray items =>
      string_of_list_ascii
        ("["%char :: repeat "*"%char (List.length items) ++ ["]"%char])
  | _ => "null"%string
  end.

Definition tallyParse (v : jsValue) (text : string) : option jsValue :=
  match list_ascii_of_string text with
  | c :: rest =>
      if Ascii.eqb c "["
      then Some (JsArray (repeat v (List.length rest - 1)))
      else None
  | [] => None
  end.

End JsonAudit.

(* ===================================================================== *)
(** ** The dependencies of the route ([secureInquiry.route.js])

    [createSecureInquiryUseCase({ sanitizer, circuitBreaker, aiPort:
    getAIAdapter(), auditDbPort: getAuditDbAdapter(), cryptoUtil })]: the
    real gate, the mock generation service, the JSON audit adapter and the
    encryption utility.  The sanitizer is a function from strings to
    strings. *)
(* ===================================================================== *)

Module Wiring.

Import Sanitizer SecureInquiry.

Section System.

Variable L : Type.
Variable F : Type.
Variable C : Type.
Variable sha256 : string -> list ascii.
Variable aesEncrypt : list ascii -> list ascii -> string -> list ascii.
Variable encryptionKey : option string.
Variable JSON_parse : string -> option jsValue.
Variable JSON_stringify : jsValue -> string.
Variable sanitize : string -> string.

(** The host clock: the timestamp it gives and its next state. *)
Variable tick : C -> string * C.

(** What the collaborators of the route read and change, the gate's
    counter apart. *)
Record host : Type := mkHost {
  clockState : C;
  random : CryptoUtil.randomSource;
  files : JsonAudit.fileSystem F
}.

(** What the collaborators of the route throw. *)
Inductive failure : Type :=
| CryptoFailure (e : CryptoUtil.thrown L)
| AuditFailure (e : JsonAudit.thrown F).

Definition encryptOnHost (text : string) (x : host)
  : (failure + string) * host :=
  let (result, r') :=
    CryptoUtil.encrypt sha256 aesEncrypt encryptionKey (JsString text)
      (random x) in
  (match result with
   | inl e => inl (CryptoFailure e)
   | inr encrypted => inr encrypted
   end,
   {| clockState := clockState x; random := r'; files := files x |}).

Definition saveAuditOnHost (entry : auditEntry) (x : host)
  : (failure + unit) * host :=
  let (result, fs') :=
    JsonAudit.saveAudit JSON_parse JSON_stringify
      (JsonAudit.entryValue entry) (files x) in
  (match result with
   | inl e => inl (AuditFailure e)
   | inr u => inr u
   end,
   {| clockState := clockState x; random := random x; files := fs' |}).

Definition clockOnHost (x : host) : string * host :=
  let (timestamp, c') := tick (clockState x) in
  (timestamp, {| clockState := c'; random := random x; files := files x |}).

(** The collaborators other than the gate; the three gate fields are
    stand-ins, which [wired] replaces by the real gate. *)
Definition collaborators : dependencies host failure :=
  {| sanitizer_sanitize := fun message x => (sanitize message, x);
     circuitBreaker_isOpen := fun x => (false, x);
     circuitBreaker_recordFailure := fun x => (tt, x);
     circuitBreaker_recordSuccess := fun x => (tt, x);
     aiPort_generateAnswer := MockAI.generateAnswer;
     auditDbPort_saveAudit := saveAuditOnHost;
     cryptoUtil_encrypt := encryptOnHost |}.

(** The errors of the collaborators are [Error] objects without an
    [isCircuitOpen] property. *)
Definition errorIsCircuitOpen (e : failure) : bool := false.

Variable errorMessage : failure -> string.

(** The route's handler on its own dependencies. *)
Definition post (body : jsValue) (w : CircuitBreaker.state * host)
  : Route.handled (CircuitBreaker.state * host) :=
  Route.postSecureInquiry errorIsCircuitOpen errorMessage
    (wired collaborators) (onRest clockOnHost) body w.

End System.

Arguments CryptoFailure {L F} e.
Arguments AuditFailure {L F} e.
Arguments collaborators {L F C} sha256 aesEncrypt encryptionKey JSON_parse
  JSON_stringify sanitize.

End Wiring.

(* ===================================================================== *)
(** ** The flow and the handler when every collaborator may throw

    [executeSecureInquiry] takes its collaborators from the [dependencies]
    object and the handler catches whatever value they throw.  Here every
    collaborator may throw, the gate and the sanitizer included, and the
    thrown value may be one on which reading a property throws in turn
    ([null], [undefined]). *)
(* ===================================================================== *)

Module Fallible.

Import Sanitizer SecureInquiry.

Section Flow.

Variable W : Type.
Variable E : Type.

(** The [dependencies] object of [createSecureInquiryUseCase]: every
    method returns, or throws (or rejects with) a value of [E]. *)
Record dependencies : Type := mkDependencies {
  sanitizer_sanitize : string -> W -> (E + string) * W;
  circuitBreaker_isOpen : W -> (E + bool) * W;
  circuitBreaker_recordFailure : W -> (E + unit) * W;
  circuitBreaker_recordSuccess : W -> (E + unit) * W;
  aiPort_generateAnswer : string -> W -> (E + string) * W;
  auditDbPort_saveAudit : auditEntry -> W -> (E + unit) * W;
  cryptoUtil_encrypt : string -> W -> (E + string) * W
}.

Notation "x <- m ;; k" := (bind m (fun x => k))
  (at level 61, m at next level, right associativity).

Variable deps : dependencies.
Variable clock : W -> string * W.

(** [async function executeSecureInquiry({ userId, message })] *)
Definition executeSecureInquiry (userId message : string)
  : M W E inquiryResult :=
  (* Step 1: check the circuit breaker, fail fast if open *)
  open <- attempt CallIsOpen (circuitBreaker_isOpen deps) ;;
  if (open : bool) then throw (ThrowCircuitOpen new_CircuitOpenError) else
  (* Step 2: sanitize the message *)
  sanitizedMessage <-
    attempt (CallSanitize message) (sanitizer_sanitize deps message) ;;
  (* Step 3: call the AI with the sanitized message only *)
  answer <-
    try_catch
      (a <- attempt (CallGenerateAnswer sanitizedMessage)
                    (aiPort_generateAnswer deps sanitizedMessage) ;;
       _ <- attempt CallRecordSuccess (circuitBreaker_recordSuccess deps) ;;
       ret E a)
      (fun error =>
         _ <- attempt CallRecordFailure (circuitBreaker_recordFailure deps) ;;
         throw error) ;;
  (* Step 4: audit the request (on success only) *)
  timestamp <- readClock E clock ;;
  originalMessageEncrypted <-
    attempt (CallEncrypt message) (cryptoUtil_encrypt deps message) ;;
  let auditEntry :=
    {| userId := userId;
       timestamp := timestamp;
       originalMessageEncrypted := originalMessageEncrypted;
       sanitizedMessage := sanitizedMessage |} in
  _ <- attempt (CallSaveAudit auditEntry)
               (auditDbPort_saveAudit deps auditEntry) ;;
  (* Step 5: return the answer *)
  ret E {| answer := answer |}.

(** One request, from world [w] and an empty call log. *)
Definition handle (userId message : string) (w : W)
  : outcome E inquiryResult * (W * list call) :=
  executeSecureInquiry userId message (w, []).

End Flow.

(** A call that returns, as a call that may throw. *)
Definition returning {W E A : Type} (f : W -> A * W) (w : W) : (E + A) * W :=
  let (a, w') := f w in (inr a, w').

(** Dependencies whose gate and sanitizer return, among the dependencies
    that may throw. *)
Definition lift {W E : Type} (d : SecureInquiry.dependencies W E)
  : dependencies W E :=
  {| sanitizer_sanitize :=
       fun m => returning (SecureInquiry.sanitizer_sanitize d m);
     circuitBreaker_isOpen :=
       returning (SecureInquiry.circuitBreaker_isOpen d);
     circuitBreaker_recordFailure :=
       returning (SecureInquiry.circuitBreaker_recordFailure d);
     circuitBreaker_recordSuccess :=
       returning (SecureInquiry.circuitBreaker_recordSuccess d);
     aiPort_generateAnswer := SecureInquiry.aiPort_generateAnswer d;
     auditDbPort_saveAudit := SecureInquiry.auditDbPort_saveAudit d;
     cryptoUtil_encrypt := SecureInquiry.cryptoUtil_encrypt d |}.

Section Handler.

Import Route.

Variable W : Type.
Variable E : Type.

(** What the handler reads on the value it caught: the truthiness of
    [error.isCircuitOpen] (also true for an instance of
    [CircuitOpenError]) and [error.message] as [console.error] prints it.
    [None]: the read throws, as every property read does on [null] and on
    [undefined]. *)
Variable errorIsCircuitOpen : E -> option bool.
Variable errorMessage : E -> option string.

Variable deps : dependencies W E.
Variable clock : W -> string * W.

(** [error instanceof CircuitOpenError || error.isCircuitOpen]; the
    property is not read on an instance of the class. *)
Definition isCircuitOpenError (t : thrown E) : option bool :=
  match t with
  | ThrowCircuitOpen e => Some true
  | ThrowError e => errorIsCircuitOpen e
  end.

(** [error.message] *)
Definition messageOf (t : thrown E) : option string :=
  match t with
  | ThrowCircuitOpen e => Some (SecureInquiry.message e)
  | ThrowError e => errorMessage e
  end.

(** What one request leaves behind: the response if the handler sent one,
    the line written by [console.error] if any, the world and the log of
    dependency calls. *)
Record handled : Type := mkHandled {
  sent : option response;
  consoleError : option string;
  world : W;
  calls : list call
}.

(** [router.post('/secure-inquiry', async (req, res) => ...)], on
    [req.body].  When a read in the [catch] block throws, the handler's
    promise rejects and the handler has sent nothing. *)
Definition postSecureInquiry (body : jsValue) (w : W) : handled :=
  (* Step 1: validate request *)
  let validation := validateRequest body in
  if negb (valid validation) then
    {| sent := Some {| status := 400; json := ErrorBody (error validation) |};
       consoleError := None; world := w; calls := [] |}
  else
    let userId := stringOf (getProp body "userId") in
    let message := stringOf (getProp body "message") in
    (* Step 2: call use case *)
    match handle deps clock userId message w with
    | (Returned result, st) =>
        {| sent := Some {| status := 200;
                           json := AnswerBody (answer result) |};
           consoleError := None; world := fst st; calls := snd st |}
    | (Threw t, st) =>
        (* Step 3: handle errors *)
        match isCircuitOpenError t with
        | None =>
            {| sent := None; consoleError := None;
               world := fst st; calls := snd st |}
        | Some true =>
            {| sent := Some {| status := 503;
                               json := ErrorBody
                                         (Some "Service Busy"%string) |};
               consoleError := None; world := fst st; calls := snd st |}
        | Some false =>
            match messageOf t with
            | None =>
                {| sent := None; consoleError := None;
                   world := fst st; calls := snd st |}
            | Some line =>
                {| sent := Some {| status := 500;
                                   json := ErrorBody
                                     (Some "Internal server error"%string) |};
                   consoleError := Some line;
                   world := fst st; calls := snd st |}
            end
        end
    end.

End Handler.

(** A thrown value that is [undefined] ([None]), as [reject()] without an
    argument gives, or [new Error(message)].  Reading a property of
    [undefined] throws; an [Error] has a [message] and no
    [isCircuitOpen]. *)
Definition readIsCircuitOpen (e : option string) : option bool :=
  match e with
  | None => None
  | Some _ => Some false
  end.

Definition readMessage (e : option string) : option string := e.

(** Collaborators without state, whose generation service rejects with
    [undefined]. *)
Definition rejectingWithUndefined
  : SecureInquiry.dependencies unit (option string) :=
  {| SecureInquiry.sanitizer_sanitize := fun msg w => (msg, w);
     SecureInquiry.circuitBreaker_isOpen := fun w => (false, w);
     SecureInquiry.circuitBreaker_recordFailure := fun w => (tt, w);
     SecureInquiry.circuitBreaker_recordSuccess := fun w => (tt, w);
     SecureInquiry.aiPort_generateAnswer := fun _ w => (inl None, w);
     SecureInquiry.auditDbPort_saveAudit := fun _ w => (inr tt, w);
     SecureInquiry.cryptoUtil_encrypt := fun text w => (inr text, w) |}.

End Fallible.

(* ===================================================================== *)
(** ** The request body with its strings as JavaScript has them

    [String.prototype.trim] works on the UTF-16 code units of a string and
    strips the white space and the line terminators of the language, of
    which seven only are below 256.  Here a string is its sequence of code
    units, and [validateRequest] is read on bodies with such strings. *)
(* ===================================================================== *)

Module Utf16.

Import Sanitizer.

(** A string: its UTF-16 code units. *)
Definition codeUnits : Type := list N.

(** The code units of a string whose characters are all below 256. *)
Definition unitsOf (s : string) : codeUnits :=
  map (fun c => N.of_nat (code c)) (chars s).

Unset Elimination Schemes.
Inductive value : Type :=
| VUndefined
| VNull
| VBoolean (b : bool)
| VNumber (n : Z)
| VString (s : codeUnits)
| VArray (items : list value)
| VObject (fields : list (codeUnits * value)).
Set Elimination Schemes.

(** A value whose strings hold characters below 256 only, with its strings
    as code units. *)
Fixpoint ofLatin1 (v : jsValue) : value :=
  match v with
  | JsUndefined => VUndefined
  | JsNull => VNull
  | JsBoolean b => VBoolean b
  | JsNumber n => VNumber n
  | JsString s => VString (unitsOf s)
  | JsArray items => VArray (map ofLatin1 items)
  | JsObject fields =>
      VObject (map (fun kv => (unitsOf (fst kv), ofLatin1 (snd kv))) fields)
  end.

(** The language's [WhiteSpace] and [LineTerminator] code points: tab,
    line feed, vertical tab, form feed, carriage return, space, no-break
    space, U+1680, U+2000 to U+200A, U+2028, U+2029, U+202F, U+205F,
    U+3000 and U+FEFF. *)
Definition isWhiteSpace (c : N) : bool :=
  (((9 <=? c) && (c <=? 13)) || (c =? 32) || (c =? 160) || (c =? 5760)
   || ((8192 <=? c) && (c <=? 8202)) || (c =? 8232) || (c =? 8233)
   || (c =? 8239) || (c =? 8287) || (c =? 12288) || (c =? 65279))%N.

Fixpoint dropWhile (p : N -> bool) (s : codeUnits) : codeUnits :=
  match s with
  | [] => []
  | c :: s' => if p c then dropWhile p s' else s
  end.

(** [String.prototype.trim] *)
Definition trim (s : codeUnits) : codeUnits :=
  rev (dropWhile isWhiteSpace (rev (dropWhile isWhiteSpace s))).

Fixpoint sameUnits (a b : codeUnits) : bool :=
  match a, b with
  | [], [] => true
  | x :: a', y :: b' => (x =? y)%N && sameUnits a' b'
  | _, _ => false
  end.

(** [!v]: the falsy values. *)
Definition falsy (v : value) : bool :=
  match v with
  | VUndefined | VNull => true
  | VBoolean b => negb b
  | VNumber n => Z.eqb n 0
  | VString s => match s with [] => true | _ => false end
  | VArray _ | VObject _ => false
  end.

(** The value bound to [key] in a list of fields; a later binding of a
    key replaces an earlier one. *)
Fixpoint lookupField (fields : list (codeUnits * value)) (key : codeUnits)
  : option value :=
  match fields with
  | [] => None
  | (k, v) :: rest =>
      match lookupField rest key with
      | Some later => Some later
      | None => if sameUnits k key then Some v else None
      end
  end.

(** [v.key], for the keys [userId] and [message], on a value that is
    neither [null] nor [undefined]: the field of an object, [undefined] on
    everything else. *)
Definition getProp (v : value) (key : string) : value :=
  match v with
  | VObject fields =>
      match lookupField fields (unitsOf key) with
      | Some x => x
      | None => VUndefined
      end
  | _ => VUndefined
  end.

(** [function validateRequest(body)] *)
Definition validateRequest (body : value) : Route.validation :=
  if falsy body then Route.invalid "Request body is required" else
  let userId := getProp body "userId" in
  let message := getProp body "message" in
  match userId with
  | VUndefined | VNull => Route.invalid "userId is required"
  | VString u =>
      match trim u with
      | [] => Route.invalid "userId cannot be empty"
      | _ :: _ =>
          match message with
          | VUndefined | VNull => Route.invalid "message is required"
          | VString m =>
              match trim m with
              | [] => Route.invalid "message cannot be empty"
              | _ :: _ => {| Route.valid := true; Route.error := None |}
              end
          | _ => Route.invalid "message must be a string"
          end
      end
  | _ => Route.invalid "userId must be a string"
  end.

(** The code points [trim] strips, one by one. *)
Definition whiteSpaceCodes : list N :=
  [9; 10; 11; 12; 13; 32; 160; 5760;
   8192; 8193; 8194; 8195; 8196; 8197; 8198; 8199; 8200; 8201; 8202;
   8232; 8233; 8239; 8287; 12288; 65279]%N.

(** [fields] binds [key] to [v], and no later field has that key. *)
Definition hasField (fields : list (codeUnits * value)) (key : codeUnits)
    (v : value) : Prop :=
  exists before after,
    fields = before ++ (key, v) :: after /\ ~ In key (map fst after).

End Utf16.

(* ===================================================================== *)
(** ** The JSON audit adapter on a file system whose calls fail one by one

    [mkdirSync], [writeFileSync] and [readFileSync] each throw or succeed
    on their own, and a write that throws may have emptied the file and
    written a part of the content before it threw. *)
(* ===================================================================== *)

Module AuditFaults.

Import Sanitizer.

Section Adapter.

(** The errors of the file system. *)
Variable E : Type.

(** What becomes of one call on [fs]: it succeeds, or it throws [e].  A
    write that throws has not opened the file ([written = None]), or has
    opened it, which creates or empties it, and has written the first [n]
    characters of the content ([written = Some n]). *)
Inductive fate : Type :=
| Succeeds
| Throws (e : E) (written : option nat).

(** The disk, and what becomes of the calls to come on [mkdirSync],
    [writeFileSync] and [readFileSync], in the order they are made; the
    calls beyond the list succeed. *)
Record fileSystem : Type := mkFileSystem {
  onDisk : JsonAudit.disk;
  fates : list fate
}.

Definition nextFate (fs : fileSystem) : fate :=
  match fates fs with
  | [] => Succeeds
  | f :: _ => f
  end.

Definition prefix (n : nat) (content : string) : string :=
  string_of_list_ascii (firstn n (list_ascii_of_string content)).

(** [JSON.parse]; [None] when it throws. *)
Variable JSON_parse : string -> option jsValue.

(** [JSON.stringify(value, null, 2)] *)
Variable JSON_stringify : jsValue -> string.

(** [fs.mkdirSync(dir, { recursive: true })] *)
Definition mkdirSync (fs : fileSystem)
  : (JsonAudit.thrown E + unit) * fileSystem :=
  match nextFate fs with
  | Succeeds =>
      (inr tt,
       {| onDisk := match onDisk fs with
                    | JsonAudit.NoDirectory => JsonAudit.Directory None
                    | JsonAudit.Directory file => JsonAudit.Directory file
                    end;
          fates := tl (fates fs) |})
  | Throws e _ =>
      (inl (JsonAudit.FsError e),
       {| onDisk := onDisk fs; fates := tl (fates fs) |})
  end.

(** [fs.writeFileSync(AUDIT_LOG_PATH, content, 'utf8')] *)
Definition writeFileSync (content : string) (fs : fileSystem)
  : (JsonAudit.thrown E + unit) * fileSystem :=
  match nextFate fs, onDisk fs with
  | Succeeds, JsonAudit.NoDirectory =>
      (inl JsonAudit.ENOENT,
       {| onDisk := onDisk fs; fates := tl (fates fs) |})
  | Succeeds, JsonAudit.Directory _ =>
      (inr tt,
       {| onDisk := JsonAudit.Directory (Some content);
          fates := tl (fates fs) |})
  | Throws e (Some n), JsonAudit.Directory _ =>
      (inl (JsonAudit.FsError e),
       {| onDisk := JsonAudit.Directory (Some (prefix n content));
          fates := tl (fates fs) |})
  | Throws e _, _ =>
      (inl (JsonAudit.FsError e),
       {| onDisk := onDisk fs; fates := tl (fates fs) |})
  end.

(** [fs.readFileSync(AUDIT_LOG_PATH, 'utf8')] *)
Definition readFileSync (fs : fileSystem)
  : (JsonAudit.thrown E + string) * fileSystem :=
  (match nextFate fs, onDisk fs with
   | Succeeds, JsonAudit.Directory (Some content) => inr content
   | Succeeds, _ => inl JsonAudit.ENOENT
   | Throws e _, _ => inl (JsonAudit.FsError e)
   end,
   {| onDisk := onDisk fs; fates := tl (fates fs) |}).

(** [fs.existsSync(dir)] and [fs.existsSync(AUDIT_LOG_PATH)] *)
Definition dirExists (fs : fileSystem) : bool :=
  match onDisk fs with
  | JsonAudit.NoDirectory => false
  | JsonAudit.Directory _ => true
  end.

Definition fileExists (fs : fileSystem) : bool :=
  match onDisk fs with
  | JsonAudit.Directory (Some _) => true
  | _ => false
  end.

(** [function ensureFileExists()] *)
Definition ensureFileExists (fs : fileSystem)
  : (JsonAudit.thrown E + unit) * fileSystem :=
  (* create the directory if it does not exist *)
  let afterDir :=
    if negb (dirExists fs) then mkdirSync fs else (inr tt, fs) in
  match afterDir with
  | (inl e, fs1) => (inl e, fs1)
  | (inr _, fs1) =>
      (* create the file with an empty array if it does not exist *)
      if negb (fileExists fs1) then writeFileSync "[]" fs1
      else (inr tt, fs1)
  end.

(** [function readAuditLog()] *)
Definition readAuditLog (fs : fileSystem)
  : (JsonAudit.thrown E + jsValue) * fileSystem :=
  match ensureFileExists fs with
  | (inl e, fs1) => (inl e, fs1)
  | (inr _, fs1) =>
      match readFileSync fs1 with
      | (inl e, fs2) => (inl e, fs2)
      | (inr content, fs2) =>
          match JSON_parse content with
          | Some parsed => (inr parsed, fs2)
          | None => (inr (JsArray []), fs2)   (* corrupted: start fresh *)
          end
      end
  end.

(** [function writeAuditLog(entries)] *)
Definition writeAuditLog (entries : jsValue) (fs : fileSystem)
  : (JsonAudit.thrown E + unit) * fileSystem :=
  writeFileSync (JSON_stringify entries) fs.

(** [function saveAudit(entry)]: the promise resolves ([inr]) or rejects
    with what was thrown ([inl]). *)
Definition saveAudit (entry : jsValue) (fs : fileSystem)
  : (JsonAudit.thrown E + unit) * fileSystem :=
  match readAuditLog fs with
  | (inl e, fs1) => (inl e, fs1)
  | (inr entries, fs1) =>
      match JsonAudit.push E entries entry with
      | inl e => (inl e, fs1)
      | inr entries' => writeAuditLog entries' fs1
      end
  end.

(** What [readAuditLog] returns on a disk when no call fails: the parsed
    log, and the empty array for a log that is missing or does not
    parse. *)
Definition logOf (d : JsonAudit.disk) : jsValue :=
  match d with
  | JsonAudit.Directory (Some content) =>
      match JSON_parse content with
      | Some parsed => parsed
      | None => JsArray []
      end
  | _ => JsArray []
  end.

End Adapter.

Arguments Succeeds {E}.
Arguments Throws {E} e written.

End AuditFaults.

(* ===================================================================== *)
(** ** Vocabulary of the further properties *)
(* ===================================================================== *)

Module GateOps.

Import CircuitBreaker.

(** The operation that records a failure. *)
Definition isFailureOp (o : op) : bool :=
  match o with OpRecordFailure => true | _ => false end.

(** The operations that clear the counter. *)
Definition isClearingOp (o : op) : bool :=
  match o with OpRecordSuccess | OpReset => true | _ => false end.

End GateOps.

(* ===================================================================== *)
(** ** Properties of the failure gate *)
(* ===================================================================== *)

Section GateProperties.

Import CircuitBreaker.
Local Open Scope Z_scope.

Lemma failures_count (n : nat) (s : state) :
  failureCount (failures n s) = failureCount s + Z.of_nat n.
Proof.
  revert s; induction n as [|n IH]; intros s.
  - simpl. lia.
  - cbn [failures]. rewrite IH. cbn. lia.
Qed.

Lemma isOpen_spec (s : state) :
  fst (isOpen s) = (3 <=? failureCount s).
Proof.
  unfold isOpen, FAILURE_THRESHOLD. cbn [fst].
  rewrite Z.geb_leb. reflexivity.
Qed.

(** C1. The gate is open exactly when the counter is at least 3;
    [isOpen] leaves the state alone; [recordFailure] adds exactly one
    (also past 3, where the gate stays open).  A fresh gate is closed, it
    is closed after one and two failures and open after the third;
    [recordSuccess] and [reset] close it with a count of 0; a success
    followed by two failures leaves it closed. *)
Theorem C1_gate_state_machine :
  (forall s, fst (isOpen s) = true <-> 3 <= failureCount s) /\
  (forall s, snd (isOpen s) = s) /\
  (forall s, failureCount (snd (recordFailure s)) = failureCount s + 1) /\
  (forall (n : nat) s,
      failureCount (failures n s) = failureCount s + Z.of_nat n) /\
  (forall n : nat, fst (isOpen (failures (3 + n) initial)) = true) /\
  fst (isOpen initial) = false /\
  fst (isOpen (failures 1 initial)) = false /\
  fst (isOpen (failures 2 initial)) = false /\
  fst (isOpen (failures 3 initial)) = true /\
  (forall s, fst (isOpen (snd (recordSuccess s))) = false /\
             fst (getFailureCount (snd (recordSuccess s))) = 0) /\
  (forall s, fst (isOpen (snd (reset s))) = false /\
             fst (getFailureCount (snd (reset s))) = 0) /\
  (forall s, fst (isOpen (failures 2 (snd (recordSuccess s)))) = false) /\
  (forall s, fst (isOpen (failures 3 (snd (recordSuccess s)))) = true).
Proof.
  repeat apply conj;
    try (intros; reflexivity); try (intros; split; reflexivity).
  - intros s. rewrite isOpen_spec. apply Z.leb_le.
  - intros n s. apply failures_count.
  - intros n. rewrite isOpen_spec, failures_count. apply Z.leb_le. cbn. lia.
Qed.

(** C6. Along every sequence of gate operations from the initial state
    the counter is a non-negative integer; one operation either adds one
    ([recordFailure]), sets the counter to 0 ([recordSuccess], [reset]) or
    leaves it alone (the two queries); so a step that lowers the counter
    is a [recordSuccess] or a [reset], and it lands on 0. *)
Theorem C6_counter_invariant :
  (forall ops, 0 <= failureCount (run ops initial)) /\
  (forall o s,
      match o with
      | OpRecordFailure => failureCount (step o s) = failureCount s + 1
      | OpRecordSuccess | OpReset => failureCount (step o s) = 0
      | OpIsOpen | OpGetFailureCount => step o s = s
      end) /\
  (forall o s,
      0 <= failureCount s ->
      0 <= failureCount (step o s) /\
      (failureCount (step o s) < failureCount s ->
       (o = OpRecordSuccess \/ o = OpReset) /\ failureCount (step o s) = 0)).
Proof.
  assert (Hstep : forall o s, 0 <= failureCount s ->
                              0 <= failureCount (step o s)).
  { intros [] s Hs; cbn; lia. }
  split; [|split].
  - intros ops.
    assert (Hgen : forall s, 0 <= failureCount s ->
                             0 <= failureCount (run ops s)).
    { induction ops as [|o ops IH]; intros s Hs; cbn [run].
      - exact Hs.
      - apply IH, Hstep, Hs. }
    apply Hgen. cbn. lia.
  - intros [] s; reflexivity.
  - intros o s Hs. split; [apply Hstep, Hs|].
    destruct o; cbn; intros Hlt; try lia; auto.
Qed.

(** The invariant of C6 at a concrete step: a [reset] after two
    failures lowers the counter, from 2 to 0. *)
Lemma C6_counter_invariant_witness :
  0 <= failureCount (failures 2 initial) /\
  failureCount (step OpReset (failures 2 initial))
  < failureCount (failures 2 initial) /\
  0 <= failureCount (step OpReset (failures 2 initial)) /\
  failureCount (step OpReset (failures 2 initial)) = 0.
Proof.
  assert (H0 : 0 <= failureCount (failures 2 initial)) by (cbn; lia).
  assert (Hlt : failureCount (step OpReset (failures 2 initial))
                < failureCount (failures 2 initial)) by (cbn; lia).
  destruct (proj2 (proj2 C6_counter_invariant) OpReset (failures 2 initial) H0)
    as [Hnn Hlow].
  exact (conj H0 (conj Hlt (conj Hnn (proj2 (Hlow Hlt))))).
Defined.

(** C7. [reset] and [recordSuccess] are the same state transformer: from
    every counter value both leave the counter at 0 and the gate closed. *)
Theorem C7_reset_is_recordSuccess :
  forall s,
    reset s = recordSuccess s /\
    failureCount (snd (reset s)) = 0 /\
    failureCount (snd (recordSuccess s)) = 0 /\
    fst (isOpen (snd (reset s))) = false /\
    fst (isOpen (snd (recordSuccess s))) = false.
Proof.
  intros s. repeat split.
Qed.

End GateProperties.

(* ===================================================================== *)
(** ** Properties of the orchestrating flow *)
(* ===================================================================== *)

Section FlowProperties.

Import SecureInquiry.

Ltac run_flow :=
  unfold handle, executeSecureInquiry, bind, try_catch, invoke, attempt,
    readClock, ret, throw; cbn [fst snd app].

(** C8. When [isOpen()] answers [true], the flow throws a fresh
    [CircuitOpenError] whose message is ['Service Busy'], and the call log
    holds the [isOpen] call alone: the sanitizer, the generation service,
    the encryption and the audit store are not called, and the gate is not
    updated. *)
Theorem C8_open_gate_fast_rejection :
  forall (W E : Type) (deps : dependencies W E) (clock : W -> string * W)
         (userId message : string) (w : W),
    fst (circuitBreaker_isOpen deps w) = true ->
    let r := handle deps clock userId message w in
    r = (Threw (ThrowCircuitOpen new_CircuitOpenError),
         (snd (circuitBreaker_isOpen deps w), [CallIsOpen])) /\
    SecureInquiry.message new_CircuitOpenError = "Service Busy"%string /\
    timesCalled KSanitize (snd (snd r)) = 0 /\
    timesCalled KGenerateAnswer (snd (snd r)) = 0 /\
    timesCalled KSaveAudit (snd (snd r)) = 0 /\
    timesCalled KEncrypt (snd (snd r)) = 0 /\
    timesCalled KRecordFailure (snd (snd r)) = 0 /\
    timesCalled KRecordSuccess (snd (snd r)) = 0.
Proof.
  intros W E deps clock userId message w Hopen r.
  assert (Hr : r = (Threw (ThrowCircuitOpen new_CircuitOpenError),
                    (snd (circuitBreaker_isOpen deps w), [CallIsOpen]))).
  { subst r. run_flow.
    destruct (circuitBreaker_isOpen deps w) as [b w1].
    cbn in Hopen. subst b. reflexivity. }
  rewrite Hr. repeat split.
Qed.

(** C9. With the gate closed: if the generation call rejects with [e],
    the flow throws that same [e], [recordFailure] is called exactly once
    (and [recordSuccess] not at all), and neither the encryption nor the
    audit store is called.  And whenever the log of a request holds a
    [saveAudit] call, the generation call of that request resolved, and
    the [saveAudit] call is the last entry of the log, after the
    [generateAnswer] and [recordSuccess] calls. *)
Theorem C9_generation_failure_path :
  forall (W E : Type) (deps : dependencies W E) (clock : W -> string * W)
         (userId message : string) (w : W),
    let w1 := snd (circuitBreaker_isOpen deps w) in
    let sm := fst (sanitizer_sanitize deps message w1) in
    let w2 := snd (sanitizer_sanitize deps message w1) in
    let gen := aiPort_generateAnswer deps sm w2 in
    let r := handle deps clock userId message w in
    (forall e : E,
        fst (circuitBreaker_isOpen deps w) = false ->
        fst gen = inl e ->
        r = (Threw (ThrowError e),
             (snd (circuitBreaker_recordFailure deps (snd gen)),
              [CallIsOpen; CallSanitize message; CallGenerateAnswer sm;
               CallRecordFailure])) /\
        timesCalled KRecordFailure (snd (snd r)) = 1 /\
        timesCalled KRecordSuccess (snd (snd r)) = 0 /\
        timesCalled KEncrypt (snd (snd r)) = 0 /\
        timesCalled KSaveAudit (snd (snd r)) = 0) /\
    (forall entry : auditEntry,
        In (CallSaveAudit entry) (snd (snd r)) ->
        fst (circuitBreaker_isOpen deps w) = false /\
        (exists a : string, fst gen = inr a) /\
        snd (snd r) =
          [CallIsOpen; CallSanitize message; CallGenerateAnswer sm;
           CallRecordSuccess; CallEncrypt message; CallSaveAudit entry]).
Proof.
  intros W E deps clock userId message w w1 sm w2 gen r.
  subst r gen w2 sm w1. run_flow.
  destruct (circuitBreaker_isOpen deps w) as [open w1]; cbn [fst snd].
  destruct open; cbn [fst snd app].
  { split.
    - intros e Hopen. discriminate Hopen.
    - intros entry [Hin|[]]. discriminate Hin. }
  destruct (sanitizer_sanitize deps message w1) as [sm w2]; cbn [fst snd app].
  destruct (aiPort_generateAnswer deps sm w2) as [[e|a] w3]; cbn [fst snd app].
  - destruct (circuitBreaker_recordFailure deps w3) as [[] w4].
    cbn [fst snd app]. split.
    + intros e' _ He'. injection He' as <-. repeat split.
    + intros entry Hin.
      repeat (destruct Hin as [Hin|Hin]; [discriminate Hin|]).
      destruct Hin.
  - destruct (circuitBreaker_recordSuccess deps w3) as [[] w4].
    cbn [fst snd app].
    destruct (clock w4) as [ts w5]; cbn [fst snd app].
    split; [intros e _ He; discriminate He|].
    intros entry Hin.
    destruct (cryptoUtil_encrypt deps message w5) as [[e|enc] w6];
      cbn [fst snd app] in *.
    { repeat (destruct Hin as [Hin|Hin]; [discriminate Hin|]).
      destruct Hin. }
    match type of Hin with
    | context [auditDbPort_saveAudit deps ?en w6] =>
        destruct (auditDbPort_saveAudit deps en w6) as [[e|[]] w7]
    end; cbn [fst snd app] in *;
      (repeat (destruct Hin as [Hin|Hin]; [try discriminate Hin|]);
       [|destruct Hin]);
      injection Hin as <-; (split; [reflexivity|]);
      (split; [exists a; reflexivity|reflexivity]).
Qed.

(** C8 on the real gate after three [recordFailure()] calls, the other
    collaborators being the mocks of the test-suite. *)
Lemma C8_open_gate_fast_rejection_witness :
  let r := handle (wired (mockDependencies false
                            (inr "Generated Answer"%string) (inr tt)))
             (onRest mockClock) "user1" "hello"
             (CircuitBreaker.failures 3 CircuitBreaker.initial, tt) in
  r = (Threw (ThrowCircuitOpen new_CircuitOpenError),
       ((CircuitBreaker.failures 3 CircuitBreaker.initial, tt),
        [CallIsOpen])) /\
  timesCalled KGenerateAnswer (snd (snd r)) = 0.
Proof.
  pose proof (C8_open_gate_fast_rejection
                (wired (mockDependencies false
                          (inr "Generated Answer"%string) (inr tt)))
                (onRest mockClock) "user1" "hello"
                (CircuitBreaker.failures 3 CircuitBreaker.initial, tt)
                eq_refl) as H.
  cbv zeta in H. split; [apply H|apply H].
Defined.

(** C9 on the mocks of the test-suite, with [generateAnswer] rejecting. *)
Lemma C9_generation_failure_path_witness :
  let r := handle (mockDependencies false
                     (inl "AI service unavailable"%string) (inr tt))
             mockClock "user1" "hello" tt in
  fst r = Threw (ThrowError "AI service unavailable"%string) /\
  timesCalled KRecordFailure (snd (snd r)) = 1 /\
  timesCalled KSaveAudit (snd (snd r)) = 0.
Proof.
  pose proof (proj1 (C9_generation_failure_path
                (mockDependencies false
                   (inl "AI service unavailable"%string) (inr tt))
                mockClock "user1" "hello" tt)
                "AI service unavailable"%string eq_refl eq_refl) as H.
  cbv zeta in H. destruct H as (Hr & Hf & _ & _ & Ha).
  split; [rewrite Hr; reflexivity|]. split; assumption.
Defined.

(** C10. With the real gate wired in and closed, and a generation call
    that resolves: [recordSuccess] is called right after the generation
    call and before the encryption and the audit write; whatever the
    encryption and the audit write do afterwards, [recordFailure] is not
    called and the gate ends with a counter of 0, closed.  If the
    encryption throws [e], or the audit write rejects with [e], the flow
    throws that [e]. *)
Theorem C10_audit_failure_keeps_gate_closed :
  forall (X E : Type) (d : dependencies X E) (clock : X -> string * X)
         (userId message : string) (g : CircuitBreaker.state) (x : X)
         (a : string),
    let sm := fst (sanitizer_sanitize d message x) in
    let x1 := snd (sanitizer_sanitize d message x) in
    let x2 := snd (aiPort_generateAnswer d sm x1) in
    let ts := fst (clock x2) in
    let x3 := snd (clock x2) in
    let enc := cryptoUtil_encrypt d message x3 in
    let r := handle (wired d) (onRest clock) userId message (g, x) in
    let log := snd (snd r) in
    let gate := fst (fst (snd r)) in
    (CircuitBreaker.failureCount g < 3)%Z ->
    fst (aiPort_generateAnswer d sm x1) = inr a ->
    CircuitBreaker.failureCount gate = 0%Z /\
    fst (CircuitBreaker.isOpen gate) = false /\
    timesCalled KRecordFailure log = 0 /\
    timesCalled KRecordSuccess log = 1 /\
    (exists rest,
        log = [CallIsOpen; CallSanitize message; CallGenerateAnswer sm;
               CallRecordSuccess] ++ rest /\
        forall c, In c rest -> kindOf c = KEncrypt \/ kindOf c = KSaveAudit) /\
    (forall e, fst enc = inl e ->
               fst r = Threw (ThrowError e) /\
               timesCalled KSaveAudit log = 0) /\
    (forall e text,
        fst enc = inr text ->
        fst (auditDbPort_saveAudit d
               {| userId := userId; timestamp := ts;
                  originalMessageEncrypted := text;
                  sanitizedMessage := sm |} (snd enc)) = inl e ->
        fst r = Threw (ThrowError e)).
Proof.
  intros X E d clock userId message g x a sm x1 x2 ts x3 enc r log gate
         Hclosed Hgen.
  subst gate log r enc x3 ts x2 x1 sm. run_flow.
  unfold wired, onGate, onRest; cbn [fst snd app
    sanitizer_sanitize circuitBreaker_isOpen circuitBreaker_recordFailure
    circuitBreaker_recordSuccess aiPort_generateAnswer auditDbPort_saveAudit
    cryptoUtil_encrypt CircuitBreaker.isOpen CircuitBreaker.recordSuccess].
  assert (Hg : (CircuitBreaker.failureCount g
                >=? CircuitBreaker.FAILURE_THRESHOLD)%Z = false).
  { rewrite Z.geb_leb. apply Z.leb_gt. exact Hclosed. }
  rewrite Hg. cbn [fst snd app].
  destruct (sanitizer_sanitize d message x) as [sm x1]; cbn [fst snd app] in *.
  destruct (aiPort_generateAnswer d sm x1) as [res x2]; cbn [fst snd app] in *.
  subst res. cbn [fst snd app].
  destruct (clock x2) as [ts x3]; cbn [fst snd app].
  destruct (cryptoUtil_encrypt d message x3) as [[e|text] x4];
    cbn [fst snd app].
  - repeat apply conj; try reflexivity.
    + exists [CallEncrypt message]. split; [reflexivity|].
      intros c [<-|[]]. left; reflexivity.
    + intros e' He'. injection He' as <-. split; reflexivity.
    + intros e' text He'. discriminate He'.
  - match goal with
    | |- context [auditDbPort_saveAudit d ?en x4] =>
        destruct (auditDbPort_saveAudit d en x4) as [[e|[]] x5] eqn:Hsave
    end; cbn [fst snd app].
    + repeat apply conj; try reflexivity.
      * eexists. split; [cbn [app]; reflexivity|].
        intros c [<-|[<-|[]]]; [left|right]; reflexivity.
      * intros e' He'. discriminate He'.
      * intros e' text' Ht. injection Ht as <-.
        rewrite Hsave. cbn [fst]. intros He'. injection He' as <-.
        reflexivity.
    + repeat apply conj; try reflexivity.
      * eexists. split; [cbn [app]; reflexivity|].
        intros c [<-|[<-|[]]]; [left|right]; reflexivity.
      * intros e' He'. discriminate He'.
      * intros e' text' Ht. injection Ht as <-.
        rewrite Hsave. cbn [fst]. intros He'. discriminate He'.
Qed.

(** C10 on the real gate after two failures, with the mocks of the
    test-suite and a rejecting [saveAudit]. *)
Lemma C10_audit_failure_keeps_gate_closed_witness :
  let r := handle (wired (mockDependencies false
                            (inr "Generated Answer"%string)
                            (inl "disk full"%string)))
             (onRest mockClock) "user1" "hello"
             (CircuitBreaker.failures 2 CircuitBreaker.initial, tt) in
  CircuitBreaker.failureCount (fst (fst (snd r))) = 0%Z /\
  fst r = Threw (ThrowError "disk full"%string).
Proof.
  pose proof (C10_audit_failure_keeps_gate_closed
                (mockDependencies false (inr "Generated Answer"%string)
                   (inl "disk full"%string))
                mockClock "user1" "hello"
                (CircuitBreaker.failures 2 CircuitBreaker.initial) tt
                (a := "Generated Answer"%string) eq_refl eq_refl) as H.
  cbv zeta in H. destruct H as (Hc & _ & _ & _ & _ & _ & Hs).
  split; [exact Hc|].
  exact (Hs "disk full"%string _ eq_refl eq_refl).
Defined.

End FlowProperties.

(* ===================================================================== *)
(** ** Properties of the redactor *)
(* ===================================================================== *)

Section SanitizerProperties.

Import Sanitizer.

(** *** The degenerate inputs *)

(** C2. For every value that is not a string, and for the empty string,
    [sanitize] returns the empty string; [sanitize] is a total function
    into strings, it has no error result. *)
Theorem C2_sanitize_degenerate_inputs :
  forall x : jsValue,
    (forall s, x <> JsString s) \/ x = JsString EmptyString ->
    sanitize x = EmptyString.
Proof.
  intros x [Hns | ->]; [|reflexivity].
  destruct x; try reflexivity.
  exfalso. eapply Hns. reflexivity.
Qed.

(** C2 on the inputs of the test-suite: [null], [undefined], [12345],
    [{ message: 'test' }], [['test@email.com']] and ['']. *)
Lemma C2_sanitize_degenerate_inputs_witness :
  map sanitize
    [JsNull; JsUndefined; JsNumber 12345;
     JsObject [("message"%string, JsString "test")];
     JsArray [JsString "test@email.com"]; JsString ""]
  = repeat EmptyString 6.
Proof.
  cbn [map repeat].
  rewrite (C2_sanitize_degenerate_inputs (x := JsNull))
    by (left; discriminate).
  rewrite (C2_sanitize_degenerate_inputs (x := JsUndefined))
    by (left; discriminate).
  rewrite (C2_sanitize_degenerate_inputs (x := JsNumber 12345))
    by (left; discriminate).
  rewrite (C2_sanitize_degenerate_inputs
             (x := JsObject [("message"%string, JsString "test")]))
    by (left; discriminate).
  rewrite (C2_sanitize_degenerate_inputs
             (x := JsArray [JsString "test@email.com"]))
    by (left; discriminate).
  rewrite (C2_sanitize_degenerate_inputs (x := JsString ""))
    by (right; reflexivity).
  reflexivity.
Defined.

(** *** The Luhn checksum *)

Lemma luhnSumFrom_shift (pos : nat) (l : list nat) :
  luhnSumFrom (S (S pos)) l = luhnSumFrom pos l.
Proof.
  revert pos; induction l as [|d l IH]; intros pos; cbn [luhnSumFrom].
  - reflexivity.
  - rewrite IH. reflexivity.
Qed.

Lemma luhnSumFrom_snoc (pos : nat) (l : list nat) (d : nat) :
  luhnSumFrom pos (l ++ [d]) =
  luhnSumFrom pos l
  + (if Nat.even (pos + List.length l) then luhnDouble d else d).
Proof.
  revert pos; induction l as [|e l IH]; intros pos.
  - cbn [app luhnSumFrom List.length]. rewrite !Nat.add_0_r. reflexivity.
  - cbn [app luhnSumFrom List.length]. rewrite IH.
    replace (S pos + List.length l) with (pos + S (List.length l)) by lia.
    destruct (Nat.even pos), (Nat.even (pos + S (List.length l))); lia.
Qed.

Lemma luhnSum_by_position (digits : list nat) :
  luhnSum digits = luhnSumByPosition digits.
Proof.
  unfold luhnSum. induction digits as [|d rest IH].
  - reflexivity.
  - cbn [rev luhnSumByPosition]. rewrite luhnSumFrom_snoc, IH.
    rewrite length_rev. cbn [List.length Nat.add].
    destruct (Nat.even (S (List.length rest))); lia.
Qed.

Lemma luhnSum_pair (digits : list nat) (a b : nat) :
  luhnSum (digits ++ [a; b]) = luhnSum digits + luhnDouble a + b.
Proof.
  unfold luhnSum. rewrite rev_app_distr. cbn [rev app luhnSumFrom Nat.even].
  rewrite luhnSumFrom_shift. lia.
Qed.

Lemma luhnSum_zeros (n : nat) : luhnSum (repeat 0 n) = 0.
Proof.
  rewrite luhnSum_by_position. induction n as [|n IH].
  - reflexivity.
  - cbn [repeat luhnSumByPosition]. rewrite IH.
    destruct (Nat.even _); reflexivity.
Qed.

(** C3. The checksum as the spec words it: a candidate is valid exactly
    when it is made of digits and its sum is divisible by 10; in the sum,
    the digit at position [p] from the right (1-indexed) counts doubled,
    less 9 when the doubled value exceeds 9, when [p] is even, and as it
    is when [p] is odd; so the sum of [digits ++ [a; b]] is the sum of
    [digits] plus the doubled [a] plus [b]; a string of zeros is valid.
    And the three values of the test-suite. *)
Theorem C3_luhn_checksum :
  (forall candidate : string,
      isValidLuhn candidate = true <->
      forallb isDigit (chars candidate) = true /\
      luhnSum (map digitValue (chars candidate)) mod 10 = 0) /\
  (forall digits, luhnSum digits = luhnSumByPosition digits) /\
  (forall d, luhnDouble d = if 9 <? 2 * d then 2 * d - 9 else 2 * d) /\
  luhnSum [] = 0 /\
  (forall b, luhnSum [b] = b) /\
  (forall digits a b,
      luhnSum (digits ++ [a; b]) = luhnSum digits + luhnDouble a + b) /\
  (forall n, luhnValid (repeat "0"%char n) = true) /\
  isValidLuhn "4532015112830366" = true /\
  isValidLuhn "1234567890123456" = false /\
  isValidLuhn "0000000000000000" = true.
Proof.
  repeat apply conj; try reflexivity.
  - intros candidate. unfold isValidLuhn, luhnValid.
    rewrite andb_true_iff, Nat.eqb_eq. reflexivity.
  - apply luhnSum_by_position.
  - intros b. unfold luhnSum. cbn. lia.
  - apply luhnSum_pair.
  - intros n. unfold luhnValid. apply andb_true_iff. split.
    + induction n as [|n IH]; [reflexivity|exact IH].
    + replace (map digitValue (repeat "0"%char n)) with (repeat 0 n).
      * rewrite luhnSum_zeros. reflexivity.
      * induction n as [|n IH]; [reflexivity|].
        cbn [repeat map]. rewrite <- IH. reflexivity.
Qed.

(** The expectations of the [isValidLuhn] tests of the test-suite. *)
Example isValidLuhn_test_suite :
  map isValidLuhn
    ["4532015112830366"; "4222222222222"; "5500000000000004";
     "340000000000009"; "79927398713"; "1234567890123456";
     "0000000000000000"; "1111111111111111"; "4532015112830367";
     "79927398710"]%string
  = [true; true; true; true; true; false; true; false; false; false].
Proof. vm_compute. reflexivity. Qed.

(** *** Passes over the runs of digits *)

Lemma endsWithDigit_snoc (p : list ascii) (c : ascii) :
  endsWithDigit (p ++ [c]) = isDigit c.
Proof.
  unfold endsWithDigit. rewrite rev_app_distr. reflexivity.
Qed.

Lemma endsWithDigit_inv (pre : list ascii) :
  endsWithDigit pre = false ->
  pre = [] \/ exists p c, pre = p ++ [c] /\ isDigit c = false.
Proof.
  intros H. destruct pre as [|a pre'] using rev_ind; [left; reflexivity|].
  right. exists pre', a. split; [reflexivity|].
  rewrite endsWithDigit_snoc in H. exact H.
Qed.

Section Runs.

Variable sel : selector.

Lemma scanRuns_digits (d run s : list ascii) :
  forallb isDigit d = true ->
  scanRuns sel run (d ++ s) = scanRuns sel (run ++ d) s.
Proof.
  revert run; induction d as [|c d IH]; intros run Hd.
  - rewrite app_nil_r. reflexivity.
  - cbn [forallb] in Hd. apply andb_true_iff in Hd as [Hc Hd].
    cbn [app scanRuns]. rewrite Hc, IH by exact Hd.
    rewrite <- app_assoc. reflexivity.
Qed.

Lemma scanRuns_nondigit (a : list ascii) (c : ascii) (b run : list ascii) :
  isDigit c = false ->
  scanRuns sel run (a ++ c :: b) =
  scanRuns sel run a ++ c :: scanRuns sel [] b.
Proof.
  intros Hc. revert run; induction a as [|x a IH]; intros run.
  - cbn [app scanRuns]. rewrite Hc. reflexivity.
  - cbn [app scanRuns]. destruct (isDigit x).
    + apply IH.
    + rewrite IH, <- app_assoc. reflexivity.
Qed.

Lemma scanRuns_text (w s : list ascii) :
  hasNoDigit w = true ->
  scanRuns sel [] (w ++ s) = w ++ scanRuns sel [] s.
Proof.
  induction w as [|c w IH]; intros Hw; [reflexivity|].
  cbn [hasNoDigit forallb] in Hw. apply andb_true_iff in Hw as [Hc Hw].
  apply negb_true_iff in Hc.
  cbn [app scanRuns]. rewrite Hc. cbn [flushRun app].
  rewrite IH by exact Hw. reflexivity.
Qed.

Lemma scanRuns_before (pre d : list ascii) :
  endsWithDigit pre = false -> forallb isDigit d = true ->
  scanRuns sel [] (pre ++ d) = scanRuns sel [] pre ++ flushRun sel d.
Proof.
  intros Hpre Hd.
  destruct (endsWithDigit_inv _ Hpre) as [-> | (p & c & -> & Hc)].
  - cbn [app]. rewrite <- (app_nil_r d) at 1.
    rewrite scanRuns_digits by exact Hd. reflexivity.
  - rewrite <- !app_assoc. cbn [app].
    rewrite !scanRuns_nondigit by exact Hc.
    rewrite <- (app_nil_r d) at 1.
    rewrite scanRuns_digits by exact Hd.
    cbn [scanRuns app flushRun]. rewrite <- app_assoc. reflexivity.
Qed.

(** A bounded run of digits is decided on by itself; what is before it
    and what is after it are scanned on their own. *)
Lemma scanRuns_run (pre run post : list ascii) :
  isRunAt pre run post ->
  scanRuns sel [] (pre ++ run ++ post) =
  scanRuns sel [] pre ++ flushRun sel run ++ scanRuns sel [] post.
Proof.
  intros (_ & Hd & Hpre & Hpost).
  destruct post as [|c post].
  - rewrite app_nil_r. cbn [scanRuns flushRun]. rewrite app_nil_r.
    apply scanRuns_before; assumption.
  - cbn [startsWithDigit] in Hpost.
    rewrite app_assoc, scanRuns_nondigit by exact Hpost.
    rewrite scanRuns_before by assumption.
    cbn [scanRuns]. rewrite Hpost. cbn [flushRun app].
    rewrite <- app_assoc. reflexivity.
Qed.

(** A pass that keeps every bounded run of the string changes nothing. *)
Lemma scanRuns_unchanged (s pre run : list ascii) :
  (forall pre' r post',
      pre ++ run ++ s = pre' ++ r ++ post' ->
      isRunAt pre' r post' -> sel r = None) ->
  endsWithDigit pre = false ->
  forallb isDigit run = true ->
  scanRuns sel run s = run ++ s.
Proof.
  revert pre run; induction s as [|c s IH]; intros pre run Hkeep Hpre Hrun.
  - cbn [scanRuns]. rewrite app_nil_r.
    destruct run as [|a run']; [reflexivity|].
    cbn [flushRun]. rewrite (Hkeep pre (a :: run') []); [reflexivity| |].
    + reflexivity.
    + repeat split; [discriminate|assumption|assumption].
  - cbn [scanRuns]. destruct (isDigit c) eqn:Hc.
    + rewrite (IH pre (run ++ [c])).
      * rewrite <- app_assoc. reflexivity.
      * intros pre' r post' Heq. apply Hkeep.
        rewrite <- Heq, <- app_assoc. reflexivity.
      * exact Hpre.
      * rewrite forallb_app, Hrun. cbn. rewrite Hc. reflexivity.
    + assert (Hflush : flushRun sel run = run).
      { destruct run as [|a run']; [reflexivity|].
        cbn [flushRun].
        rewrite (Hkeep pre (a :: run') (c :: s)); [reflexivity| |].
        - reflexivity.
        - repeat split; [discriminate|assumption|assumption|exact Hc]. }
      rewrite Hflush. f_equal. f_equal.
      apply (IH (pre ++ run ++ [c]) []).
      * intros pre' r post' Heq. apply Hkeep.
        rewrite <- Heq, <- !app_assoc. reflexivity.
      * rewrite app_assoc, endsWithDigit_snoc. exact Hc.
      * reflexivity.
Qed.

End Runs.

Lemma scanRuns_ext (f g : selector) (run s : list ascii) :
  (forall r, f r = g r) -> scanRuns f run s = scanRuns g run s.
Proof.
  intros Hfg.
  assert (Hflush : forall r, flushRun f r = flushRun g r).
  { intros [|a r]; [reflexivity|]. cbn [flushRun]. rewrite Hfg. reflexivity. }
  revert run; induction s as [|c s IH]; intros run; cbn [scanRuns].
  - apply Hflush.
  - destruct (isDigit c); [apply IH|]. rewrite Hflush, IH. reflexivity.
Qed.

(** Two passes in a row are one pass with the combined selector, when the
    placeholders of the first pass hold no digit. *)
Lemma scanRuns_seq (f g : selector) (s run : list ascii) :
  (forall r placeholder,
      f r = Some placeholder -> hasNoDigit placeholder = true) ->
  forallb isDigit run = true ->
  scanRuns g [] (scanRuns f run s) = scanRuns (seqSel f g) run s.
Proof.
  intros Hf.
  assert (Hflush : forall r, forallb isDigit r = true ->
            scanRuns g [] (flushRun f r) = flushRun (seqSel f g) r).
  { intros [|a r] Hr; [reflexivity|].
    cbn [flushRun]. unfold seqSel.
    destruct (f (a :: r)) as [placeholder|] eqn:Hfr.
    - rewrite <- (app_nil_r placeholder) at 1.
      rewrite scanRuns_text by (eapply Hf; exact Hfr).
      cbn [scanRuns flushRun]. apply app_nil_r.
    - rewrite <- (app_nil_r (a :: r)) at 1.
      rewrite scanRuns_digits by exact Hr. reflexivity. }
  revert run; induction s as [|c s IH]; intros run Hrun; cbn [scanRuns].
  - apply Hflush, Hrun.
  - destruct (isDigit c) eqn:Hc.
    + apply IH. rewrite forallb_app, Hrun. cbn. rewrite Hc. reflexivity.
    + rewrite scanRuns_nondigit by exact Hc.
      rewrite Hflush by exact Hrun. rewrite IH by reflexivity. reflexivity.
Qed.

Lemma cardSel_placeholder (r placeholder : list ascii) :
  cardSel r = Some placeholder -> placeholder = REDACTED_CREDIT_CARD.
Proof.
  unfold cardSel. destruct (_ && _); congruence.
Qed.

Lemma ssnSel_placeholder (r placeholder : list ascii) :
  ssnSel r = Some placeholder -> placeholder = REDACTED_SSN.
Proof.
  unfold ssnSel. destruct (isSsnLength _); congruence.
Qed.

Lemma digitSel_placeholder (r placeholder : list ascii) :
  digitSel r = Some placeholder ->
  placeholder = REDACTED_CREDIT_CARD \/ placeholder = REDACTED_SSN.
Proof.
  unfold digitSel, seqSel. destruct (cardSel r) eqn:Hc.
  - intros [= <-]. left. eapply cardSel_placeholder, Hc.
  - intros H. right. eapply ssnSel_placeholder, H.
Qed.

Lemma digitSel_hasNoDigit (r placeholder : list ascii) :
  digitSel r = Some placeholder -> hasNoDigit placeholder = true.
Proof.
  intros H. destruct (digitSel_placeholder _ H) as [-> | ->]; reflexivity.
Qed.

(** The card pass followed by the nine-digit pass is one pass. *)
Lemma redactDigits_scan (s : list ascii) :
  redactDigits s = scanRuns digitSel [] s.
Proof.
  unfold redactDigits, redactSSN, redactCards, digitSel.
  apply scanRuns_seq; [|reflexivity].
  intros r placeholder H. rewrite (cardSel_placeholder _ H). reflexivity.
Qed.

(** The digit passes find nothing to do in their own output. *)
Lemma redactDigits_stable (s : list ascii) :
  redactCards (redactDigits s) = redactDigits s /\
  redactSSN (redactDigits s) = redactDigits s.
Proof.
  rewrite redactDigits_scan. unfold redactCards, redactSSN. split.
  - rewrite scanRuns_seq; [|exact digitSel_hasNoDigit|reflexivity].
    apply scanRuns_ext. intros r. unfold seqSel, digitSel, seqSel.
    destruct (cardSel r); [reflexivity|].
    destruct (ssnSel r); reflexivity.
  - rewrite scanRuns_seq; [|exact digitSel_hasNoDigit|reflexivity].
    apply scanRuns_ext. intros r. unfold seqSel, digitSel, seqSel.
    destruct (cardSel r); [reflexivity|].
    destruct (ssnSel r); reflexivity.
Qed.

(** *** The email pass *)

Lemma isDomainChar_local (c : ascii) :
  isDomainChar c = true -> isLocalChar c = true.
Proof.
  unfold isDomainChar, isLocalChar.
  destruct (isLetter c), (isDigit c), (Ascii.eqb c "."), (Ascii.eqb c "-"),
    (Ascii.eqb c "_"), (Ascii.eqb c "%"), (Ascii.eqb c "+");
    intros H; try reflexivity; discriminate H.
Qed.

Lemma isEmailChar_false (c : ascii) :
  isEmailChar c = false ->
  isLocalChar c = false /\ isDomainChar c = false /\
  Ascii.eqb c "@" = false.
Proof.
  unfold isEmailChar. intros H. apply orb_false_iff in H as [Hl Ha].
  repeat split; try assumption.
  destruct (isDomainChar c) eqn:Hd; [|reflexivity].
  apply isDomainChar_local in Hd. congruence.
Qed.

Section Spans.

Variable p : ascii -> bool.

Lemma takeWhile_dropWhile (s : list ascii) :
  takeWhile p s ++ dropWhile p s = s.
Proof.
  induction s as [|c s IH]; [reflexivity|].
  cbn [takeWhile dropWhile]. destruct (p c); [|reflexivity].
  cbn [app]. rewrite IH. reflexivity.
Qed.

Lemma takeWhile_forallb (s : list ascii) :
  forallb p (takeWhile p s) = true.
Proof.
  induction s as [|c s IH]; [reflexivity|].
  cbn [takeWhile]. destruct (p c) eqn:Hc; [|reflexivity].
  cbn [forallb]. rewrite Hc, IH. reflexivity.
Qed.

Lemma takeWhile_stop (u : list ascii) (c : ascii) (v : list ascii) :
  p c = false -> takeWhile p (u ++ c :: v) = takeWhile p u.
Proof.
  intros Hc. induction u as [|a u IH]; cbn [app takeWhile].
  - rewrite Hc. reflexivity.
  - destruct (p a); [rewrite IH|]; reflexivity.
Qed.

Lemma dropWhile_stop (u : list ascii) (c : ascii) (v : list ascii) :
  p c = false -> dropWhile p (u ++ c :: v) = dropWhile p u ++ c :: v.
Proof.
  intros Hc. induction u as [|a u IH]; cbn [app dropWhile].
  - rewrite Hc. reflexivity.
  - destruct (p a); [exact IH|reflexivity].
Qed.

Lemma span_app_cons (u v : list ascii) (x : ascii) (r : list ascii) :
  dropWhile p u = x :: r ->
  takeWhile p (u ++ v) = takeWhile p u /\
  dropWhile p (u ++ v) = x :: r ++ v.
Proof.
  induction u as [|a u IH]; cbn [app takeWhile dropWhile].
  - discriminate.
  - destruct (p a).
    + intros H. destruct (IH H) as [Ht Hd]. rewrite Ht, Hd. split; reflexivity.
    + intros [= <- <-]. split; reflexivity.
Qed.

Lemma takeWhile_app_prefix (a b : list ascii) :
  exists x, takeWhile p (a ++ b) = takeWhile p a ++ x.
Proof.
  induction a as [|c a [x IH]]; cbn [app takeWhile].
  - exists (takeWhile p b). reflexivity.
  - destruct (p c).
    + exists x. rewrite IH. reflexivity.
    + exists []. reflexivity.
Qed.

Lemma takeWhile_app_length (a b : list ascii) :
  List.length (takeWhile p a) <= List.length (takeWhile p (a ++ b)).
Proof.
  destruct (takeWhile_app_prefix a b) as [x ->].
  rewrite length_app. lia.
Qed.

End Spans.

Lemma lastTld_mono (d d' : list ascii) (n : nat) :
  lastTld d = Some n -> exists n', lastTld (d ++ d') = Some n'.
Proof.
  revert n; induction d as [|c d IH]; intros n; cbn [lastTld app].
  - discriminate.
  - destruct (lastTld d) as [m|] eqn:Hd.
    + destruct (IH m eq_refl) as [m' ->]. intros _. eexists; reflexivity.
    + destruct (lastTld (d ++ d')) as [m'|]; [intros _; eexists; reflexivity|].
      destruct (Ascii.eqb c "."); cbn [andb]; [|discriminate].
      destruct (2 <=? List.length (takeWhile isLetter d)) eqn:Hlen;
        [|discriminate].
      intros _. apply Nat.leb_le in Hlen.
      pose proof (takeWhile_app_length isLetter d d') as Hle.
      destruct (Nat.leb_spec 2 (List.length (takeWhile isLetter (d ++ d'))));
        [eexists; reflexivity|lia].
Qed.

Lemma matchDomain_mono (d d' : list ascii) (n : nat) :
  matchDomain d = Some n -> exists n', matchDomain (d ++ d') = Some n'.
Proof.
  destruct d as [|c d]; cbn [matchDomain app]; [discriminate|].
  destruct (lastTld d) as [m|] eqn:Hd; [|discriminate].
  intros _. destruct (@lastTld_mono d d' m Hd) as [m' ->].
  eexists; reflexivity.
Qed.

(** A character that no email holds ends the detector's look-ahead. *)
Lemma matchEmailAt_sep (u : list ascii) (c : ascii) (v : list ascii) :
  isEmailChar c = false -> matchEmailAt (u ++ c :: v) = matchEmailAt u.
Proof.
  intros Hc. destruct (isEmailChar_false _ Hc) as (Hl & Hd & Ha).
  unfold matchEmailAt.
  rewrite takeWhile_stop, dropWhile_stop by exact Hl.
  destruct (takeWhile isLocalChar u) as [|a l]; [reflexivity|].
  destruct (dropWhile isLocalChar u) as [|x r]; cbn [app].
  - rewrite Ha. reflexivity.
  - rewrite takeWhile_stop by exact Hd. reflexivity.
Qed.

(** A match at the head of a string is still there when the string is
    extended. *)
Lemma matchEmailAt_mono (u v : list ascii) :
  matchEmailAt (u ++ v) = None -> matchEmailAt u = None.
Proof.
  intros Huv. destruct (matchEmailAt u) as [n|] eqn:Hu; [exfalso|reflexivity].
  unfold matchEmailAt in Hu, Huv.
  destruct (takeWhile isLocalChar u) as [|a l] eqn:Ht; [discriminate|].
  destruct (dropWhile isLocalChar u) as [|x r] eqn:Hd; [discriminate|].
  destruct (@span_app_cons isLocalChar u v x r Hd) as [Ht' Hd'].
  rewrite Ht', Hd', Ht in Huv.
  destruct (Ascii.eqb x "@"); [|discriminate].
  destruct (matchDomain (takeWhile isDomainChar r)) as [m|] eqn:Hm;
    [|discriminate].
  destruct (takeWhile_app_prefix isDomainChar r v) as [y Hy].
  rewrite Hy in Huv.
  destruct (@matchDomain_mono _ y m Hm) as [m' Hm'].
  rewrite Hm' in Huv. discriminate.
Qed.

Lemma matchEmailAt_resumes (u s o : list ascii) :
  resumes s o ->
  matchEmailAt (u ++ s) = None -> matchEmailAt (u ++ o) = None.
Proof.
  intros [-> | (w & rest & o' & -> & ->)] H; [exact H|].
  rewrite app_assoc, matchEmailAt_sep by reflexivity.
  rewrite app_assoc in H. eapply matchEmailAt_mono, H.
Qed.

Lemma emailFreeb_cons (c : ascii) (s : list ascii) :
  emailFreeb (c :: s) = true <->
  matchEmailAt (c :: s) = None /\ emailFreeb s = true.
Proof.
  cbn [emailFreeb]. destruct (matchEmailAt (c :: s)).
  - split; [discriminate|intros [H _]; discriminate H].
  - split; [intros H; split; [reflexivity|exact H]|intros [_ H]; exact H].
Qed.

Lemma emailFreeb_suffix (u v : list ascii) :
  emailFreeb (u ++ v) = true -> emailFreeb v = true.
Proof.
  induction u as [|a u IH]; [trivial|].
  cbn [app]. intros H. apply emailFreeb_cons in H as [_ H]. exact (IH H).
Qed.

Lemma emailFreeb_app_resumes (u s o : list ascii) :
  resumes s o -> emailFreeb o = true ->
  emailFreeb (u ++ s) = true -> emailFreeb (u ++ o) = true.
Proof.
  intros Hres Ho. induction u as [|a u IH]; [intros _; exact Ho|].
  cbn [app]. intros H. apply emailFreeb_cons in H as [Hm H].
  apply emailFreeb_cons. split; [|exact (IH H)].
  apply (@matchEmailAt_resumes (a :: u) s o Hres Hm).
Qed.

Lemma emailFreeb_sep (w : list ascii) (c : ascii) (r : list ascii) :
  emailFreeb w = true -> isEmailChar c = false -> emailFreeb r = true ->
  emailFreeb (w ++ c :: r) = true.
Proof.
  intros Hw Hc Hr. induction w as [|a w IH]; cbn [app].
  - apply emailFreeb_cons. split; [|exact Hr].
    apply (@matchEmailAt_sep [] c r Hc).
  - apply emailFreeb_cons in Hw as [Hm Hw].
    apply emailFreeb_cons. split; [|exact (IH Hw)].
    rewrite <- Hm. exact (@matchEmailAt_sep (a :: w) c r Hc).
Qed.

(** No email match starts inside a placeholder. *)
Lemma emailFreeb_placeholder (placeholder r : list ascii) :
  placeholder = REDACTED_EMAIL \/ placeholder = REDACTED_CREDIT_CARD \/
  placeholder = REDACTED_SSN ->
  emailFreeb r = true -> emailFreeb (placeholder ++ r) = true.
Proof.
  intros [-> | [-> | ->]] Hr.
  - change (REDACTED_EMAIL ++ r)
      with (chars "<REDACTED: EMAIL" ++ ">"%char :: r).
    apply emailFreeb_sep; [reflexivity|reflexivity|exact Hr].
  - change (REDACTED_CREDIT_CARD ++ r)
      with (chars "<REDACTED: CREDIT_CARD" ++ ">"%char :: r).
    apply emailFreeb_sep; [reflexivity|reflexivity|exact Hr].
  - change (REDACTED_SSN ++ r)
      with (chars "<REDACTED: SSN" ++ ">"%char :: r).
    apply emailFreeb_sep; [reflexivity|reflexivity|exact Hr].
Qed.

Lemma emailScan_skip (k : nat) (s : list ascii) :
  emailScan k s = emailScan 0 (skipn k s).
Proof.
  revert k; induction s as [|c s IH]; intros [|k]; try reflexivity.
  cbn [emailScan skipn]. apply IH.
Qed.

Lemma emailScan_resumes (s : list ascii) : resumes s (emailScan 0 s).
Proof.
  induction s as [|c s IH]; [left; reflexivity|].
  cbn [emailScan]. destruct (matchEmailAt (c :: s)) as [n|].
  - right. exists [], (c :: s). eexists. split; reflexivity.
  - destruct IH as [-> | (w & rest & o' & Hs & ->)]; [left; reflexivity|].
    right. exists (c :: w), rest, o'. rewrite Hs at 1. split; reflexivity.
Qed.

(** The email pass leaves no email match behind. *)
Lemma emailScan_free (s : list ascii) : emailFreeb (emailScan 0 s) = true.
Proof.
  remember (List.length s) as n eqn:Hn.
  assert (Hle : List.length s <= n) by lia. clear Hn.
  revert s Hle; induction n as [|n IH]; intros [|c s] Hle;
    try reflexivity; cbn [List.length] in Hle; [lia|].
  cbn [emailScan]. destruct (matchEmailAt (c :: s)) as [k|] eqn:Hm.
  - apply emailFreeb_placeholder; [left; reflexivity|].
    rewrite emailScan_skip. apply IH.
    pose proof (length_skipn (pred k) s). lia.
  - apply emailFreeb_cons. split.
    + apply (@matchEmailAt_resumes [c] s _ (emailScan_resumes s) Hm).
    + apply IH. lia.
Qed.

Lemma emailFreeb_scan (s : list ascii) :
  emailFreeb s = true -> emailScan 0 s = s.
Proof.
  induction s as [|c s IH]; [reflexivity|].
  intros H. apply emailFreeb_cons in H as [Hm H].
  cbn [emailScan]. rewrite Hm, IH by exact H. reflexivity.
Qed.

(** The digit passes create no email match. *)
Lemma scanRuns_resumes (run s : list ascii) :
  resumes (run ++ s) (scanRuns digitSel run s).
Proof.
  assert (Hflush : forall r, flushRun digitSel r = r \/
                             exists t, flushRun digitSel r = "<"%char :: t).
  { intros [|a r]; [left; reflexivity|]. cbn [flushRun].
    destruct (digitSel (a :: r)) as [placeholder|] eqn:Hsel;
      [|left; reflexivity].
    right. destruct (digitSel_placeholder _ Hsel) as [-> | ->];
      eexists; reflexivity. }
  revert run; induction s as [|c s IH]; intros run; cbn [scanRuns].
  - rewrite app_nil_r. destruct (Hflush run) as [-> | [t ->]].
    + left; reflexivity.
    + right. exists [], run, t. split; reflexivity.
  - destruct (isDigit c).
    + replace (run ++ c :: s) with ((run ++ [c]) ++ s)
        by (rewrite <- app_assoc; reflexivity).
      apply IH.
    + destruct (Hflush run) as [-> | [t ->]].
      * destruct (IH []) as [-> | (w & rest & o' & Hs & ->)];
          [left; reflexivity|].
        right. exists (run ++ c :: w), rest, o'. cbn [app] in Hs.
        rewrite Hs at 1. rewrite <- !app_assoc. split; reflexivity.
      * right. exists [], (run ++ c :: s). eexists. split; reflexivity.
Qed.

Lemma scanRuns_emailFree (s run : list ascii) :
  emailFreeb (run ++ s) = true ->
  emailFreeb (scanRuns digitSel run s) = true.
Proof.
  revert run; induction s as [|c s IH]; intros run H; cbn [scanRuns].
  - rewrite app_nil_r in H. destruct run as [|a run]; [reflexivity|].
    cbn [flushRun]. destruct (digitSel (a :: run)) as [placeholder|] eqn:Hsel;
      [|exact H].
    rewrite <- (app_nil_r placeholder). apply emailFreeb_placeholder.
    + right. exact (digitSel_placeholder _ Hsel).
    + reflexivity.
  - destruct (isDigit c).
    + apply IH. rewrite <- app_assoc. exact H.
    + assert (Hs : emailFreeb (scanRuns digitSel [] s) = true).
      { apply IH. cbn [app].
        apply (emailFreeb_suffix (run ++ [c])).
        rewrite <- app_assoc. exact H. }
      assert (Hkeep : emailFreeb (run ++ c :: scanRuns digitSel [] s) = true).
      { replace (run ++ c :: scanRuns digitSel [] s)
          with ((run ++ [c]) ++ scanRuns digitSel [] s)
          by (rewrite <- app_assoc; reflexivity).
        apply (@emailFreeb_app_resumes (run ++ [c]) s _ (scanRuns_resumes [] s) Hs).
        rewrite <- app_assoc. exact H. }
      destruct run as [|a run]; [exact Hkeep|].
      cbn [flushRun].
      destruct (digitSel (a :: run)) as [placeholder|] eqn:Hsel;
        [|exact Hkeep].
      apply emailFreeb_placeholder.
      * right. exact (digitSel_placeholder _ Hsel).
      * apply (emailFreeb_suffix (a :: run)). exact Hkeep.
Qed.

(** The three passes find nothing to do in their own output. *)
Lemma redact_idempotent (s : list ascii) : redact (redact s) = redact s.
Proof.
  unfold redact. fold (redactDigits (redactEmails s)).
  assert (Hfree : emailFreeb (redactDigits (redactEmails s)) = true).
  { rewrite redactDigits_scan. apply scanRuns_emailFree.
    cbn [app]. apply emailScan_free. }
  unfold redactEmails at 1. rewrite (emailFreeb_scan _ Hfree).
  destruct (redactDigits_stable (redactEmails s)) as [Hc Hs].
  rewrite Hc. exact Hs.
Qed.

(** *** The detectors find only what the patterns describe *)

Lemma lastTld_sound (d : list ascii) (n : nat) :
  lastTld d = Some n ->
  exists x t rest,
    d = x ++ "."%char :: t ++ rest /\
    2 <= List.length t /\ forallb isLetter t = true.
Proof.
  revert n; induction d as [|c d IH]; intros n; cbn [lastTld].
  - discriminate.
  - destruct (lastTld d) as [m|].
    + intros _. destruct (IH m eq_refl) as (x & t & rest & -> & Ht).
      exists (c :: x), t, rest. split; [reflexivity|exact Ht].
    + destruct (Ascii.eqb c ".") eqn:Hc; cbn [andb]; [|discriminate].
      destruct (2 <=? List.length (takeWhile isLetter d)) eqn:Hlen;
        [|discriminate].
      intros _. apply Ascii.eqb_eq in Hc. subst c.
      exists [], (takeWhile isLetter d), (dropWhile isLetter d).
      cbn [app]. rewrite takeWhile_dropWhile.
      repeat split; [apply Nat.leb_le, Hlen|apply takeWhile_forallb].
Qed.

Lemma matchEmailAt_sound (s : list ascii) (n : nat) :
  matchEmailAt s = Some n ->
  exists w post, s = w ++ post /\ emailPattern w.
Proof.
  unfold matchEmailAt.
  pose proof (takeWhile_dropWhile isLocalChar s) as Hs.
  pose proof (takeWhile_forallb isLocalChar s) as Hl.
  destruct (takeWhile isLocalChar s) as [|a l]; [discriminate|].
  destruct (dropWhile isLocalChar s) as [|c r]; [discriminate|].
  destruct (Ascii.eqb c "@") eqn:Hc; [|discriminate].
  apply Ascii.eqb_eq in Hc. subst c.
  pose proof (takeWhile_dropWhile isDomainChar r) as Hr.
  pose proof (takeWhile_forallb isDomainChar r) as Hd.
  destruct (takeWhile isDomainChar r) as [|b d]; [discriminate|].
  cbn [matchDomain].
  destruct (lastTld d) as [m|] eqn:Hm; [|discriminate].
  intros _. destruct (lastTld_sound _ Hm) as (x & t & rest & -> & Hlen & Ht).
  remember (dropWhile isDomainChar r) as tail eqn:Htail. clear Htail.
  exists ((a :: l) ++ "@"%char :: (b :: x) ++ "."%char :: t), (rest ++ tail).
  split.
  - rewrite <- Hs, <- Hr. cbn [app]. rewrite <- !app_assoc. cbn [app].
    rewrite <- !app_assoc. reflexivity.
  - exists (a :: l), (b :: x), t.
    repeat split; try assumption; try discriminate.
    cbn [forallb] in Hd |- *. apply andb_true_iff in Hd as [Hb Hd].
    rewrite forallb_app in Hd. apply andb_true_iff in Hd as [Hx _].
    rewrite Hb, Hx. reflexivity.
Qed.

Lemma emailFreeb_of_no_pattern (s : list ascii) :
  ~ containsEmail s -> emailFreeb s = true.
Proof.
  intros Hno.
  assert (Hgen : forall u v, s = u ++ v -> emailFreeb v = true).
  { intros u v; revert u; induction v as [|c v IH]; intros u Hs;
      [reflexivity|].
    apply emailFreeb_cons. split.
    - destruct (matchEmailAt (c :: v)) as [n|] eqn:Hm; [exfalso|reflexivity].
      destruct (matchEmailAt_sound _ Hm) as (w & post & Hv & Hw).
      apply Hno. exists u, w, post. rewrite <- Hv. split; assumption.
    - apply (IH (u ++ [c])). rewrite <- app_assoc. exact Hs. }
  apply (Hgen [] s). reflexivity.
Qed.

Lemma containsEmail_at (s : list ascii) :
  containsEmail s -> existsb (Ascii.eqb "@") s = true.
Proof.
  intros (pre & w & post & -> & l & x & t & -> & _).
  rewrite !existsb_app. cbn [existsb]. rewrite Ascii.eqb_refl.
  cbn [orb]. rewrite !orb_true_r. reflexivity.
Qed.

Lemma containsRun_digit (len : nat -> bool) (s : list ascii) :
  containsRun len s -> existsb isDigit s = true.
Proof.
  intros (pre & run & post & -> & (Hne & Hd & _) & _).
  destruct run as [|c run]; [contradiction|].
  cbn [forallb] in Hd. apply andb_true_iff in Hd as [Hc _].
  rewrite !existsb_app. cbn [existsb]. rewrite Hc.
  cbn [orb]. rewrite orb_true_r. reflexivity.
Qed.

Lemma sanitize_string (m : string) :
  sanitize (JsString m) = string_of_list_ascii (redact (chars m)).
Proof.
  destruct m; reflexivity.
Qed.

(** What the digit passes do with a bounded run of digits. *)
Lemma redactDigits_run (pre run post : list ascii) :
  isRunAt pre run post ->
  redactDigits (pre ++ run ++ post) =
  redactDigits pre ++ flushRun digitSel run ++ redactDigits post.
Proof.
  intros H. rewrite !redactDigits_scan. apply scanRuns_run, H.
Qed.

(** *** The digit runs of a message *)

(** The digit passes, on what the email pass hands them.  Take a run of
    digits of the message as the email pass leaves it, bounded on each
    side by a non-digit or by the edge of the string.  If it has exactly
    9 digits, it is replaced by
    the SSN placeholder; if it has 8 or 10 digits, or has 13 to 19 digits
    and fails the Luhn checksum, it is kept as it is; in each case what is
    before the run and what is after it are redacted on their own.  And a
    message that holds no email, no bounded run of 13 to 19 digits and no
    bounded run of 9 digits is returned as it is. *)
Theorem digit_runs_after_email_pass :
  (forall (m : string) (pre run post : list ascii),
      redactEmails (chars m) = pre ++ run ++ post ->
      isRunAt pre run post ->
      (List.length run = 9 ->
       sanitize (JsString m) =
       string_of_list_ascii
         (redactDigits pre ++ REDACTED_SSN ++ redactDigits post)) /\
      (List.length run = 8 \/ List.length run = 10 ->
       sanitize (JsString m) =
       string_of_list_ascii (redactDigits pre ++ run ++ redactDigits post)) /\
      (13 <= List.length run <= 19 -> luhnValid run = false ->
       sanitize (JsString m) =
       string_of_list_ascii (redactDigits pre ++ run ++ redactDigits post))) /\
  (forall m : string,
      ~ containsEmail (chars m) ->
      ~ containsRun isCardLength (chars m) ->
      ~ containsRun isSsnLength (chars m) ->
      sanitize (JsString m) = m).
Proof.
  split.
  - intros m pre run post He Hrun.
    assert (Hout : sanitize (JsString m) =
                   string_of_list_ascii
                     (redactDigits pre ++ flushRun digitSel run
                      ++ redactDigits post)).
    { rewrite sanitize_string. unfold redact.
      fold (redactDigits (redactEmails (chars m))).
      rewrite He, redactDigits_run by exact Hrun. reflexivity. }
    assert (Hflush : forall r, digitSel run = r ->
                flushRun digitSel run = match r with
                                        | Some placeholder => placeholder
                                        | None => run
                                        end).
    { intros r <-. destruct Hrun as (Hne & _).
      destruct run; [contradiction|reflexivity]. }
    repeat split.
    + intros Hlen. rewrite Hout, (Hflush (Some REDACTED_SSN)); [reflexivity|].
      unfold digitSel, seqSel, cardSel, ssnSel. rewrite Hlen. reflexivity.
    + intros Hlen. rewrite Hout, (Hflush None); [reflexivity|].
      unfold digitSel, seqSel, cardSel, ssnSel.
      destruct Hlen as [-> | ->]; reflexivity.
    + intros Hlen Hluhn. rewrite Hout, (Hflush None); [reflexivity|].
      unfold digitSel, seqSel, cardSel, ssnSel. rewrite Hluhn, andb_false_r.
      unfold isSsnLength.
      destruct (Nat.eqb_spec (List.length run) 9); [lia|reflexivity].
  - intros m Hemail Hcard Hssn.
    rewrite sanitize_string. unfold redact, redactEmails.
    rewrite (emailFreeb_scan _ (emailFreeb_of_no_pattern Hemail)).
    assert (Hc : redactCards (chars m) = chars m).
    { unfold redactCards. apply (@scanRuns_unchanged cardSel (chars m) [] []);
        [|reflexivity|reflexivity].
      intros pre' r post' Hs Hr. unfold cardSel.
      destruct (isCardLength (List.length r)) eqn:Hlen; [|reflexivity].
      exfalso. apply Hcard. exists pre', r, post'.
      repeat split; try apply Hr; assumption. }
    assert (Hs : redactSSN (chars m) = chars m).
    { unfold redactSSN. apply (@scanRuns_unchanged ssnSel (chars m) [] []);
        [|reflexivity|reflexivity].
      intros pre' r post' Hs Hr. unfold ssnSel.
      destruct (isSsnLength (List.length r)) eqn:Hlen; [|reflexivity].
      exfalso. apply Hssn. exists pre', r, post'.
      repeat split; try apply Hr; assumption. }
    rewrite Hc, Hs. apply string_of_list_ascii_of_string.
Qed.

(** Two messages of the test-suite: the nine-digit run of
    ['My SSN is 123456789 please keep it safe.'] is replaced, and
    ['No social security numbers here, just text.'] comes back as it
    is. *)
Lemma digit_runs_after_email_pass_examples :
  sanitize (JsString "My SSN is 123456789 please keep it safe.") =
    "My SSN is <REDACTED: SSN> please keep it safe."%string /\
  sanitize (JsString "No social security numbers here, just text.") =
    "No social security numbers here, just text."%string.
Proof.
  split.
  - refine (proj1 (proj1 digit_runs_after_email_pass
                     "My SSN is 123456789 please keep it safe."%string
                     (chars "My SSN is ") (chars "123456789")
                     (chars " please keep it safe.") _ _) _).
    + vm_compute. reflexivity.
    + repeat split. discriminate.
    + reflexivity.
  - apply (proj2 digit_runs_after_email_pass).
    + intros H. apply containsEmail_at in H. vm_compute in H. discriminate H.
    + intros H. apply containsRun_digit in H. vm_compute in H. discriminate H.
    + intros H. apply containsRun_digit in H. vm_compute in H. discriminate H.
Defined.

(** A nine-digit run bounded by the start of the message and by ['@'] is
    the local part of an email: the email pass, which runs first, replaces
    the whole address, and the output holds no SSN placeholder.  An
    eight-digit local part is not left as it is either. *)
Lemma digits_in_email_local_part :
  chars "123456789@example.com" =
    [] ++ chars "123456789" ++ chars "@example.com" /\
  isRunAt [] (chars "123456789") (chars "@example.com") /\
  List.length (chars "123456789") = 9 /\
  sanitize (JsString "123456789@example.com") = "<REDACTED: EMAIL>"%string /\
  ~ (exists a b,
        chars (sanitize (JsString "123456789@example.com")) =
        a ++ REDACTED_SSN ++ b) /\
  isRunAt [] (chars "12345678") (chars "@example.com") /\
  sanitize (JsString "12345678@example.com") = "<REDACTED: EMAIL>"%string.
Proof.
  repeat apply conj; try reflexivity; try discriminate.
  intros (a & b & H).
  assert (HS : existsb (Ascii.eqb "S")
                 (chars (sanitize (JsString "123456789@example.com")))
               = true).
  { rewrite H, !existsb_app. replace (existsb (Ascii.eqb "S") REDACTED_SSN)
      with true by reflexivity.
    rewrite orb_true_r. reflexivity. }
  vm_compute in HS. discriminate HS.
Qed.

(** *** Idempotence *)

Lemma scanRuns_placeholder (sel : selector) (c : ascii)
    (t pre post : list ascii) :
  isDigit c = false -> hasNoDigit t = true ->
  scanRuns sel [] (pre ++ (c :: t) ++ post) =
  scanRuns sel [] pre ++ (c :: t) ++ scanRuns sel [] post.
Proof.
  intros Hc Ht. cbn [app].
  rewrite scanRuns_nondigit by exact Hc.
  rewrite scanRuns_text by exact Ht. reflexivity.
Qed.

Lemma emailScan_text (w : list ascii) (c : ascii) (r : list ascii) :
  emailFreeb w = true -> isEmailChar c = false ->
  emailScan 0 (w ++ c :: r) = w ++ c :: emailScan 0 r.
Proof.
  intros Hw Hc. induction w as [|a w IH]; cbn [app emailScan].
  - replace (matchEmailAt (c :: r)) with (@None nat)
      by (symmetry; exact (@matchEmailAt_sep [] c r Hc)).
    reflexivity.
  - apply emailFreeb_cons in Hw as [Hm Hw].
    replace (matchEmailAt (a :: w ++ c :: r)) with (@None nat)
      by (rewrite <- Hm; symmetry; exact (@matchEmailAt_sep (a :: w) c r Hc)).
    rewrite IH by exact Hw. reflexivity.
Qed.

Lemma redactEmails_placeholder (placeholder r : list ascii) :
  In placeholder placeholders ->
  redactEmails (placeholder ++ r) = placeholder ++ redactEmails r.
Proof.
  unfold redactEmails.
  intros [<- | [<- | [<- | []]]].
  - change (REDACTED_EMAIL ++ r)
      with (chars "<REDACTED: EMAIL" ++ ">"%char :: r).
    rewrite emailScan_text by reflexivity. reflexivity.
  - change (REDACTED_CREDIT_CARD ++ r)
      with (chars "<REDACTED: CREDIT_CARD" ++ ">"%char :: r).
    rewrite emailScan_text by reflexivity. reflexivity.
  - change (REDACTED_SSN ++ r)
      with (chars "<REDACTED: SSN" ++ ">"%char :: r).
    rewrite emailScan_text by reflexivity. reflexivity.
Qed.

(** C5. Sanitizing a sanitized message changes nothing, for every
    message.  And each placeholder is inert: a pass over the runs of
    digits, with any selector, copies a placeholder and scans what is
    before it and what is after it on their own; the email pass copies a
    placeholder at the head of a string and scans on after it; the three
    passes return a placeholder as it is. *)
Theorem C5_sanitize_idempotent :
  (forall m : string,
      sanitize (JsString (sanitize (JsString m))) = sanitize (JsString m)) /\
  Forall
    (fun placeholder =>
       (forall (sel : selector) (pre post : list ascii),
           scanRuns sel [] (pre ++ placeholder ++ post) =
           scanRuns sel [] pre ++ placeholder ++ scanRuns sel [] post) /\
       (forall r : list ascii,
           redactEmails (placeholder ++ r) = placeholder ++ redactEmails r) /\
       redact placeholder = placeholder)
    placeholders.
Proof.
  split.
  - intros m. rewrite !sanitize_string. unfold chars at 1.
    rewrite list_ascii_of_string_of_list_ascii, redact_idempotent.
    reflexivity.
  - unfold placeholders.
    repeat apply Forall_cons; [| | |apply Forall_nil];
      (split; [intros sel pre post; apply scanRuns_placeholder; reflexivity|]);
      (split; [intros r; apply redactEmails_placeholder|reflexivity]).
    + left; reflexivity.
    + right; left; reflexivity.
    + right; right; left; reflexivity.
Qed.

(** *** The expectations of the test-suite and of the spec's scenarios *)

Example sanitize_test_suite :
  map (fun m => sanitize (JsString m))
    ["Contact me at john.doe@example.com for details.";
     "Send to alice@test.org and bob.smith@company.co.uk please.";
     "This message has no email addresses at all.";
     "My SSN is 123456789 please keep it safe.";
     "This number 12345678 has only 8 digits.";
     "This number 1234567890 has 10 digits.";
     "My card number is 4532015112830366 thanks.";
     "Random digits: 1234567890123456 not a real card.";
     "4532015112830366";
     "1234567890123456";
     "Short card: 4222222222222 here.";
     "Email: user@domain.com and SSN: 987654321 both here.";
     "Contact jane@mail.com, card 4532015112830366, SSN 111222333.";
     "Contact me at john@example.com please";
     "Email user@test.com SSN 123456789";
     ""]%string
  = ["Contact me at <REDACTED: EMAIL> for details.";
     "Send to <REDACTED: EMAIL> and <REDACTED: EMAIL> please.";
     "This message has no email addresses at all.";
     "My SSN is <REDACTED: SSN> please keep it safe.";
     "This number 12345678 has only 8 digits.";
     "This number 1234567890 has 10 digits.";
     "My card number is <REDACTED: CREDIT_CARD> thanks.";
     "Random digits: 1234567890123456 not a real card.";
     "<REDACTED: CREDIT_CARD>";
     "1234567890123456";
     "Short card: <REDACTED: CREDIT_CARD> here.";
     "Email: <REDACTED: EMAIL> and SSN: <REDACTED: SSN> both here.";
     "Contact <REDACTED: EMAIL>, card <REDACTED: CREDIT_CARD>, SSN <REDACTED: SSN>.";
     "Contact me at <REDACTED: EMAIL> please";
     "Email <REDACTED: EMAIL> SSN <REDACTED: SSN>";
     ""]%string.
Proof. vm_compute. reflexivity. Qed.

End SanitizerProperties.

(* ===================================================================== *)
(** ** Further properties of the failure gate *)
(* ===================================================================== *)

Section GateHistory.

Import CircuitBreaker GateOps.
Local Open Scope Z_scope.

Lemma run_app (ops1 ops2 : list op) (s : state) :
  run (ops1 ++ ops2) s = run ops2 (run ops1 s).
Proof.
  revert s; induction ops1 as [|o ops1 IH]; intros s; [reflexivity|].
  cbn [app run]. apply IH.
Qed.

Lemma run_without_clearing (ops : list op) (s : state) :
  existsb isClearingOp ops = false ->
  failureCount (run ops s)
  = failureCount s + Z.of_nat (List.length (filter isFailureOp ops)).
Proof.
  revert s; induction ops as [|o ops IH]; intros s Hno.
  - cbn. lia.
  - cbn [existsb] in Hno. apply orb_false_iff in Hno as [Ho Hno].
    cbn [run filter]. rewrite IH by exact Hno.
    destruct o; try discriminate Ho; cbn; lia.
Qed.

(** The counter holds the number of failures recorded since the last
    [recordSuccess] or [reset]: what happened before that call, and the
    state the sequence started from, play no role; the queries in between
    play no role either.  So the gate is open exactly when three failures
    or more were recorded since. *)
Theorem gate_counts_failures_since_last_clear :
  forall (before after : list op) (clear : op) (s : state),
    isClearingOp clear = true ->
    existsb isClearingOp after = false ->
    failureCount (run (before ++ clear :: after) s)
    = Z.of_nat (List.length (filter isFailureOp after)) /\
    fst (isOpen (run (before ++ clear :: after) s))
    = (3 <=? List.length (filter isFailureOp after))%nat.
Proof.
  intros before after clear s Hclear Hafter.
  assert (Hcount : failureCount (run (before ++ clear :: after) s)
                   = Z.of_nat (List.length (filter isFailureOp after))).
  { rewrite run_app. cbn [run].
    rewrite run_without_clearing by exact Hafter.
    destruct clear; try discriminate Hclear; cbn; lia. }
  split; [exact Hcount|].
  rewrite isOpen_spec, Hcount.
  destruct (Nat.leb_spec 3 (List.length (filter isFailureOp after)));
    [apply Z.leb_le|apply Z.leb_gt]; lia.
Qed.

Lemma gate_counts_failures_since_last_clear_witness :
  failureCount
    (run ([OpRecordFailure; OpRecordFailure; OpRecordFailure; OpIsOpen]
          ++ OpRecordSuccess
          :: [OpRecordFailure; OpIsOpen; OpRecordFailure; OpGetFailureCount])
       initial) = 2.
Proof.
  exact (proj1 (gate_counts_failures_since_last_clear
                  [OpRecordFailure; OpRecordFailure; OpRecordFailure; OpIsOpen]
                  [OpRecordFailure; OpIsOpen; OpRecordFailure;
                   OpGetFailureCount]
                  OpRecordSuccess initial eq_refl eq_refl)).
Defined.

End GateHistory.

(* ===================================================================== *)
(** ** Further properties of the orchestrating flow *)
(* ===================================================================== *)

Section FlowFurther.

Import SecureInquiry.

Ltac run_flow' :=
  unfold handle, executeSecureInquiry, bind, try_catch, invoke, attempt,
    readClock, ret, throw; cbn [fst snd app].

Ltac run_fallible :=
  unfold Fallible.handle, Fallible.executeSecureInquiry, handle,
    executeSecureInquiry, bind, try_catch, invoke, attempt, readClock, ret,
    throw; cbn [fst snd app].

(** With a gate and a sanitizer that return, the flow whose collaborators
    may all throw is the flow of [SecureInquiry]. *)
Lemma handle_lift (W E : Type) (d : dependencies W E)
    (clock : W -> string * W) (userId message : string) (w : W) :
  Fallible.handle (Fallible.lift d) clock userId message w
  = handle d clock userId message w.
Proof.
  run_fallible. unfold Fallible.lift, Fallible.returning.
  cbn [Fallible.circuitBreaker_isOpen Fallible.sanitizer_sanitize
       Fallible.aiPort_generateAnswer Fallible.circuitBreaker_recordSuccess
       Fallible.circuitBreaker_recordFailure Fallible.cryptoUtil_encrypt
       Fallible.auditDbPort_saveAudit].
  destruct (circuitBreaker_isOpen d w) as [open w1]; cbn [fst snd app].
  destruct open; [reflexivity|]. cbn [fst snd app].
  destruct (sanitizer_sanitize d message w1) as [sm w2]; cbn [fst snd app].
  destruct (aiPort_generateAnswer d sm w2) as [[e|a] w3]; cbn [fst snd app].
  - destruct (circuitBreaker_recordFailure d w3) as [[] w4]. reflexivity.
  - destruct (circuitBreaker_recordSuccess d w3) as [[] w4]. reflexivity.
Qed.



(** When the gate is closed and every collaborator succeeds, the flow
    resolves with the generation service's answer after six calls in this
    order: [isOpen], [sanitize] on the message as received,
    [generateAnswer] on the sanitizer's output, [recordSuccess],
    [encrypt] on the message as received, [saveAudit].  The audit entry
    holds the user id, the clock's timestamp, the encryption of the
    original message and the sanitizer's output. *)
Theorem flow_success_path :
  forall (W E : Type) (deps : dependencies W E) (clock : W -> string * W)
         (userId message : string) (w : W) (a enc : string),
    let w1 := snd (circuitBreaker_isOpen deps w) in
    let sm := fst (sanitizer_sanitize deps message w1) in
    let w2 := snd (sanitizer_sanitize deps message w1) in
    let w3 := snd (aiPort_generateAnswer deps sm w2) in
    let w4 := snd (circuitBreaker_recordSuccess deps w3) in
    let ts := fst (clock w4) in
    let w5 := snd (clock w4) in
    let w6 := snd (cryptoUtil_encrypt deps message w5) in
    let entry := {| userId := userId; timestamp := ts;
                    originalMessageEncrypted := enc;
                    sanitizedMessage := sm |} in
    fst (circuitBreaker_isOpen deps w) = false ->
    fst (aiPort_generateAnswer deps sm w2) = inr a ->
    fst (cryptoUtil_encrypt deps message w5) = inr enc ->
    fst (auditDbPort_saveAudit deps entry w6) = inr tt ->
    handle deps clock userId message w
    = (Returned {| answer := a |},
       (snd (auditDbPort_saveAudit deps entry w6),
        [CallIsOpen; CallSanitize message; CallGenerateAnswer sm;
         CallRecordSuccess; CallEncrypt message; CallSaveAudit entry])).
Proof.
  intros W E deps clock userId message w a enc.
  cbv zeta. run_flow'.
  destruct (circuitBreaker_isOpen deps w) as [open w1]; cbn [fst snd].
  intros ->. cbn [fst snd app].
  destruct (sanitizer_sanitize deps message w1) as [sm w2]; cbn [fst snd app].
  destruct (aiPort_generateAnswer deps sm w2) as [res w3]; cbn [fst snd app].
  intros ->. cbn [fst snd app].
  destruct (circuitBreaker_recordSuccess deps w3) as [[] w4].
  cbn [fst snd app].
  destruct (clock w4) as [ts w5]; cbn [fst snd app].
  destruct (cryptoUtil_encrypt deps message w5) as [res w6];
    cbn [fst snd app].
  intros ->. cbn [fst snd app].
  match goal with
  | |- context [auditDbPort_saveAudit deps ?en w6] =>
      destruct (auditDbPort_saveAudit deps en w6) as [res w7]
  end; cbn [fst snd app].
  intros ->. reflexivity.
Qed.

(** The success path on the mocks of the test-suite. *)
Lemma flow_success_path_witness :
  handle (mockDependencies false (inr "Generated Answer"%string) (inr tt))
    mockClock "user1" "hello" tt
  = (Returned {| answer := "Generated Answer" |},
     (tt,
      [CallIsOpen; CallSanitize "hello"; CallGenerateAnswer "sanitized:hello";
       CallRecordSuccess; CallEncrypt "hello";
       CallSaveAudit
         {| userId := "user1"; timestamp := "2026-01-01T00:00:00.000Z";
            originalMessageEncrypted := "encrypted:hello";
            sanitizedMessage := "sanitized:hello" |}])).
Proof.
  exact (flow_success_path
           (mockDependencies false (inr "Generated Answer"%string) (inr tt))
           mockClock "user1" "hello" tt
           (a := "Generated Answer"%string) (enc := "encrypted:hello"%string)
           eq_refl eq_refl eq_refl eq_refl).
Defined.

End FlowFurther.

(* ===================================================================== *)
(** ** Properties of the HTTP route *)
(* ===================================================================== *)

Section RouteProperties.

Import Sanitizer SecureInquiry Route.

Lemma dropWhile_nil_iff (p : ascii -> bool) (l : list ascii) :
  dropWhile p l = [] <-> forallb p l = true.
Proof.
  induction l as [|c l IH]; cbn [dropWhile forallb].
  - split; reflexivity.
  - destruct (p c); cbn [andb]; [exact IH|].
    split; discriminate.
Qed.

Lemma dropWhile_forallb (p : ascii -> bool) (l : list ascii) :
  forallb p (dropWhile p l) = forallb p l.
Proof.
  induction l as [|c l IH]; [reflexivity|].
  cbn [dropWhile]. destruct (p c) eqn:Hc.
  - cbn [forallb]. rewrite Hc. exact IH.
  - reflexivity.
Qed.

Lemma forallb_rev (p : ascii -> bool) (l : list ascii) :
  forallb p (rev l) = forallb p l.
Proof.
  induction l as [|c l IH]; [reflexivity|].
  cbn [rev forallb]. rewrite forallb_app, IH. cbn [forallb].
  rewrite andb_true_r. apply andb_comm.
Qed.

(** [s.trim() === ''] exactly when [s] holds white space only. *)
Lemma trim_empty_iff (s : string) :
  trim s = EmptyString <-> forallb isWhiteSpace (chars s) = true.
Proof.
  unfold trim, chars.
  set (l := list_ascii_of_string s).
  rewrite <- (dropWhile_forallb isWhiteSpace l).
  rewrite <- (forallb_rev isWhiteSpace (dropWhile isWhiteSpace l)).
  rewrite <- dropWhile_nil_iff.
  set (d := dropWhile isWhiteSpace (rev (dropWhile isWhiteSpace l))).
  split.
  - intros H.
    assert (Hd : list_ascii_of_string (string_of_list_ascii (rev d)) = [])
      by (rewrite H; reflexivity).
    rewrite list_ascii_of_string_of_list_ascii in Hd.
    apply (f_equal (@rev ascii)) in Hd. rewrite rev_involutive in Hd.
    exact Hd.
  - intros ->. reflexivity.
Qed.

Lemma trim_eqb (s : string) :
  String.eqb (trim s) EmptyString = forallb isWhiteSpace (chars s).
Proof.
  destruct (forallb isWhiteSpace (chars s)) eqn:H.
  - apply String.eqb_eq, trim_empty_iff, H.
  - apply String.eqb_neq. intros Ht. apply trim_empty_iff in Ht. congruence.
Qed.

Lemma validateRequest_valid_inv (body : jsValue) :
  valid (validateRequest body) = true ->
  exists u m,
    getProp body "userId" = JsString u /\
    getProp body "message" = JsString m /\
    forallb isWhiteSpace (chars u) = false /\
    forallb isWhiteSpace (chars m) = false.
Proof.
  unfold validateRequest, invalid.
  destruct (falsy body); [discriminate|]. cbv zeta.
  destruct (getProp body "userId") as [| | | |u| |]; try discriminate.
  rewrite trim_eqb.
  destruct (forallb isWhiteSpace (chars u)) eqn:Hwu; [discriminate|].
  destruct (getProp body "message") as [| | | |m| |]; try discriminate.
  rewrite trim_eqb.
  destruct (forallb isWhiteSpace (chars m)) eqn:Hwm; [discriminate|].
  intros _. exists u, m. repeat split; assumption.
Qed.


Section HandlerProperties.

Variable W : Type.
Variable E : Type.
Variable errorIsCircuitOpen : E -> bool.
Variable errorMessage : E -> string.
Variable deps : dependencies W E.
Variable clock : W -> string * W.

Let post := postSecureInquiry errorIsCircuitOpen errorMessage deps clock.

Lemma post_invalid (body : jsValue) (w : W) :
  valid (validateRequest body) = false ->
  post body w
  = {| sent := {| status := 400;
                  json := ErrorBody (error (validateRequest body)) |};
       consoleError := None; world := w; calls := [] |}.
Proof.
  intros H. unfold post, postSecureInquiry. rewrite H. reflexivity.
Qed.

Lemma post_valid (body : jsValue) (w : W) :
  valid (validateRequest body) = true ->
  exists u m,
    getProp body "userId" = JsString u /\
    getProp body "message" = JsString m /\
    forallb isWhiteSpace (chars u) = false /\
    forallb isWhiteSpace (chars m) = false /\
    post body w
    = match handle deps clock u m w with
      | (Returned result, st) =>
          {| sent := {| status := 200; json := AnswerBody (answer result) |};
             consoleError := None; world := fst st; calls := snd st |}
      | (Threw t, st) =>
          if isCircuitOpenError errorIsCircuitOpen t then
            {| sent := {| status := 503;
                          json := ErrorBody (Some "Service Busy"%string) |};
               consoleError := None; world := fst st; calls := snd st |}
          else
            {| sent := {| status := 500;
                          json := ErrorBody
                                    (Some "Internal server error"%string) |};
               consoleError :=
                 match t with
                 | ThrowCircuitOpen e => Some (SecureInquiry.message e)
                 | ThrowError e => Some (errorMessage e)
                 end;
               world := fst st; calls := snd st |}
      end.
Proof.
  intros H.
  destruct (validateRequest_valid_inv body H)
    as (u & m & Hu & Hm & Hwu & Hwm).
  exists u, m. repeat split; try assumption.
  unfold post, postSecureInquiry. rewrite H, Hu, Hm. reflexivity.
Qed.

End HandlerProperties.

(** *** The route on the real gate *)

Section WiredRoute.

Variable X : Type.
Variable E : Type.
Variable errorIsCircuitOpen : E -> bool.
Variable errorMessage : E -> string.
Variable d : dependencies X E.
Variable clock : X -> string * X.

Let postW :=
  postSecureInquiry errorIsCircuitOpen errorMessage (wired d) (onRest clock).
Let serveW :=
  serve errorIsCircuitOpen errorMessage (wired d) (onRest clock).

Ltac run_wired :=
  unfold handle, executeSecureInquiry, bind, try_catch, invoke, attempt,
    readClock, ret, throw, wired, onGate, onRest;
  cbn [fst snd app
       sanitizer_sanitize circuitBreaker_isOpen circuitBreaker_recordFailure
       circuitBreaker_recordSuccess aiPort_generateAnswer
       auditDbPort_saveAudit cryptoUtil_encrypt
       CircuitBreaker.isOpen CircuitBreaker.recordSuccess
       CircuitBreaker.recordFailure].

Lemma gate_test (g : CircuitBreaker.state) :
  (CircuitBreaker.failureCount g >=? CircuitBreaker.FAILURE_THRESHOLD)%Z
  = (3 <=? CircuitBreaker.failureCount g)%Z.
Proof. apply Z.geb_leb. Qed.

Lemma handle_wired_open (u m : string) (g : CircuitBreaker.state) (x : X) :
  (3 <= CircuitBreaker.failureCount g)%Z ->
  handle (wired d) (onRest clock) u m (g, x)
  = (Threw (ThrowCircuitOpen new_CircuitOpenError), ((g, x), [CallIsOpen])).
Proof.
  intros Hopen. run_wired. rewrite gate_test.
  rewrite (proj2 (Z.leb_le _ _) Hopen). reflexivity.
Qed.

Lemma handle_wired_rejected (u m : string) (g : CircuitBreaker.state)
    (x : X) (e : E) :
  (CircuitBreaker.failureCount g < 3)%Z ->
  fst (aiPort_generateAnswer d (fst (sanitizer_sanitize d m x))
         (snd (sanitizer_sanitize d m x))) = inl e ->
  handle (wired d) (onRest clock) u m (g, x)
  = (Threw (ThrowError e),
     (({| CircuitBreaker.failureCount := CircuitBreaker.failureCount g + 1 |},
       snd (aiPort_generateAnswer d (fst (sanitizer_sanitize d m x))
              (snd (sanitizer_sanitize d m x)))),
      [CallIsOpen; CallSanitize m;
       CallGenerateAnswer (fst (sanitizer_sanitize d m x));
       CallRecordFailure])).
Proof.
  intros Hclosed. run_wired. rewrite gate_test.
  rewrite (proj2 (Z.leb_gt _ _) Hclosed). cbn [fst snd app].
  destruct (sanitizer_sanitize d m x) as [sm x1]; cbn [fst snd app].
  destruct (aiPort_generateAnswer d sm x1) as [res x2]; cbn [fst snd app].
  intros ->. reflexivity.
Qed.

Lemma handle_wired_resolved (u m : string) (g : CircuitBreaker.state)
    (x : X) (a : string) :
  (CircuitBreaker.failureCount g < 3)%Z ->
  fst (aiPort_generateAnswer d (fst (sanitizer_sanitize d m x))
         (snd (sanitizer_sanitize d m x))) = inr a ->
  let r := handle (wired d) (onRest clock) u m (g, x) in
  fst (fst (snd r)) = {| CircuitBreaker.failureCount := 0 |} /\
  timesCalled KRecordFailure (snd (snd r)) = 0 /\
  timesCalled KGenerateAnswer (snd (snd r)) = 1.
Proof.
  intros Hclosed. cbv zeta. run_wired. rewrite gate_test.
  rewrite (proj2 (Z.leb_gt _ _) Hclosed). cbn [fst snd app].
  destruct (sanitizer_sanitize d m x) as [sm x1]; cbn [fst snd app].
  destruct (aiPort_generateAnswer d sm x1) as [res x2]; cbn [fst snd app].
  intros ->. cbn [fst snd app].
  destruct (clock x2) as [ts x3]; cbn [fst snd app].
  destruct (cryptoUtil_encrypt d m x3) as [[e|enc] x4]; cbn [fst snd app];
    [repeat split|].
  match goal with
  | |- context [auditDbPort_saveAudit d ?en x4] =>
      destruct (auditDbPort_saveAudit d en x4) as [[e|[]] x5]
  end; cbn [fst snd app]; repeat split.
Qed.

Lemma post_world (body : jsValue) (w : CircuitBreaker.state * X) :
  valid (validateRequest body) = true ->
  exists u m,
    getProp body "userId" = JsString u /\
    getProp body "message" = JsString m /\
    world (postW body w)
    = fst (snd (handle (wired d) (onRest clock) u m w)) /\
    calls (postW body w)
    = snd (snd (handle (wired d) (onRest clock) u m w)) /\
    status (sent (postW body w))
    = match fst (handle (wired d) (onRest clock) u m w) with
      | Returned _ => 200
      | Threw t => if isCircuitOpenError errorIsCircuitOpen t
                   then 503 else 500
      end /\
    consoleError (postW body w)
    = match fst (handle (wired d) (onRest clock) u m w) with
      | Returned _ => None
      | Threw t => if isCircuitOpenError errorIsCircuitOpen t then None
                   else match t with
                        | ThrowCircuitOpen e => Some (SecureInquiry.message e)
                        | ThrowError e => Some (errorMessage e)
                        end
      end.
Proof.
  intros Hv.
  destruct (post_valid errorIsCircuitOpen errorMessage (wired d)
              (onRest clock) body w Hv)
    as (u & m & Hu & Hm & _ & _ & Hpost).
  exists u, m. unfold postW. rewrite Hpost.
  destruct (handle (wired d) (onRest clock) u m w) as [[result|t] st];
    cbn [fst snd];
    [|destruct (isCircuitOpenError errorIsCircuitOpen t)];
    cbn [fst snd sent status world calls consoleError];
    repeat apply conj; first [assumption | reflexivity].
Qed.

(** With the real gate open, a request is answered 400 or 503, calls no
    collaborator and leaves the world, counter included, as it was: no
    sequence of requests closes an open gate. *)
Theorem route_open_gate_stays_open :
  forall (bodies : list jsValue) (g : CircuitBreaker.state) (x : X),
    (3 <= CircuitBreaker.failureCount g)%Z ->
    snd (serveW bodies (g, x)) = (g, x) /\
    Forall (fun h =>
              (status (sent h) = 400 \/ status (sent h) = 503) /\
              world h = (g, x) /\
              (calls h = [] \/ calls h = [CallIsOpen]))
           (fst (serveW bodies (g, x))).
Proof.
  intros bodies g x Hopen. unfold serveW.
  induction bodies as [|body bodies [IHw IHh]]; cbn [serve fst snd].
  - split; [reflexivity|constructor].
  - fold postW.
    assert (Hh : (status (sent (postW body (g, x))) = 400 \/
                  status (sent (postW body (g, x))) = 503) /\
                 world (postW body (g, x)) = (g, x) /\
                 (calls (postW body (g, x)) = [] \/
                  calls (postW body (g, x)) = [CallIsOpen])).
    { destruct (valid (validateRequest body)) eqn:Hv.
      - destruct (post_world body (g, x) Hv)
          as (u & m & _ & _ & Hw & Hc & Hs & _).
        rewrite Hw, Hc, Hs, (@handle_wired_open u m g x Hopen).
        cbn. auto.
      - unfold postW.
        rewrite (post_invalid errorIsCircuitOpen errorMessage (wired d)
                   (onRest clock) body (g, x) Hv).
        cbn. auto. }
    destruct Hh as (Hs & Hw & Hc). rewrite Hw.
    destruct (serve errorIsCircuitOpen errorMessage (wired d) (onRest clock)
                bodies (g, x)) as [hs w'].
    cbn [fst snd] in *. split; [exact IHw|].
    constructor; [|exact IHh]. repeat split; assumption.
Qed.

Lemma list_sum_head (a : nat) (l : list nat) :
  list_sum (a :: l) = a + list_sum l.
Proof. reflexivity. Qed.

(** Requests that do not overlap: each is answered before the next
    arrives.  A generation service that rejects every call, with an
    [Error] object whose [isCircuitOpen] is falsy, then opens the gate
    and is left alone afterwards.  Serving [n] accepted requests from a counter [c] (at
    most 3), the first [3 - c] are answered 500 and the others 503; the
    service is called [min n (3 - c)] times and the counter ends at
    [min 3 (c + n)].  Requests in flight together, which have all read
    [isOpen] before a failure of theirs is recorded, are outside this
    statement. *)
Theorem route_failing_service_opens_gate :
  (forall sm x, exists e,
      fst (aiPort_generateAnswer d sm x) = inl e /\
      errorIsCircuitOpen e = false) ->
  forall (bodies : list jsValue) (g : CircuitBreaker.state) (x : X),
    Forall (fun body => valid (validateRequest body) = true) bodies ->
    (0 <= CircuitBreaker.failureCount g <= 3)%Z ->
    let n := List.length bodies in
    let k := Z.to_nat (3 - CircuitBreaker.failureCount g) in
    let r := serveW bodies (g, x) in
    map (fun h => status (sent h)) (fst r)
    = repeat 500 (Nat.min n k) ++ repeat 503 (n - k) /\
    list_sum (map (fun h => timesCalled KGenerateAnswer (calls h)) (fst r))
    = Nat.min n k /\
    CircuitBreaker.failureCount (fst (snd r))
    = Z.min 3 (CircuitBreaker.failureCount g + Z.of_nat n).
Proof.
  intros Hfail bodies. unfold serveW.
  induction bodies as [|body bodies IH]; intros g x Hvalid Hg; cbv zeta.
  - cbn [serve fst snd map List.length Nat.min Nat.sub repeat app list_sum].
    repeat split. lia.
  - inversion Hvalid as [|? ? Hv Hrest]; subst.
    cbn [serve]. fold postW.
    destruct (post_world body (g, x) Hv)
      as (u & m & _ & _ & Hw & Hc & Hs & _).
    destruct (Z_lt_le_dec (CircuitBreaker.failureCount g) 3) as [Hlt|Hge].
    + destruct (Hfail (fst (sanitizer_sanitize d m x))
                  (snd (sanitizer_sanitize d m x))) as (e & He & Hflag).
      rewrite (@handle_wired_rejected u m g x e Hlt He) in Hw, Hc, Hs.
      cbn [fst snd isCircuitOpenError] in Hw, Hc, Hs. rewrite Hflag in Hs.
      rewrite Hw.
      match goal with
      | |- context [serve _ _ _ _ bodies (?g', ?x')] =>
          specialize (IH g' x' Hrest); cbv zeta in IH;
          destruct (serve errorIsCircuitOpen errorMessage (wired d)
                      (onRest clock) bodies (g', x')) as [hs w']
      end.
      cbn [fst snd CircuitBreaker.failureCount] in IH |- *.
      destruct IH as (IHs & IHc & IHf); [lia|].
      cbn [map List.length]. rewrite list_sum_head, Hs, Hc, IHs, IHc, IHf.
      replace (Z.to_nat (3 - CircuitBreaker.failureCount g))
        with (S (Z.to_nat (3 - (CircuitBreaker.failureCount g + 1))))
        by lia.
      cbn [Nat.min Nat.sub repeat app]. repeat apply conj; first [reflexivity | cbn; lia | lia].
    + rewrite (@handle_wired_open u m g x Hge) in Hw, Hc, Hs.
      cbn [fst snd isCircuitOpenError] in Hw, Hc, Hs.
      rewrite Hw.
      specialize (IH g x Hrest Hg). cbv zeta in IH.
      destruct (serve errorIsCircuitOpen errorMessage (wired d)
                  (onRest clock) bodies (g, x)) as [hs w'].
      cbn [fst snd] in IH |- *.
      destruct IH as (IHs & IHc & IHf).
      cbn [map List.length]. rewrite list_sum_head, Hs, Hc, IHs, IHc, IHf.
      replace (Z.to_nat (3 - CircuitBreaker.failureCount g)) with 0 by lia.
      rewrite !Nat.min_0_r, !Nat.sub_0_r.
      cbn [repeat app]. repeat apply conj; first [reflexivity | cbn; lia | lia].
Qed.

(** With a generation service that resolves every call, as the mock
    adapter does, [recordFailure] is never called: served from a closed
    gate, every request leaves the gate closed, and every accepted request
    reaches the service, once. *)
Theorem route_resolving_service_keeps_gate_closed :
  (forall sm x, exists a, fst (aiPort_generateAnswer d sm x) = inr a) ->
  forall (bodies : list jsValue) (g : CircuitBreaker.state) (x : X),
    (CircuitBreaker.failureCount g < 3)%Z ->
    let r := serveW bodies (g, x) in
    (CircuitBreaker.failureCount (fst (snd r)) < 3)%Z /\
    Forall (fun h =>
              timesCalled KRecordFailure (calls h) = 0 /\
              (CircuitBreaker.failureCount (fst (world h)) < 3)%Z /\
              timesCalled KGenerateAnswer (calls h)
              = (if status (sent h) =? 400 then 0 else 1))
           (fst r).
Proof.
  intros Hok bodies. unfold serveW.
  induction bodies as [|body bodies IH]; intros g x Hg; cbv zeta.
  - cbn [serve fst snd]. split; [exact Hg|constructor].
  - cbn [serve]. fold postW.
    assert (Hh : timesCalled KRecordFailure (calls (postW body (g, x))) = 0 /\
                 (CircuitBreaker.failureCount
                    (fst (world (postW body (g, x)))) < 3)%Z /\
                 timesCalled KGenerateAnswer (calls (postW body (g, x)))
                 = (if status (sent (postW body (g, x))) =? 400
                    then 0 else 1)).
    { destruct (valid (validateRequest body)) eqn:Hv.
      - destruct (post_world body (g, x) Hv)
          as (u & m & _ & _ & Hw & Hc & Hs & _).
        destruct (Hok (fst (sanitizer_sanitize d m x))
                    (snd (sanitizer_sanitize d m x))) as (a & Ha).
        destruct (@handle_wired_resolved u m g x a Hg Ha) as (Hgate & Hrf & Hga).
        rewrite Hw, Hc, Hs, Hgate, Hrf, Hga.
        split; [reflexivity|]. split; [cbn; lia|].
        destruct (fst (handle (wired d) (onRest clock) u m (g, x)))
          as [res|t]; [reflexivity|].
        destruct (isCircuitOpenError errorIsCircuitOpen t); reflexivity.
      - unfold postW.
        rewrite (post_invalid errorIsCircuitOpen errorMessage (wired d)
                   (onRest clock) body (g, x) Hv).
        cbn [calls world sent status fst].
        split; [reflexivity|]. split; [exact Hg|reflexivity]. }
    destruct Hh as (Hrf & Hlt & Hga).
    destruct (world (postW body (g, x))) as [g' x'] eqn:Hw.
    cbn [fst] in Hlt.
    specialize (IH g' x' Hlt). cbv zeta in IH.
    destruct (serve errorIsCircuitOpen errorMessage (wired d) (onRest clock)
                bodies (g', x')) as [hs w'].
    cbn [fst snd] in IH |- *. destruct IH as [IHf IHh].
    split; [exact IHf|]. constructor; [|exact IHh].
    rewrite Hw. cbn [fst]. repeat split; assumption.
Qed.

End WiredRoute.

Lemma route_failing_service_opens_gate_witness :
  map (fun h => status (sent h))
    (fst (serve (fun _ : string => false) (fun e => e)
            (wired (mockDependencies false
                      (inl "AI service unavailable"%string) (inr tt)))
            (onRest mockClock)
            (repeat (JsObject [("userId"%string, JsString "u");
                               ("message"%string, JsString "hello")]) 5)
            (CircuitBreaker.initial, tt)))
  = [500; 500; 500; 503; 503].
Proof.
  assert (Hfail : forall (sm : string) (x : unit), exists e,
             fst (aiPort_generateAnswer
                    (mockDependencies false
                       (inl "AI service unavailable"%string) (inr tt)) sm x)
             = inl e /\ (fun _ : string => false) e = false)
    by (intros sm x; eexists; split; reflexivity).
  assert (H0 : (0 <= CircuitBreaker.failureCount CircuitBreaker.initial
                <= 3)%Z) by (cbn; lia).
  assert (Hv : Forall (fun body => valid (validateRequest body) = true)
                 (repeat (JsObject [("userId"%string, JsString "u");
                                    ("message"%string, JsString "hello")]) 5))
    by (repeat constructor).
  exact (proj1 (@route_failing_service_opens_gate unit string
                  (fun _ : string => false) (fun e => e)
                  (mockDependencies false
                     (inl "AI service unavailable"%string) (inr tt))
                  mockClock Hfail _ CircuitBreaker.initial tt Hv H0)).
Defined.

Lemma route_resolving_service_keeps_gate_closed_witness :
  (CircuitBreaker.failureCount
     (fst (snd (serve (fun _ : string => false) (fun e => e)
                  (wired (MockAI.withMockAI
                            (mockDependencies false (inl "unused"%string)
                               (inr tt))))
                  (onRest mockClock)
                  [JsObject [("userId"%string, JsString "u");
                             ("message"%string, JsString "hello")];
                   JsUndefined]
                  (CircuitBreaker.failures 2 CircuitBreaker.initial, tt))))
   < 3)%Z.
Proof.
  assert (Hok : forall (sm : string) (x : unit), exists a,
             fst (aiPort_generateAnswer
                    (MockAI.withMockAI
                       (mockDependencies false (inl "unused"%string)
                          (inr tt))) sm x) = inr a)
    by (intros sm x; eexists; reflexivity).
  assert (Hlt : (CircuitBreaker.failureCount
                   (CircuitBreaker.failures 2 CircuitBreaker.initial) < 3)%Z)
    by (cbn; lia).
  exact (proj1 (@route_resolving_service_keeps_gate_closed unit string
                  (fun _ : string => false) (fun e => e)
                  (MockAI.withMockAI
                     (mockDependencies false (inl "unused"%string) (inr tt)))
                  mockClock Hok
                  [JsObject [("userId"%string, JsString "u");
                             ("message"%string, JsString "hello")];
                   JsUndefined]
                  (CircuitBreaker.failures 2 CircuitBreaker.initial)
                  tt Hlt)).
Defined.

Lemma route_open_gate_stays_open_witness :
  snd (serve (fun _ : string => false) (fun e => e)
         (wired (mockDependencies false (inr "Generated Answer"%string)
                   (inr tt)))
         (onRest mockClock)
         [JsObject [("userId"%string, JsString "u");
                    ("message"%string, JsString "hello")];
          JsNull]
         (CircuitBreaker.failures 3 CircuitBreaker.initial, tt))
  = (CircuitBreaker.failures 3 CircuitBreaker.initial, tt).
Proof.
  assert (H3 : (3 <= CircuitBreaker.failureCount
                       (CircuitBreaker.failures 3 CircuitBreaker.initial))%Z)
    by (cbn; lia).
  exact (proj1 (route_open_gate_stays_open (fun _ : string => false)
                  (fun e => e)
                  (mockDependencies false (inr "Generated Answer"%string)
                     (inr tt))
                  mockClock
                  [JsObject [("userId"%string, JsString "u");
                             ("message"%string, JsString "hello")];
                   JsNull]
                  (CircuitBreaker.failures 3 CircuitBreaker.initial) tt H3)).
Defined.

End RouteProperties.

(* ===================================================================== *)
(** ** The handler on whatever is thrown *)
(* ===================================================================== *)

Section FallibleRoute.

Import Sanitizer SecureInquiry Route.

Section AnyCollaborators.

Variable W : Type.
Variable E : Type.
Variable errorIsCircuitOpen : E -> option bool.
Variable errorMessage : E -> option string.
Variable deps : Fallible.dependencies W E.
Variable clock : W -> string * W.

Let post :=
  Fallible.postSecureInquiry errorIsCircuitOpen errorMessage deps clock.


End AnyCollaborators.

(** When every read on a thrown value succeeds and the gate and the
    sanitizer return, the handler is the handler of [Route]. *)
Lemma post_lift (W E : Type) (isOpenOf : E -> bool) (messageOf : E -> string)
    (d : dependencies W E) (clock : W -> string * W) (body : jsValue)
    (w : W) :
  let h := postSecureInquiry isOpenOf messageOf d clock body w in
  Fallible.postSecureInquiry (fun e => Some (isOpenOf e))
    (fun e => Some (messageOf e)) (Fallible.lift d) clock body w
  = {| Fallible.sent := Some (sent h);
       Fallible.consoleError := consoleError h;
       Fallible.world := world h;
       Fallible.calls := calls h |}.
Proof.
  cbv zeta. unfold Fallible.postSecureInquiry, postSecureInquiry.
  destruct (valid (validateRequest body)); cbn [negb]; [|reflexivity].
  rewrite handle_lift.
  destruct (handle d clock (stringOf (getProp body "userId"))
              (stringOf (getProp body "message")) w) as [[result|t] st];
    [reflexivity|].
  destruct t as [ce|e];
    cbn [Fallible.isCircuitOpenError Fallible.messageOf isCircuitOpenError];
    [reflexivity|].
  destruct (isOpenOf e); reflexivity.
Qed.

Section RealGate.

Variable X : Type.
Variable E : Type.
Variable errorIsCircuitOpen : E -> option bool.
Variable errorMessage : E -> option string.
Variable d : dependencies X E.
Variable clock : X -> string * X.

Let postF :=
  Fallible.postSecureInquiry errorIsCircuitOpen errorMessage
    (Fallible.lift (wired d)) (onRest clock).

(** A request served on its own (no other request touches the gate
    meanwhile).  With the real gate closed, when the generation call of an
    accepted request rejects with [e], whatever [e] is: the counter goes
    up by one,
    [recordFailure] is called once and [saveAudit] is not called.  If
    [e.isCircuitOpen] is truthy the client gets the 503 of an open gate
    and nothing is written to the console; if it is falsy the client gets
    a bare 500 and the error's message goes to the console; and if reading
    it throws, as it does when [e] is [null] or [undefined] (or if reading
    [e.message] throws), the handler sends no response and writes
    nothing. *)
Theorem route_generation_failure :
  forall (body : jsValue) (g : CircuitBreaker.state) (x : X) (e : E),
    valid (validateRequest body) = true ->
    (CircuitBreaker.failureCount g < 3)%Z ->
    (let m := stringOf (getProp body "message") in
     fst (aiPort_generateAnswer d (fst (sanitizer_sanitize d m x))
            (snd (sanitizer_sanitize d m x))) = inl e) ->
    let h := postF body (g, x) in
    Fallible.sent h
    = match errorIsCircuitOpen e with
      | None => None
      | Some true =>
          Some {| status := 503;
                  json := ErrorBody (Some "Service Busy"%string) |}
      | Some false =>
          match errorMessage e with
          | None => None
          | Some _ =>
              Some {| status := 500;
                      json := ErrorBody
                                (Some "Internal server error"%string) |}
          end
      end /\
    Fallible.consoleError h
    = match errorIsCircuitOpen e with
      | Some false => errorMessage e
      | _ => None
      end /\
    CircuitBreaker.failureCount (fst (Fallible.world h))
    = (CircuitBreaker.failureCount g + 1)%Z /\
    timesCalled KRecordFailure (Fallible.calls h) = 1 /\
    timesCalled KSaveAudit (Fallible.calls h) = 0.
Proof.
  intros body g x e Hv Hclosed Hgen h. subst h.
  destruct (validateRequest_valid_inv body Hv)
    as (u & m & Hu & Hm & _ & _).
  rewrite Hm in Hgen. cbn [stringOf] in Hgen.
  unfold postF, Fallible.postSecureInquiry.
  rewrite Hv, Hu, Hm. cbn [negb stringOf].
  rewrite handle_lift.
  rewrite (@handle_wired_rejected X E d clock u m g x e Hclosed Hgen).
  cbn [Fallible.isCircuitOpenError Fallible.messageOf].
  destruct (errorIsCircuitOpen e) as [[|]|];
    [| destruct (errorMessage e) |]; cbn; repeat split.
Qed.

End RealGate.


(** The same service behind the real gate: no response, and the failure
    is counted. *)
Lemma route_generation_failure_witness :
  let h :=
    Fallible.postSecureInquiry Fallible.readIsCircuitOpen
      Fallible.readMessage
      (Fallible.lift (wired Fallible.rejectingWithUndefined))
      (onRest mockClock)
      (JsObject [("userId"%string, JsString "user1");
                 ("message"%string, JsString "hello")])
      (CircuitBreaker.initial, tt) in
  Fallible.sent h = None /\
  CircuitBreaker.failureCount (fst (Fallible.world h)) = 1%Z.
Proof.
  assert (Hlt : (CircuitBreaker.failureCount CircuitBreaker.initial < 3)%Z)
    by (cbn; lia).
  pose proof (@route_generation_failure unit (option string)
                Fallible.readIsCircuitOpen Fallible.readMessage
                Fallible.rejectingWithUndefined mockClock
                (JsObject [("userId"%string, JsString "user1");
                           ("message"%string, JsString "hello")])
                CircuitBreaker.initial tt None eq_refl Hlt eq_refl) as H.
  cbv zeta in H. destruct H as (Hsent & _ & Hcount & _).
  exact (conj Hsent Hcount).
Defined.

End FallibleRoute.

(* ===================================================================== *)
(** ** Properties of the validation on code units *)
(* ===================================================================== *)

Section Utf16Properties.

Import Sanitizer Utf16.

Lemma isWhiteSpace_iff (c : N) :
  isWhiteSpace c = true <-> In c whiteSpaceCodes.
Proof.
  split.
  - unfold isWhiteSpace. rewrite !orb_true_iff, !andb_true_iff.
    rewrite !N.leb_le, !N.eqb_eq. unfold whiteSpaceCodes. cbn [In]. lia.
  - unfold whiteSpaceCodes. cbn [In]. intros H.
    repeat (destruct H as [<-|H]; [reflexivity|]). contradiction.
Qed.

Lemma units_dropWhile_nil_iff (p : N -> bool) (l : codeUnits) :
  dropWhile p l = [] <-> forallb p l = true.
Proof.
  induction l as [|c l IH]; cbn [dropWhile forallb].
  - split; reflexivity.
  - destruct (p c); cbn [andb]; [exact IH|].
    split; discriminate.
Qed.

Lemma units_dropWhile_forallb (p : N -> bool) (l : codeUnits) :
  forallb p (dropWhile p l) = forallb p l.
Proof.
  induction l as [|c l IH]; [reflexivity|].
  cbn [dropWhile]. destruct (p c) eqn:Hc.
  - cbn [forallb]. rewrite Hc. exact IH.
  - reflexivity.
Qed.

Lemma units_forallb_rev (p : N -> bool) (l : codeUnits) :
  forallb p (rev l) = forallb p l.
Proof.
  induction l as [|c l IH]; [reflexivity|].
  cbn [rev forallb]. rewrite forallb_app, IH. cbn [forallb].
  rewrite andb_true_r. apply andb_comm.
Qed.

(** [s.trim() === ''] exactly when every code unit of [s] is white
    space. *)
Lemma units_trim_nil_iff (s : codeUnits) :
  trim s = [] <-> forallb isWhiteSpace s = true.
Proof.
  unfold trim.
  rewrite <- (units_dropWhile_forallb isWhiteSpace s).
  rewrite <- (units_forallb_rev isWhiteSpace (dropWhile isWhiteSpace s)).
  rewrite <- units_dropWhile_nil_iff.
  split.
  - intros H. apply (f_equal (@rev N)) in H.
    rewrite rev_involutive in H. exact H.
  - intros ->. reflexivity.
Qed.

Lemma not_blank_iff (s : codeUnits) :
  trim s <> [] <-> exists c, In c s /\ ~ In c whiteSpaceCodes.
Proof.
  rewrite units_trim_nil_iff. split.
  - intros H. induction s as [|c s IH]; [destruct H; reflexivity|].
    cbn [forallb] in H. destruct (isWhiteSpace c) eqn:Hc.
    + destruct (IH H) as (c' & Hin & Hws).
      exists c'. split; [right; exact Hin|exact Hws].
    + exists c. split; [left; reflexivity|].
      intros Hin. apply isWhiteSpace_iff in Hin. congruence.
  - intros (c & Hin & Hws) Hall.
    rewrite forallb_forall in Hall. apply Hws, isWhiteSpace_iff, Hall, Hin.
Qed.

Lemma sameUnits_iff (a b : codeUnits) : sameUnits a b = true <-> a = b.
Proof.
  revert b; induction a as [|x a IH]; intros [|y b]; cbn [sameUnits];
    try (split; [discriminate|discriminate]); [split; reflexivity|].
  rewrite andb_true_iff, N.eqb_eq, IH.
  split; [intros [-> ->]; reflexivity|intros [= -> ->]; split; reflexivity].
Qed.

Lemma lookupField_none (fields : list (codeUnits * value)) (key : codeUnits) :
  lookupField fields key = None <-> ~ In key (map fst fields).
Proof.
  induction fields as [|[k v] rest IH]; cbn [lookupField map fst In].
  - tauto.
  - destruct (lookupField rest key) as [later|].
    + split; [discriminate|]. intros H. exfalso.
      assert (Hn : ~ In key (map fst rest)) by tauto.
      apply IH in Hn. discriminate Hn.
    + destruct (sameUnits k key) eqn:Hk.
      * apply sameUnits_iff in Hk. split; [discriminate|]. tauto.
      * split; [|reflexivity]. intros _ [Heq|Hin].
        -- apply sameUnits_iff in Heq. congruence.
        -- apply (proj1 IH); [reflexivity|exact Hin].
Qed.

(** A lookup finds the last field of the key. *)
Lemma lookupField_hasField (fields : list (codeUnits * value))
    (key : codeUnits) (v : value) :
  lookupField fields key = Some v <-> hasField fields key v.
Proof.
  unfold hasField. induction fields as [|[k x] rest IH]; cbn [lookupField].
  - split; [discriminate|]. intros ([|] & after & H & _); discriminate H.
  - destruct (lookupField rest key) as [later|] eqn:Hrest.
    + split.
      * intros [= <-]. destruct (proj1 IH eq_refl) as (b & a & -> & Hn).
        exists ((k, x) :: b), a. split; [reflexivity|exact Hn].
      * intros ([|b0 before] & after & H & Hn); cbn [app] in H.
        -- inversion H; subst; clear H.
           apply lookupField_none in Hn. congruence.
        -- inversion H; subst; clear H.
           apply IH. exists before, after. split; [reflexivity|exact Hn].
    + destruct (sameUnits k key) eqn:Hk.
      * apply sameUnits_iff in Hk. subst k. split.
        -- intros [= <-]. exists [], rest. split; [reflexivity|].
           apply lookupField_none, Hrest.
        -- intros ([|b0 before] & after & H & Hn); cbn [app] in H.
           ++ inversion H; subst; clear H. reflexivity.
           ++ inversion H; subst; clear H. exfalso.
              apply lookupField_none in Hrest. apply Hrest.
              rewrite map_app. apply in_or_app. right. left. reflexivity.
      * split; [discriminate|].
        intros ([|b0 before] & after & H & Hn); cbn [app] in H.
        -- inversion H; subst; clear H.
           assert (Hkk : sameUnits key key = true)
             by (apply sameUnits_iff; reflexivity).
           congruence.
        -- inversion H; subst; clear H. exfalso.
           apply lookupField_none in Hrest. apply Hrest.
           rewrite map_app. apply in_or_app. right. left. reflexivity.
Qed.

Lemma getProp_string_iff (body : value) (key : string) (s : codeUnits) :
  getProp body key = VString s <->
  exists fields, body = VObject fields /\
                 hasField fields (unitsOf key) (VString s).
Proof.
  unfold getProp. destruct body as [| | | | |items|fields];
    try (split; [discriminate|intros (f & H & _); discriminate H]).
  destruct (lookupField fields (unitsOf key)) as [x|] eqn:Hl.
  - split.
    + intros ->. exists fields. split; [reflexivity|].
      apply lookupField_hasField, Hl.
    + intros (f & [= <-] & Hf). apply lookupField_hasField in Hf. congruence.
  - split; [discriminate|].
    intros (f & [= <-] & Hf). apply lookupField_hasField in Hf. congruence.
Qed.

(** With strings as sequences of UTF-16 code units: [validateRequest]
    accepts a body exactly when the body is an object whose last [userId]
    field and whose last [message] field are strings that each hold a
    code unit outside the 25 code points [trim] strips.  An accepted body
    gets no message, a rejected one gets one of seven fixed messages. *)
Theorem validateRequest_accepts_iff :
  forall body : value,
    (Route.valid (validateRequest body) = true <->
     exists fields u m,
       body = VObject fields /\
       hasField fields (unitsOf "userId") (VString u) /\
       hasField fields (unitsOf "message") (VString m) /\
       (exists c, In c u /\ ~ In c whiteSpaceCodes) /\
       (exists c, In c m /\ ~ In c whiteSpaceCodes)) /\
    (Route.valid (validateRequest body) = true ->
     Route.error (validateRequest body) = None) /\
    (Route.valid (validateRequest body) = false ->
     exists msg, Route.error (validateRequest body) = Some msg /\
                 In msg Route.validationErrors).
Proof.
  intros body.
  assert (Hshape :
    (exists fields u m,
       body = VObject fields /\
       hasField fields (unitsOf "userId") (VString u) /\
       hasField fields (unitsOf "message") (VString m) /\
       (exists c, In c u /\ ~ In c whiteSpaceCodes) /\
       (exists c, In c m /\ ~ In c whiteSpaceCodes)) <->
    (exists u m,
       getProp body "userId" = VString u /\
       getProp body "message" = VString m /\
       trim u <> [] /\ trim m <> [])).
  { split.
    - intros (fields & u & m & -> & Hu & Hm & Hcu & Hcm).
      exists u, m. repeat split.
      + apply getProp_string_iff. exists fields. split; [reflexivity|exact Hu].
      + apply getProp_string_iff. exists fields. split; [reflexivity|exact Hm].
      + apply not_blank_iff, Hcu.
      + apply not_blank_iff, Hcm.
    - intros (u & m & Hu & Hm & Htu & Htm).
      apply getProp_string_iff in Hu as (fields & -> & Hu).
      apply getProp_string_iff in Hm as (fields' & [= <-] & Hm).
      exists fields, u, m. repeat split; try assumption.
      + apply not_blank_iff, Htu.
      + apply not_blank_iff, Htm. }
  rewrite Hshape. clear Hshape.
  assert (Hfalsy : falsy body = true -> getProp body "userId" = VUndefined).
  { destruct body; try reflexivity; discriminate. }
  unfold validateRequest, Route.invalid.
  destruct (falsy body) eqn:Hf.
  { cbn [Route.valid Route.error]. repeat split; try discriminate.
    - intros (u & m & Hu & _). rewrite Hfalsy in Hu by reflexivity.
      discriminate Hu.
    - intros _. eexists. split; [reflexivity|]. cbn. tauto. }
  cbv zeta.
  destruct (getProp body "userId") as [| | | |u| |] eqn:Hu;
    cbn [Route.valid Route.error];
    try (repeat split; try discriminate;
         [intros (u' & m' & Hu' & _); discriminate Hu'
         |intros _; eexists; split; [reflexivity|cbn; tauto]]).
  destruct (trim u) as [|cu tu] eqn:Htu; cbn [Route.valid Route.error].
  { repeat split; try discriminate.
    - intros (u' & m' & [= <-] & _ & Hw & _). congruence.
    - intros _. eexists. split; [reflexivity|]. cbn. tauto. }
  destruct (getProp body "message") as [| | | |m| |] eqn:Hm;
    cbn [Route.valid Route.error];
    try (repeat split; try discriminate;
         [intros (u' & m' & _ & Hm' & _); discriminate Hm'
         |intros _; eexists; split; [reflexivity|cbn; tauto]]).
  destruct (trim m) as [|cm tm] eqn:Htm; cbn [Route.valid Route.error].
  { repeat split; try discriminate.
    - intros (u' & m' & _ & [= <-] & _ & Hw). congruence.
    - intros _. eexists. split; [reflexivity|]. cbn. tauto. }
  repeat split; try discriminate.
  intros _. exists u, m. repeat split; congruence.
Qed.

(** A [userId] that holds an em space (U+2003) only is rejected, and a
    body with two strings that are not blank is accepted. *)
Lemma validateRequest_accepts_iff_witness :
  (exists msg,
      Route.error
        (validateRequest
           (VObject [(unitsOf "userId", VString [8195%N]);
                     (unitsOf "message", VString (unitsOf "hello"))]))
      = Some msg /\ In msg Route.validationErrors) /\
  Route.valid
    (validateRequest
       (VObject [(unitsOf "userId", VString (unitsOf "user1"));
                 (unitsOf "message", VString (unitsOf "hello"))]))
  = true.
Proof.
  split.
  - exact (proj2 (proj2 (validateRequest_accepts_iff
                           (VObject [(unitsOf "userId", VString [8195%N]);
                                     (unitsOf "message",
                                      VString (unitsOf "hello"))])))
             eq_refl).
  - apply (proj1 (validateRequest_accepts_iff _)).
    exists [(unitsOf "userId", VString (unitsOf "user1"));
            (unitsOf "message", VString (unitsOf "hello"))],
           (unitsOf "user1"), (unitsOf "hello").
    split; [reflexivity|]. split.
    { exists [], [(unitsOf "message", VString (unitsOf "hello"))].
      split; [reflexivity|]. cbn. intros [H|[]]. discriminate H. }
    split.
    { exists [(unitsOf "userId", VString (unitsOf "user1"))], [].
      split; [reflexivity|]. intros []. }
    split.
    { exists 117%N. split; [left; reflexivity|].
      intros H; apply isWhiteSpace_iff in H; discriminate H. }
    exists 104%N. split; [left; reflexivity|].
    intros H; apply isWhiteSpace_iff in H; discriminate H.
Defined.

(** *** Bodies whose strings hold characters below 256 only *)

Lemma isWhiteSpace_latin1 (c : ascii) :
  isWhiteSpace (N.of_nat (code c)) = Route.isWhiteSpace c.
Proof.
  destruct c as [[] [] [] [] [] [] [] []]; reflexivity.
Qed.

Lemma blank_latin1 (s : string) :
  forallb isWhiteSpace (unitsOf s) = forallb Route.isWhiteSpace (chars s).
Proof.
  unfold unitsOf. induction (chars s) as [|c l IH]; [reflexivity|].
  cbn [map forallb]. rewrite isWhiteSpace_latin1, IH. reflexivity.
Qed.

Lemma trim_latin1 (A : Type) (s : string) (a b : A) :
  match trim (unitsOf s) with [] => a | _ :: _ => b end
  = if String.eqb (Route.trim s) EmptyString then a else b.
Proof.
  rewrite trim_eqb, <- blank_latin1.
  destruct (forallb isWhiteSpace (unitsOf s)) eqn:H.
  - apply units_trim_nil_iff in H. rewrite H. reflexivity.
  - destruct (trim (unitsOf s)) eqn:Ht; [|reflexivity].
    apply units_trim_nil_iff in Ht. congruence.
Qed.

Lemma unitsOf_inj (a b : string) : unitsOf a = unitsOf b -> a = b.
Proof.
  unfold unitsOf, chars. intros H.
  rewrite <- (string_of_list_ascii_of_string a),
          <- (string_of_list_ascii_of_string b).
  f_equal. revert H.
  generalize (list_ascii_of_string b).
  induction (list_ascii_of_string a) as [|x l IH]; intros [|y l'] H;
    try discriminate H; [reflexivity|].
  cbn [map] in H. injection H as Hxy Hl.
  apply Nnat.Nat2N.inj in Hxy. unfold code in Hxy.
  rewrite <- (ascii_nat_embedding x), <- (ascii_nat_embedding y), Hxy.
  f_equal. apply IH, Hl.
Qed.

Lemma sameUnits_latin1 (k key : string) :
  sameUnits (unitsOf k) (unitsOf key) = String.eqb k key.
Proof.
  destruct (String.eqb_spec k key) as [->|Hne].
  - apply sameUnits_iff. reflexivity.
  - destruct (sameUnits (unitsOf k) (unitsOf key)) eqn:H; [|reflexivity].
    apply sameUnits_iff, unitsOf_inj in H. contradiction.
Qed.

Lemma lookupField_latin1 (fields : list (string * jsValue)) (key : string) :
  lookupField
    (map (fun kv => (unitsOf (fst kv), ofLatin1 (snd kv))) fields)
    (unitsOf key)
  = option_map ofLatin1 (Route.lookupField fields key).
Proof.
  induction fields as [|[k v] rest IH]; [reflexivity|].
  cbn [map lookupField Route.lookupField fst snd]. rewrite IH.
  destruct (Route.lookupField rest key); cbn [option_map]; [reflexivity|].
  rewrite sameUnits_latin1. destruct (String.eqb k key); reflexivity.
Qed.

Lemma getProp_latin1 (body : jsValue) (key : string) :
  getProp (ofLatin1 body) key = ofLatin1 (Route.getProp body key).
Proof.
  destruct body; try reflexivity.
  cbn [ofLatin1 getProp Route.getProp]. rewrite lookupField_latin1.
  destruct (Route.lookupField fields key); reflexivity.
Qed.

(** On a body whose strings hold characters below 256 only,
    [validateRequest] on code units is the [validateRequest] of [Route]:
    the handlers above, which take such bodies, accept and reject as the
    code does. *)
Lemma validateRequest_latin1 (body : jsValue) :
  validateRequest (ofLatin1 body) = Route.validateRequest body.
Proof.
  unfold validateRequest, Route.validateRequest.
  assert (Hf : falsy (ofLatin1 body) = Route.falsy body).
  { destruct body as [| | | |s| |]; try reflexivity. destruct s; reflexivity. }
  rewrite Hf. destruct (Route.falsy body); [reflexivity|].
  cbv zeta. rewrite !getProp_latin1.
  destruct (Route.getProp body "userId") as [| | | |u| |];
    cbn [ofLatin1]; try reflexivity.
  rewrite trim_latin1.
  destruct (String.eqb (Route.trim u) EmptyString); [reflexivity|].
  destruct (Route.getProp body "message") as [| | | |m| |];
    cbn [ofLatin1]; try reflexivity.
  apply trim_latin1.
Qed.

End Utf16Properties.

(* ===================================================================== *)
(** ** Properties of the encryption utility *)
(* ===================================================================== *)

Section HexProperties.

Import Sanitizer CryptoUtil.

Lemma fromHex_byte (b : ascii) (rest : list ascii) :
  fromHex (hexDigit (code b / 16) :: hexDigit (code b mod 16) :: rest)
  = b :: fromHex rest.
Proof.
  destruct b as [[] [] [] [] [] [] [] []]; reflexivity.
Qed.

Lemma fromHex_toHex (buffer : list ascii) : fromHex (toHex buffer) = buffer.
Proof.
  induction buffer as [|b buffer IH]; [reflexivity|].
  unfold toHex. cbn [flat_map app]. fold (toHex buffer).
  rewrite fromHex_byte, IH. reflexivity.
Qed.

Lemma hexDigit_lower (b : ascii) :
  isLowerHex (hexDigit (code b / 16)) = true /\
  isLowerHex (hexDigit (code b mod 16)) = true.
Proof.
  destruct b as [[] [] [] [] [] [] [] []]; split; reflexivity.
Qed.

Lemma toHex_lower (buffer : list ascii) :
  forallb isLowerHex (toHex buffer) = true.
Proof.
  induction buffer as [|b buffer IH]; [reflexivity|].
  unfold toHex. cbn [flat_map app forallb]. fold (toHex buffer).
  destruct (hexDigit_lower b) as [-> ->]. exact IH.
Qed.

Lemma toHex_length (buffer : list ascii) :
  List.length (toHex buffer) = 2 * List.length buffer.
Proof.
  induction buffer as [|b buffer IH]; [reflexivity|].
  unfold toHex. cbn [flat_map app List.length]. fold (toHex buffer).
  rewrite IH. lia.
Qed.

Lemma isLowerHex_not_colon (c : ascii) :
  isLowerHex c = true -> Ascii.eqb c ":" = false.
Proof.
  destruct c as [[] [] [] [] [] [] [] []]; intros H;
    try reflexivity; discriminate H.
Qed.

Lemma split_cons (sep : ascii) (s : list ascii) :
  exists part parts, split sep s = part :: parts.
Proof.
  destruct s as [|c s]; cbn [split]; [eexists; eexists; reflexivity|].
  destruct (Ascii.eqb c sep); [eexists; eexists; reflexivity|].
  destruct (split sep s); eexists; eexists; reflexivity.
Qed.

Lemma split_length (sep : ascii) (s : list ascii) :
  List.length (split sep s) = S (occurrences sep s).
Proof.
  unfold occurrences. induction s as [|c s IH]; [reflexivity|].
  cbn [split filter]. destruct (Ascii.eqb c sep).
  - cbn [List.length]. rewrite IH. reflexivity.
  - destruct (split_cons sep s) as (part & parts & Hs).
    rewrite Hs in IH |- *. exact IH.
Qed.

Lemma split_none (sep : ascii) (a : list ascii) :
  forallb (fun c => negb (Ascii.eqb c sep)) a = true ->
  split sep a = [a].
Proof.
  induction a as [|c a IH]; [reflexivity|].
  cbn [forallb split]. intros H. apply andb_true_iff in H as [Hc Ha].
  apply negb_true_iff in Hc. rewrite Hc, IH by exact Ha. reflexivity.
Qed.

Lemma split_at (sep : ascii) (a b : list ascii) :
  forallb (fun c => negb (Ascii.eqb c sep)) a = true ->
  split sep (a ++ sep :: b) = a :: split sep b.
Proof.
  induction a as [|c a IH]; cbn [forallb app split].
  - intros _. rewrite Ascii.eqb_refl. reflexivity.
  - intros H. apply andb_true_iff in H as [Hc Ha].
    apply negb_true_iff in Hc. rewrite Hc, IH by exact Ha. reflexivity.
Qed.

Lemma hex_has_no_colon (s : list ascii) :
  forallb isLowerHex s = true ->
  forallb (fun c => negb (Ascii.eqb c ":")) s = true.
Proof.
  induction s as [|c s IH]; [reflexivity|].
  cbn [forallb]. intros H. apply andb_true_iff in H as [Hc Hs].
  rewrite (isLowerHex_not_colon _ Hc), IH by exact Hs. reflexivity.
Qed.

(** The string [encrypt] builds splits at its colon into the two
    hexadecimal strings it was built from. *)
Lemma split_encrypted (iv encrypted : list ascii) :
  split ":" (toHex iv ++ ":"%char :: toHex encrypted)
  = [toHex iv; toHex encrypted].
Proof.
  rewrite split_at by apply hex_has_no_colon, toHex_lower.
  rewrite split_none by apply hex_has_no_colon, toHex_lower.
  reflexivity.
Qed.

End HexProperties.

Section CryptoProperties.

Import Sanitizer CryptoUtil.

Variable L : Type.
Variable sha256 : string -> list ascii.
Variable aesEncrypt : list ascii -> list ascii -> string -> list ascii.
Variable aesDecrypt : list ascii -> list ascii -> list ascii -> L + string.

Lemma string_eqb_chars (l : list ascii) :
  l <> [] -> String.eqb (string_of_list_ascii l) EmptyString = false.
Proof.
  destruct l; [contradiction|reflexivity].
Qed.

(** [decrypt] undoes [encrypt], for every string (the empty one
    included), every key setting under which [encrypt] succeeds and every
    state of the random generator, provided the cipher's decryption undoes
    its encryption under a 16-byte initialisation vector. *)
Theorem decrypt_encrypt_round_trip :
  (forall key iv text,
      List.length iv = 16 ->
      aesDecrypt key iv (toHex (aesEncrypt key iv text)) = inr text) ->
  forall (encryptionKey : option string) (text : string) (r : randomSource)
         (encrypted : string),
    fst (encrypt sha256 aesEncrypt encryptionKey (JsString text) r)
    = inr (A := thrown L) encrypted ->
    decrypt sha256 aesDecrypt encryptionKey (JsString encrypted) = inr text.
Proof.
  intros Hcipher encryptionKey text r encrypted.
  unfold encrypt, decrypt.
  destruct (String.eqb text EmptyString) eqn:Ht.
  { cbn [fst]. intros [= <-]. apply String.eqb_eq in Ht. subst text.
    reflexivity. }
  destruct (getKey (L := L) sha256 encryptionKey) as [e|key]; cbn [fst];
    [discriminate|].
  unfold randomBytes, IV_LENGTH. cbn [fst].
  remember (map (stream r) (seq (position r) 16)) as iv eqn:Hiv.
  assert (Hlen : List.length iv = 16)
    by (rewrite Hiv, length_map, length_seq; reflexivity).
  clear Hiv.
  remember (toHex iv ++ ":"%char :: toHex (aesEncrypt key iv text))
    as out eqn:Hout.
  intros H. assert (Henc : encrypted = string_of_list_ascii out)
    by congruence.
  subst encrypted. clear H.
  rewrite string_eqb_chars
    by (rewrite Hout; destruct (toHex iv); discriminate).
  unfold chars. rewrite list_ascii_of_string_of_list_ascii, Hout.
  rewrite split_encrypted, fromHex_toHex, Hcipher by exact Hlen.
  reflexivity.
Qed.

(** For a string that is not empty and a key that is set, [encrypt]
    returns [iv:ciphertext]: exactly two parts around one colon, both in
    lower-case hexadecimal digits, the first of 32 digits, which decode
    to the next 16 bytes of the random generator, the second of an even
    number of digits; and the generator has moved on by 16 bytes. *)
Theorem encrypt_format :
  forall (encryptionKey : option string) (text : string) (r : randomSource)
         (key : list ascii),
    text <> EmptyString ->
    getKey (L := L) sha256 encryptionKey = inr key ->
    exists encrypted ivHex body,
      encrypt (L := L) sha256 aesEncrypt encryptionKey (JsString text) r
      = (inr encrypted,
         {| stream := stream r; position := position r + 16 |}) /\
      split ":" (chars encrypted) = [ivHex; body] /\
      List.length ivHex = 32 /\
      forallb isLowerHex ivHex = true /\
      forallb isLowerHex body = true /\
      Nat.even (List.length body) = true /\
      fromHex ivHex = map (stream r) (seq (position r) 16).
Proof.
  intros encryptionKey text r key Htext Hkey.
  unfold encrypt. rewrite (proj2 (String.eqb_neq _ _) Htext), Hkey.
  unfold randomBytes, IV_LENGTH.
  eexists. eexists. eexists. split; [reflexivity|].
  unfold chars. rewrite list_ascii_of_string_of_list_ascii, split_encrypted.
  split; [reflexivity|].
  rewrite !toHex_lower, fromHex_toHex, !toHex_length, length_map, length_seq.
  repeat split.
  rewrite Nat.even_mul. reflexivity.
Qed.

(** [encrypt] throws exactly when it is given a string that is not empty
    while [ENCRYPTION_KEY] is not set or is empty; it then throws the
    key error and draws no random byte.  A value that is not a string, and
    the empty string, give the empty string whatever the key setting. *)
Theorem encrypt_fails_iff :
  forall (ENCRYPTION_KEY : option string) (text : jsValue) (r : randomSource),
    let result :=
      encrypt (L := L) sha256 aesEncrypt
        (Config.getEncryptionKey ENCRYPTION_KEY) text r in
    ((exists e, fst result = inl e) <->
     (exists t, text = JsString t /\ t <> EmptyString) /\
     (ENCRYPTION_KEY = None \/ ENCRYPTION_KEY = Some EmptyString)) /\
    (forall e, fst result = inl e -> e = Error KEY_NOT_SET /\ snd result = r) /\
    ((forall t, text = JsString t -> t = EmptyString) ->
     result = (inr EmptyString, r)).
Proof.
  intros env text r result. subst result. unfold encrypt, getKey.
  destruct text as [| |b|n|t|items|fields];
    try (cbn [fst snd]; split; [|split];
         [split; [intros [e He]; discriminate He
                 |intros [(t' & Ht' & _) _]; discriminate Ht']
         |intros e He; discriminate He
         |intros _; reflexivity]).
  destruct (String.eqb_spec t EmptyString) as [->|Hne].
  { cbn [fst snd]. split; [|split].
    - split; [intros [e He]; discriminate He|].
      intros [(t' & [= <-] & Hne) _]. contradiction.
    - intros e He. discriminate He.
    - intros _. reflexivity. }
  destruct env as [k|]; cbn [Config.getEncryptionKey].
  - destruct (String.eqb_spec k EmptyString) as [->|Hk].
    + cbn [fst snd]. split; [|split].
      * split; [|intros _; eexists; reflexivity].
        intros _. split; [exists t; split; [reflexivity|exact Hne]|].
        right. reflexivity.
      * intros e [= <-]. split; reflexivity.
      * intros Hall. destruct Hne. apply Hall. reflexivity.
    + rewrite (proj2 (String.eqb_neq _ _) Hk).
      unfold randomBytes. cbn [fst snd]. split; [|split].
      * split; [intros [e He]; discriminate He|].
        intros [_ [Hn|Hs]]; [discriminate Hn|].
        injection Hs as ->. contradiction.
      * intros e He. discriminate He.
      * intros Hall. destruct Hne. apply Hall. reflexivity.
  - cbn [fst snd]. split; [|split].
    + split; [|intros _; eexists; reflexivity].
      intros _. split; [exists t; split; [reflexivity|exact Hne]|].
      left. reflexivity.
    + intros e [= <-]. split; reflexivity.
    + intros Hall. destruct Hne. apply Hall. reflexivity.
Qed.

(** [decrypt] answers a string that is not empty with the format error
    exactly when the string does not hold exactly one colon; it does so
    before it looks at the key, so also when no key is set. *)
Theorem decrypt_format_error_iff :
  forall (encryptionKey : option string) (encryptedText : string),
    encryptedText <> EmptyString ->
    (decrypt sha256 aesDecrypt encryptionKey (JsString encryptedText)
     = inl (Error INVALID_FORMAT) <->
     occurrences ":" (chars encryptedText) <> 1).
Proof.
  intros encryptionKey s Hne.
  unfold decrypt. rewrite (proj2 (String.eqb_neq _ _) Hne).
  pose proof (split_length ":" (chars s)) as Hlen.
  destruct (split ":" (chars s)) as [|a [|b [|c parts]]];
    cbn [List.length] in Hlen.
  - discriminate Hlen.
  - split; [intros _; lia|reflexivity].
  - split; [|intros H; lia].
    unfold getKey. destruct encryptionKey as [k|].
    + destruct (String.eqb k EmptyString); [discriminate|].
      destruct (aesDecrypt (sha256 k) (fromHex a) b); discriminate.
    + discriminate.
  - split; [intros _; lia|reflexivity].
Qed.

End CryptoProperties.

Lemma plain_cipher_round_trip (key iv : list ascii) (text : string) :
  List.length iv = 16 ->
  CryptoUtil.plainDecrypt key iv
    (CryptoUtil.toHex (CryptoUtil.plainEncrypt key iv text)) = inr text.
Proof.
  intros _. unfold CryptoUtil.plainDecrypt, CryptoUtil.plainEncrypt.
  rewrite fromHex_toHex. unfold Sanitizer.chars.
  rewrite string_of_list_ascii_of_string. reflexivity.
Qed.

Lemma decrypt_encrypt_round_trip_witness :
  CryptoUtil.decrypt CryptoUtil.plainHash CryptoUtil.plainDecrypt
    (Some "test-secret-key-for-unit-tests"%string)
    (Sanitizer.JsString
       "00000000000000000000000000000000:68656c6c6f")
  = inr "hello"%string.
Proof.
  exact (@decrypt_encrypt_round_trip unit CryptoUtil.plainHash
           CryptoUtil.plainEncrypt CryptoUtil.plainDecrypt
           plain_cipher_round_trip
           (Some "test-secret-key-for-unit-tests"%string)
           "hello"%string CryptoUtil.zeros
           "00000000000000000000000000000000:68656c6c6f"%string eq_refl).
Defined.

Lemma encrypt_format_witness :
  exists encrypted ivHex body,
    CryptoUtil.encrypt (L := unit) CryptoUtil.plainHash
      CryptoUtil.plainEncrypt
      (Some "test-secret-key-for-unit-tests"%string)
      (Sanitizer.JsString "hello") CryptoUtil.zeros
    = (inr encrypted,
       {| CryptoUtil.stream := CryptoUtil.stream CryptoUtil.zeros;
          CryptoUtil.position := 16 |}) /\
    CryptoUtil.split ":" (Sanitizer.chars encrypted) = [ivHex; body] /\
    List.length ivHex = 32.
Proof.
  destruct (@encrypt_format unit CryptoUtil.plainHash CryptoUtil.plainEncrypt
              (Some "test-secret-key-for-unit-tests"%string)
              "hello"%string CryptoUtil.zeros
              (CryptoUtil.plainHash "test-secret-key-for-unit-tests")
              ltac:(discriminate) eq_refl)
    as (encrypted & ivHex & body & He & Hs & Hl & _).
  exists encrypted, ivHex, body. repeat split; assumption.
Defined.

Lemma encrypt_fails_iff_witness :
  CryptoUtil.encrypt (L := unit) CryptoUtil.plainHash
    CryptoUtil.plainEncrypt (Config.getEncryptionKey (Some ""%string))
    (Sanitizer.JsString "hello") CryptoUtil.zeros
  = (inl (CryptoUtil.Error CryptoUtil.KEY_NOT_SET), CryptoUtil.zeros).
Proof.
  pose proof (@encrypt_fails_iff unit CryptoUtil.plainHash
                CryptoUtil.plainEncrypt (Some ""%string)
                (Sanitizer.JsString "hello") CryptoUtil.zeros) as H.
  cbv zeta in H. destruct H as (_ & Herr & _).
  destruct (Herr _ eq_refl) as [He Hr].
  reflexivity.
Defined.

Lemma decrypt_format_error_iff_witness :
  CryptoUtil.decrypt (L := unit) CryptoUtil.plainHash CryptoUtil.plainDecrypt
    None (Sanitizer.JsString "a:b:c")
  = inl (CryptoUtil.Error CryptoUtil.INVALID_FORMAT).
Proof.
  apply (proj2 (@decrypt_format_error_iff unit CryptoUtil.plainHash
                  CryptoUtil.plainDecrypt None "a:b:c"%string
                  ltac:(discriminate))).
  vm_compute. discriminate.
Defined.

(* ===================================================================== *)
(** ** Properties of the JSON audit adapter *)
(* ===================================================================== *)

Section AuditProperties.

Import Sanitizer JsonAudit.

Variable E : Type.
Variable JSON_parse : string -> option jsValue.
Variable JSON_stringify : jsValue -> string.

Let ensure := ensureFileExists (E := E).
Let read := readAuditLog (E := E) JSON_parse.
Let save := saveAudit JSON_parse JSON_stringify (E := E).
Let saveList := saveAll JSON_parse JSON_stringify (E := E).

(** [ensureFileExists] on a disk that takes writes: the directory and the
    file exist afterwards, and a file that was there is left as it
    was. *)
Lemma ensure_writable (d : disk) :
  ensure {| onDisk := d; failing := None |}
  = (inr tt,
     {| onDisk := match d with
                  | Directory (Some content) => Directory (Some content)
                  | _ => Directory (Some "[]"%string)
                  end;
        failing := None |}).
Proof.
  destruct d as [|[content|]]; reflexivity.
Qed.

(** What one [saveAudit] does, on a disk that takes writes and with a
    [JSON.parse] that reads ['[]'] as the empty array.  Without the file
    (and if need be without the directory) it creates them and the log
    holds the entry alone.  On a file that does not parse it starts afresh:
    the log holds the entry alone and what the file held is gone.  On a
    file that parses to an array it writes the array with the entry added
    at the end.  On a file that parses to something else it rejects with a
    [TypeError] and leaves the file as it is. *)
Theorem saveAudit_cases :
  JSON_parse "[]" = Some (JsArray []) ->
  forall (entry : jsValue) (d : disk),
    save entry {| onDisk := d; failing := None |}
    = match d with
      | NoDirectory | Directory None =>
          (inr tt,
           {| onDisk := Directory (Some (JSON_stringify (JsArray [entry])));
              failing := None |})
      | Directory (Some content) =>
          match JSON_parse content with
          | None =>
              (inr tt,
               {| onDisk :=
                    Directory (Some (JSON_stringify (JsArray [entry])));
                  failing := None |})
          | Some (JsArray items) =>
              (inr tt,
               {| onDisk :=
                    Directory
                      (Some (JSON_stringify (JsArray (items ++ [entry]))));
                  failing := None |})
          | Some _ => (inl TypeError, {| onDisk := d; failing := None |})
          end
      end.
Proof.
  intros Hempty entry d.
  unfold save, saveAudit, readAuditLog. fold ensure. rewrite ensure_writable.
  destruct d as [|[content|]]; cbn [readFileSync onDisk].
  - rewrite Hempty. reflexivity.
  - destruct (JSON_parse content) as [[| | | | |items|]|]; reflexivity.
  - rewrite Hempty. reflexivity.
Qed.

Lemma read_writable (d : disk) :
  read {| onDisk := d; failing := None |}
  = (inr match JSON_parse match d with
                          | Directory (Some content) => content
                          | _ => "[]"%string
                          end with
         | Some parsed => parsed
         | None => JsArray []
         end,
     {| onDisk := Directory (Some match d with
                                  | Directory (Some content) => content
                                  | _ => "[]"%string
                                  end);
        failing := None |}).
Proof.
  unfold read, readAuditLog. fold ensure. rewrite ensure_writable.
  destruct d as [|[content|]]; cbn [readFileSync onDisk];
    destruct (JSON_parse _); reflexivity.
Qed.

Lemma read_after_write (content : string) :
  read {| onDisk := Directory (Some content); failing := None |}
  = (inr match JSON_parse content with
         | Some parsed => parsed
         | None => JsArray []
         end,
     {| onDisk := Directory (Some content); failing := None |}).
Proof.
  unfold read, readAuditLog. fold ensure. rewrite ensure_writable.
  cbn [readFileSync onDisk]. destruct (JSON_parse content); reflexivity.
Qed.

Lemma save_on_log (entry : jsValue) (old : list jsValue) (d : disk) :
  fst (read {| onDisk := d; failing := None |}) = inr (JsArray old) ->
  save entry {| onDisk := d; failing := None |}
  = (inr tt,
     {| onDisk :=
          Directory (Some (JSON_stringify (JsArray (old ++ [entry]))));
        failing := None |}).
Proof.
  intros Hold. unfold save, saveAudit. fold read.
  rewrite read_writable in Hold |- *. cbn [fst] in Hold.
  injection Hold as Hold. rewrite Hold. reflexivity.
Qed.

(** The log is append-only.  On a disk that takes writes, where
    [readAuditLog] returns the array [old], saving the entries of a list
    one after the other resolves every time, and [readAuditLog] then
    returns [old] followed by the entries, in the order they were saved;
    provided [JSON.parse] reads back what [JSON.stringify] wrote for each
    of the arrays on the way. *)
Theorem saved_entries_read_back_in_order :
  forall (entries old : list jsValue) (d : disk),
    let fs := {| onDisk := d; failing := None |} in
    fst (read fs) = inr (JsArray old) ->
    (forall k, 1 <= k <= List.length entries ->
               JSON_parse (JSON_stringify (JsArray (old ++ firstn k entries)))
               = Some (JsArray (old ++ firstn k entries))) ->
    fst (saveList entries fs) = inr tt /\
    fst (read (snd (saveList entries fs))) = inr (JsArray (old ++ entries)).
Proof.
  induction entries as [|entry entries IH]; intros old d fs Hold Hrt.
  - cbn [saveList saveAll fst snd]. rewrite app_nil_r.
    split; [reflexivity|exact Hold].
  - subst fs. unfold saveList. cbn [saveAll]. fold save.
    assert (Hsave : save entry {| onDisk := d; failing := None |}
                    = (inr tt,
                       {| onDisk :=
                            Directory
                              (Some (JSON_stringify
                                       (JsArray (old ++ [entry]))));
                          failing := None |})).
    { apply save_on_log, Hold. }
    rewrite Hsave. fold saveList.
    replace (old ++ entry :: entries) with ((old ++ [entry]) ++ entries)
      by (rewrite <- app_assoc; reflexivity).
    apply (IH (old ++ [entry])
              (Directory (Some (JSON_stringify (JsArray (old ++ [entry])))))).
    + rewrite read_after_write. cbn [fst].
      specialize (Hrt 1). cbn [firstn List.length] in Hrt.
      rewrite Hrt by lia. reflexivity.
    + intros k Hk. specialize (Hrt (S k)).
      cbn [firstn List.length] in Hrt. rewrite <- app_assoc. cbn [app].
      apply Hrt. lia.
Qed.

End AuditProperties.

Lemma saveAudit_cases_witness :
  JsonAudit.saveAudit (JsonAudit.tallyParse JsonAudit.mockEntry) JsonAudit.tallyStringify
    JsonAudit.mockEntry {| JsonAudit.onDisk := JsonAudit.Directory (Some "{ invalid json content"%string);
              JsonAudit.failing := @None unit |}
  = (inr tt,
     {| JsonAudit.onDisk := JsonAudit.Directory (Some "[*]"%string);
        JsonAudit.failing := None |}).
Proof.
  exact (@saveAudit_cases unit (JsonAudit.tallyParse JsonAudit.mockEntry)
           JsonAudit.tallyStringify eq_refl JsonAudit.mockEntry
           (JsonAudit.Directory (Some "{ invalid json content"%string))).
Defined.

Lemma saved_entries_read_back_in_order_witness :
  fst (JsonAudit.readAuditLog (JsonAudit.tallyParse JsonAudit.mockEntry)
         (snd (JsonAudit.saveAll (JsonAudit.tallyParse JsonAudit.mockEntry)
                 JsonAudit.tallyStringify [JsonAudit.mockEntry; JsonAudit.mockEntry; JsonAudit.mockEntry]
                 {| JsonAudit.onDisk := JsonAudit.NoDirectory;
                    JsonAudit.failing := @None unit |})))
  = inr (Sanitizer.JsArray [JsonAudit.mockEntry; JsonAudit.mockEntry; JsonAudit.mockEntry]).
Proof.
  refine (proj2 (@saved_entries_read_back_in_order unit
                   (JsonAudit.tallyParse JsonAudit.mockEntry) JsonAudit.tallyStringify
                   [JsonAudit.mockEntry; JsonAudit.mockEntry; JsonAudit.mockEntry] [] JsonAudit.NoDirectory
                   eq_refl _)).
  intros k Hk.
  destruct k as [|[|[|[|k]]]]; cbn [List.length] in Hk; try lia; reflexivity.
Defined.

(* ===================================================================== *)
(** ** The audit adapter when calls on the file system fail *)
(* ===================================================================== *)

Section FaultProperties.

Import Sanitizer.
Import JsonAudit(disk, NoDirectory, Directory, ENOENT, FsError, TypeError).

Variable E : Type.
Variable JSON_parse : string -> option jsValue.
Variable JSON_stringify : jsValue -> string.

Let save := AuditFaults.saveAudit (E := E) JSON_parse JSON_stringify.

Ltac run_adapter :=
  unfold AuditFaults.saveAudit, AuditFaults.readAuditLog,
    AuditFaults.writeAuditLog, AuditFaults.ensureFileExists,
    AuditFaults.mkdirSync, AuditFaults.writeFileSync,
    AuditFaults.readFileSync, AuditFaults.dirExists, AuditFaults.fileExists,
    AuditFaults.nextFate, JsonAudit.saveAudit, JsonAudit.readAuditLog,
    JsonAudit.writeAuditLog, JsonAudit.ensureFileExists, JsonAudit.mkdirSync,
    JsonAudit.writeFileSync, JsonAudit.readFileSync, JsonAudit.dirExists,
    JsonAudit.fileExists, JsonAudit.push;
  cbn [AuditFaults.onDisk AuditFaults.fates JsonAudit.onDisk
       JsonAudit.failing negb tl fst snd].

(** When no call on the file system fails, [saveAudit] does what it does
    on the disk of [JsonAudit] that takes writes. *)
Lemma saveAudit_without_faults (entry : jsValue) (d : disk) :
  let r := save entry {| AuditFaults.onDisk := d; AuditFaults.fates := [] |} in
  let r' := JsonAudit.saveAudit JSON_parse JSON_stringify entry
              {| JsonAudit.onDisk := d; JsonAudit.failing := @None E |} in
  fst r = fst r' /\ AuditFaults.onDisk (snd r) = JsonAudit.onDisk (snd r').
Proof.
  cbv zeta. unfold save. run_adapter.
  destruct d as [|[content|]]; run_adapter.
  - destruct (JSON_parse "[]") as [[| | | | |items|]|]; run_adapter;
      split; reflexivity.
  - destruct (JSON_parse content) as [[| | | | |items|]|]; run_adapter;
      split; reflexivity.
  - destruct (JSON_parse "[]") as [[| | | | |items|]|]; run_adapter;
      split; reflexivity.
Qed.

Ltac split_fates :=
  repeat match goal with
         | |- context [match ?l with [] => _ | _ :: _ => _ end] =>
             is_var l; destruct l as [|[|? [?|]] ?]; run_adapter
         end.

Ltac after_rejection :=
  first
    [ left; reflexivity
    | right; left; split; reflexivity
    | right; right; left; split; [reflexivity|];
      first [eexists; reflexivity | exists 2; reflexivity]
    | right; right; right; eexists; eexists; split;
      [cbn [AuditFaults.logOf];
       first [reflexivity
             | match goal with
               | H : JSON_parse _ = _ |- _ => rewrite H; reflexivity
               end]
      |reflexivity] ].

(** [saveAudit] is not atomic.  When it rejects, the disk is as it was, or
    holds what [ensureFileExists] made (the directory alone; a log holding
    ['[]'] or what a failed write left of it), or holds a log cut short: a
    part of the text [writeAuditLog] was writing, which is the log as it
    was read with the entry added.  A rejection with a [TypeError] always
    leaves the disk as it was.  ([JSON.parse] reads ['[]'] as the empty
    array.) *)
Theorem saveAudit_rejection_effects :
  JSON_parse "[]" = Some (JsArray []) ->
  forall (entry : jsValue) (fs : AuditFaults.fileSystem E)
         (err : JsonAudit.thrown E),
    fst (save entry fs) = inl err ->
    let d := AuditFaults.onDisk fs in
    let d' := AuditFaults.onDisk (snd (save entry fs)) in
    (err = TypeError -> d' = d) /\
    (d' = d \/
     (d = NoDirectory /\ d' = Directory None) \/
     (AuditFaults.fileExists fs = false /\
      exists n, d' = Directory (Some (AuditFaults.prefix n "[]"))) \/
     (exists entries n,
         AuditFaults.logOf JSON_parse d = JsArray entries /\
         d' = Directory
                (Some (AuditFaults.prefix n
                         (JSON_stringify (JsArray (entries ++ [entry]))))))).
Proof.
  intros Hempty entry [d fates] err. cbv zeta. unfold save.
  destruct d as [|[content|]]; run_adapter; split_fates;
    try rewrite Hempty; run_adapter; split_fates;
    try (destruct (JSON_parse content) as [[| | | | |items|]|] eqn:Hparse;
         run_adapter; split_fates);
    intros Herr; try discriminate Herr;
    (split; [intros Hty; first [reflexivity | congruence]|after_rejection]).
Qed.

End FaultProperties.

(** A log of one entry, read without trouble; the write that follows
    opens the file and fails before it has written a character
    ([ENOSPC]): [saveAudit] rejects and the log is empty. *)
Lemma saveAudit_rejection_effects_witness :
  let fs :=
    {| AuditFaults.onDisk := JsonAudit.Directory (Some "[*]"%string);
       AuditFaults.fates :=
         [AuditFaults.Succeeds;
          AuditFaults.Throws "ENOSPC"%string (Some 0)] |} in
  let r :=
    AuditFaults.saveAudit (JsonAudit.tallyParse JsonAudit.mockEntry)
      JsonAudit.tallyStringify JsonAudit.mockEntry fs in
  fst r = inl (JsonAudit.FsError "ENOSPC"%string) /\
  AuditFaults.onDisk (snd r) = JsonAudit.Directory (Some ""%string) /\
  exists entries n,
    AuditFaults.logOf (JsonAudit.tallyParse JsonAudit.mockEntry)
      (JsonAudit.Directory (Some "[*]"%string)) = Sanitizer.JsArray entries /\
    AuditFaults.onDisk (snd r)
    = JsonAudit.Directory
        (Some (AuditFaults.prefix n
                 (JsonAudit.tallyStringify
                    (Sanitizer.JsArray (entries ++ [JsonAudit.mockEntry]))))).
Proof.
  cbv zeta. split; [reflexivity|]. split; [reflexivity|].
  destruct (proj2 (@saveAudit_rejection_effects string
                     (JsonAudit.tallyParse JsonAudit.mockEntry)
                     JsonAudit.tallyStringify eq_refl JsonAudit.mockEntry
                     {| AuditFaults.onDisk :=
                          JsonAudit.Directory (Some "[*]"%string);
                        AuditFaults.fates :=
                          [AuditFaults.Succeeds;
                           AuditFaults.Throws "ENOSPC"%string (Some 0)] |}
                     (JsonAudit.FsError "ENOSPC"%string) eq_refl))
    as [H|[[H _]|[[H _]|H]]]; try discriminate H.
  exact H.
Defined.

(* ===================================================================== *)
(** ** Properties of the route on its own dependencies *)
(* ===================================================================== *)

Section SystemProperties.

Import Sanitizer SecureInquiry Route CryptoUtil JsonAudit Wiring.

Variable L : Type.
Variable F : Type.
Variable C : Type.
Variable sha256 : string -> list ascii.
Variable aesEncrypt : list ascii -> list ascii -> string -> list ascii.
Variable aesDecrypt : list ascii -> list ascii -> list ascii -> L + string.
Variable encryptionKey : option string.
Variable JSON_parse : string -> option jsValue.
Variable JSON_stringify : jsValue -> string.
Variable sanitize : string -> string.
Variable tick : C -> string * C.
Variable errorMessage : failure L F -> string.

Let postS :=
  Wiring.post sha256 aesEncrypt encryptionKey JSON_parse JSON_stringify
    sanitize tick errorMessage.

Ltac run_system :=
  unfold handle, executeSecureInquiry, bind, try_catch, invoke, attempt,
    readClock, ret, throw, wired, onGate, onRest, collaborators,
    MockAI.generateAnswer, clockOnHost, encryptOnHost, saveAuditOnHost;
  cbn [fst snd app
       sanitizer_sanitize circuitBreaker_isOpen circuitBreaker_recordFailure
       circuitBreaker_recordSuccess aiPort_generateAnswer
       auditDbPort_saveAudit cryptoUtil_encrypt
       CircuitBreaker.isOpen CircuitBreaker.recordSuccess
       CircuitBreaker.recordFailure clockState random files].

Lemma not_blank_not_empty (m : string) :
  forallb isWhiteSpace (chars m) = false -> String.eqb m EmptyString = false.
Proof.
  destruct m; [discriminate|reflexivity].
Qed.

Lemma decrypt_built (key iv : list ascii) (text : string) :
  (forall key iv text,
      List.length iv = 16 ->
      aesDecrypt key iv (toHex (aesEncrypt key iv text)) = inr text) ->
  getKey (L := L) sha256 encryptionKey = inr key ->
  List.length iv = 16 ->
  decrypt sha256 aesDecrypt encryptionKey
    (JsString (string_of_list_ascii
                 (toHex iv ++ ":"%char :: toHex (aesEncrypt key iv text))))
  = inr text.
Proof.
  intros Hcipher Hkey Hlen. unfold decrypt.
  rewrite string_eqb_chars by (destruct (toHex iv); discriminate).
  unfold chars. rewrite list_ascii_of_string_of_list_ascii.
  rewrite split_encrypted, Hkey, fromHex_toHex, Hcipher by exact Hlen.
  reflexivity.
Qed.

(** An accepted request on the route's own dependencies, served on its
    own, with the gate closed, the key set and a disk that takes writes
    and on which
    [readAuditLog] returns an array, [old] (a log that parses to something
    else makes [saveAudit] reject).  The client gets 200 with the mock's
    answer; the generation service saw the sanitizer's output, never the
    message; the counter is 0; the log file holds [old] followed by one
    entry, made of the user id, the clock's timestamp, the sanitizer's
    output and a text that [decrypt] turns back into the message as it was
    received, provided the cipher's decryption undoes its encryption;
    16 random bytes were drawn. *)
Theorem system_accepted_request :
  (forall key iv text,
      List.length iv = 16 ->
      aesDecrypt key iv (toHex (aesEncrypt key iv text)) = inr text) ->
  forall (body : jsValue) (g : CircuitBreaker.state) (c : C)
         (r : randomSource) (d : disk) (old : list jsValue)
         (key : list ascii),
    valid (validateRequest body) = true ->
    (CircuitBreaker.failureCount g < 3)%Z ->
    getKey (L := L) sha256 encryptionKey = inr key ->
    fst (readAuditLog JSON_parse {| onDisk := d; failing := @None F |})
    = inr (JsArray old) ->
    let m := stringOf (getProp body "message") in
    let h := postS body (g, {| clockState := c; random := r;
                               files := {| onDisk := d; failing := None |} |})
    in
    exists entry : auditEntry,
      sent h = {| status := 200; json := AnswerBody MockAI.DEFAULT_RESPONSE |}
      /\ consoleError h = None
      /\ calls h = [CallIsOpen; CallSanitize m;
                    CallGenerateAnswer (sanitize m); CallRecordSuccess;
                    CallEncrypt m; CallSaveAudit entry]
      /\ fst (world h) = {| CircuitBreaker.failureCount := 0 |}
      /\ files (snd (world h))
         = {| onDisk :=
                Directory
                  (Some (JSON_stringify (JsArray (old ++ [entryValue entry]))));
              failing := None |}
      /\ position (random (snd (world h))) = position r + 16
      /\ userId entry = stringOf (getProp body "userId")
      /\ timestamp entry = fst (tick c)
      /\ sanitizedMessage entry = sanitize m
      /\ decrypt sha256 aesDecrypt encryptionKey
           (JsString (originalMessageEncrypted entry)) = inr m.
Proof.
  intros Hcipher body g c r d old key Hv Hclosed Hkey Hold m h.
  subst h m. unfold postS, Wiring.post.
  destruct (post_valid (errorIsCircuitOpen (L := L) (F := F)) errorMessage
              (wired (collaborators (C := C) sha256 aesEncrypt encryptionKey
                        JSON_parse JSON_stringify sanitize))
              (onRest (clockOnHost (F := F) tick)) body
              (g, {| clockState := c; random := r;
                     files := {| onDisk := d; failing := None |} |}) Hv)
    as (u & m & Hu & Hm & _ & Hblank & Hpost).
  rewrite Hpost, Hu, Hm. cbn [stringOf]. clear Hpost.
  run_system. rewrite gate_test, (proj2 (Z.leb_gt _ _) Hclosed).
  cbn [fst snd app clockState random files].
  destruct (tick c) as [ts c'] eqn:Htick. cbn [fst snd app clockState random files].
  unfold encrypt. rewrite (not_blank_not_empty m Hblank), Hkey.
  unfold randomBytes, IV_LENGTH.
  cbn [fst snd app clockState random files].
  remember (map (stream r) (seq (position r) 16)) as iv eqn:Hiv.
  assert (Hlen : List.length iv = 16)
    by (rewrite Hiv, length_map, length_seq; reflexivity).
  match goal with
  | |- context [JsonAudit.saveAudit _ _ (entryValue ?en) _] =>
      rewrite (@save_on_log F JSON_parse JSON_stringify (entryValue en)
                 old d Hold);
      exists en
  end.
  cbn [fst snd app clockState random files sent consoleError calls world
       position userId timestamp sanitizedMessage originalMessageEncrypted].
  repeat apply conj; try reflexivity.
  exact (@decrypt_built key iv m Hcipher Hkey Hlen).
Qed.

(** An accepted request on the route's own dependencies when no key is
    set, the gate being closed: the generation service is called all the
    same, and the gate is told of its success; then the encryption throws,
    the client gets a bare 500 and the key error goes to the console;
    nothing is written to the audit log, no random byte is drawn, and the
    counter is 0. *)
Theorem system_request_without_key :
  forall (body : jsValue) (g : CircuitBreaker.state)
         (x : host F C),
    encryptionKey = None ->
    valid (validateRequest body) = true ->
    (CircuitBreaker.failureCount g < 3)%Z ->
    let m := stringOf (getProp body "message") in
    let h := postS body (g, x) in
    sent h = {| status := 500;
                json := ErrorBody (Some "Internal server error"%string) |} /\
    consoleError h = Some (errorMessage (CryptoFailure (Error KEY_NOT_SET))) /\
    calls h = [CallIsOpen; CallSanitize m; CallGenerateAnswer (sanitize m);
               CallRecordSuccess; CallEncrypt m] /\
    fst (world h) = {| CircuitBreaker.failureCount := 0 |} /\
    files (snd (world h)) = files x /\
    random (snd (world h)) = random x.
Proof.
  intros body g x Hkey Hv Hclosed m h.
  subst h m. unfold postS, Wiring.post.
  destruct (post_valid (errorIsCircuitOpen (L := L) (F := F)) errorMessage
              (wired (collaborators (C := C) sha256 aesEncrypt encryptionKey
                        JSON_parse JSON_stringify sanitize))
              (onRest (clockOnHost (F := F) tick)) body (g, x) Hv)
    as (u & m & Hu & Hm & _ & Hblank & Hpost).
  rewrite Hpost, Hm. cbn [stringOf]. clear Hpost.
  run_system. rewrite gate_test, (proj2 (Z.leb_gt _ _) Hclosed).
  cbn [fst snd app clockState random files].
  destruct (tick (clockState x)) as [ts c'] eqn:Htick.
  cbn [fst snd app clockState random files].
  unfold encrypt, getKey. rewrite (not_blank_not_empty m Hblank), Hkey.
  cbn [fst snd app clockState random files isCircuitOpenError
       errorIsCircuitOpen sent consoleError calls world].
  repeat apply conj; reflexivity.
Qed.

End SystemProperties.

Lemma system_accepted_request_witness :
  Route.sent
    (Wiring.post (L := unit) (F := unit) CryptoUtil.plainHash
       CryptoUtil.plainEncrypt (Some "test-secret-key-for-unit-tests"%string)
       (JsonAudit.tallyParse JsonAudit.mockEntry) JsonAudit.tallyStringify
       (fun message => message)
       (fun c : unit => ("2026-01-31T12:00:00.000Z"%string, c))
       (fun _ => "error"%string)
       (Sanitizer.JsObject
          [("userId"%string, Sanitizer.JsString "user-123");
           ("message"%string, Sanitizer.JsString "hello")])
       (CircuitBreaker.initial,
        {| Wiring.clockState := tt; Wiring.random := CryptoUtil.zeros;
           Wiring.files := {| JsonAudit.onDisk := JsonAudit.NoDirectory;
                              JsonAudit.failing := None |} |}))
  = {| Route.status := 200;
       Route.json := Route.AnswerBody MockAI.DEFAULT_RESPONSE |}.
Proof.
  destruct (@system_accepted_request unit unit unit CryptoUtil.plainHash
              CryptoUtil.plainEncrypt CryptoUtil.plainDecrypt
              (Some "test-secret-key-for-unit-tests"%string)
              (JsonAudit.tallyParse JsonAudit.mockEntry)
              JsonAudit.tallyStringify
              (fun message => message)
              (fun c : unit => ("2026-01-31T12:00:00.000Z"%string, c))
              (fun _ => "error"%string)
              plain_cipher_round_trip
              (Sanitizer.JsObject
                 [("userId"%string, Sanitizer.JsString "user-123");
                  ("message"%string, Sanitizer.JsString "hello")])
              CircuitBreaker.initial tt CryptoUtil.zeros
              JsonAudit.NoDirectory []
              (CryptoUtil.plainHash "test-secret-key-for-unit-tests")
              eq_refl eq_refl eq_refl eq_refl)
    as (entry & Hsent & _).
  exact Hsent.
Defined.

Lemma system_request_without_key_witness :
  Route.sent
    (Wiring.post (L := unit) (F := unit) CryptoUtil.plainHash
       CryptoUtil.plainEncrypt None
       (JsonAudit.tallyParse JsonAudit.mockEntry) JsonAudit.tallyStringify
       (fun message => message)
       (fun c : unit => ("2026-01-31T12:00:00.000Z"%string, c))
       (fun _ => "error"%string)
       (Sanitizer.JsObject
          [("userId"%string, Sanitizer.JsString "user-123");
           ("message"%string, Sanitizer.JsString "hello")])
       (CircuitBreaker.initial,
        {| Wiring.clockState := tt; Wiring.random := CryptoUtil.zeros;
           Wiring.files := {| JsonAudit.onDisk := JsonAudit.NoDirectory;
                              JsonAudit.failing := None |} |}))
  = {| Route.status := 500;
       Route.json := Route.ErrorBody (Some "Internal server error"%string) |}.
Proof.
  exact (proj1 (@system_request_without_key unit unit unit
                  CryptoUtil.plainHash CryptoUtil.plainEncrypt None
                  (JsonAudit.tallyParse JsonAudit.mockEntry)
                  JsonAudit.tallyStringify
                  (fun message => message)
                  (fun c : unit => ("2026-01-31T12:00:00.000Z"%string, c))
                  (fun _ => "error"%string)
                  (Sanitizer.JsObject
                     [("userId"%string, Sanitizer.JsString "user-123");
                      ("message"%string, Sanitizer.JsString "hello")])
                  CircuitBreaker.initial
                  {| Wiring.clockState := tt;
                     Wiring.random := CryptoUtil.zeros;
                     Wiring.files :=
                       {| JsonAudit.onDisk := JsonAudit.NoDirectory;
                          JsonAudit.failing := None |} |}
                  eq_refl eq_refl eq_refl)).
Defined.
